(** * pgBackRest reconciliation of a PostgresCluster

    A shallow embedding of
    [internal/controller/postgrescluster/pgbackrest.go]: the repository
    status fold ([getRepoVolumeStatus]), the ownership clean-up
    ([cleanupRepoResources], [getPGBackRestResources]), the stanza gate
    ([reconcileStanzaCreate]), the replica-create backup job
    ([reconcileReplicaCreateBackup]) and the cycle that runs them
    ([reconcilePGBackRest]).

    The Kubernetes store, the exec channel and the event recorder are
    outside the program.  Every call to them is appended to a trace and
    its outcome is read from an environment, so each theorem holds for
    every behaviour of the store. *)

From Stdlib Require Import ZArith Ascii Sorted.
From stdpp Require Import gmap strings list fin_maps.

Open Scope string_scope.
Open Scope list_scope.

(** ** Data model *)

(** [v1beta1.RepoStatus], with the fields this file reads and writes. *)
Record RepoStatus := mkRepoStatus {
  Bound : bool;
  Name : string;
  VolumeName : string;
  RepoOptionsHash : string;
  StanzaCreated : bool;
  ReplicaCreateBackupComplete : bool;
}.

Definition setBound (b : bool) (rs : RepoStatus) : RepoStatus :=
  mkRepoStatus b (Name rs) (VolumeName rs) (RepoOptionsHash rs)
    (StanzaCreated rs) (ReplicaCreateBackupComplete rs).
Definition setRepoOptionsHash (h : string) (rs : RepoStatus) : RepoStatus :=
  mkRepoStatus (Bound rs) (Name rs) (VolumeName rs) h
    (StanzaCreated rs) (ReplicaCreateBackupComplete rs).
Definition setStanzaCreated (b : bool) (rs : RepoStatus) : RepoStatus :=
  mkRepoStatus (Bound rs) (Name rs) (VolumeName rs) (RepoOptionsHash rs)
    b (ReplicaCreateBackupComplete rs).
Definition setReplicaCreateBackupComplete (b : bool) (rs : RepoStatus) : RepoStatus :=
  mkRepoStatus (Bound rs) (Name rs) (VolumeName rs) (RepoOptionsHash rs)
    (StanzaCreated rs) b.

(** An object of the store as this file reads it: the metadata every
    kind has, and the few typed fields the code looks at
    ([Status.Phase] and [Spec.VolumeName] of a PersistentVolumeClaim,
    [Spec.Replicas], a pointer, and [Status.ReadyReplicas] of a
    StatefulSet).  [Controller] is the UID of the owner reference that is
    marked as controller, if any. *)
Record Object := mkObject {
  Kind : string;
  GetName : string;
  GetNamespace : string;
  GetLabels : gmap string string;
  GetAnnotations : gmap string string;
  Controller : option string;
  CreationTimestamp : Z;
  Status_Phase : string;
  Spec_VolumeName : string;
  Spec_Replicas : option Z;
  Status_ReadyReplicas : Z;
}.

(** A Go map read [m[k]] yields the zero value for an absent key. *)
Definition index (m : gmap string string) (k : string) : string :=
  default "" (m !! k).

Definition ClaimBound : string := "Bound".

(** The verb [%q] of [fmt] on a string without special characters. *)
Definition quoted (s : string) : string :=
  String "034"%char s +:+ String "034"%char "".

(** ** getRepoVolumeStatus *)

Section RepoVolumeStatus.

(** [naming.LabelPGBackRestRepo], a constant of a package that is not
    part of these sources. *)
Variable LabelPGBackRestRepo : string.

(** The body run on the first status whose name matches a reconciled
    volume (lines 1316-1328). *)
Definition carryVolumeStatus (rv : Object) (replicaCreateRepoName : string)
    (rs : RepoStatus) : RepoStatus :=
  let rs :=
    if ReplicaCreateBackupComplete rs
       && negb (String.eqb (Name rs) replicaCreateRepoName)
    then setReplicaCreateBackupComplete false rs else rs in
  let bound := String.eqb (Status_Phase rv) ClaimBound in
  if negb (Bool.eqb (Bound rs) bound) then setBound bound rs else rs.

(** One round of the loop over the reconciled volumes (lines 1309-1339). *)
Definition volumeStatus (repoStatus : list RepoStatus)
    (replicaCreateRepoName : string) (rv : Object) : RepoStatus :=
  let repoName := index (GetLabels rv) LabelPGBackRestRepo in
  match find (fun rs => String.eqb (Name rs) repoName) repoStatus with
  | Some rs => carryVolumeStatus rv replicaCreateRepoName rs
  | None =>
      mkRepoStatus (String.eqb (Status_Phase rv) ClaimBound) repoName
        (Spec_VolumeName rv) "" false false
  end.

(** The body run on the first status whose name matches an external
    repository (lines 1351-1368). *)
Definition carryExtStatus (hash replicaCreateRepoName : string)
    (rs : RepoStatus) : RepoStatus :=
  let rs :=
    if ReplicaCreateBackupComplete rs
       && negb (String.eqb (Name rs) replicaCreateRepoName)
    then setReplicaCreateBackupComplete false rs else rs in
  if negb (String.eqb (RepoOptionsHash rs) hash)
  then setReplicaCreateBackupComplete false
         (setStanzaCreated false (setRepoOptionsHash hash rs))
  else rs.

(** One round of the loop over the configuration hashes
    (lines 1345-1378). *)
Definition extStatus (repoStatus : list RepoStatus)
    (replicaCreateRepoName : string) (kv : string * string) : RepoStatus :=
  let '(repoName, hash) := kv in
  match find (fun rs => String.eqb (Name rs) repoName) repoStatus with
  | Some rs => carryExtStatus hash replicaCreateRepoName rs
  | None => mkRepoStatus false repoName "" hash false false
  end.

(** [sort.Slice] with [less] on the names.  Go compares strings byte
    by byte, as [String.ltb] does.  On a short slice (up to 12
    elements; up to 6 before Go 1.19) [sort.Slice] is an insertion
    sort: each element in turn moves towards the front for as long as
    it is less than the one before it, so it comes to stand behind
    the elements that are not greater, and equal names keep their
    order.  On a longer slice the sort package leaves the order of
    equal names open; no theorem below depends on it. *)
Fixpoint insertByName (x : RepoStatus) (l : list RepoStatus) : list RepoStatus :=
  match l with
  | [] => [x]
  | y :: l' =>
      if String.ltb (Name y) (Name x) || String.eqb (Name y) (Name x)
      then y :: insertByName x l' else x :: l
  end.

Definition sortByName (l : list RepoStatus) : list RepoStatus :=
  foldl (fun sorted x => insertByName x sorted) [] l.

(** The function, for one order [hashes] in which the [range] over the
    map [configHashes] yields its entries.  Go leaves that order open. *)
Definition getRepoVolumeStatusIn (repoStatus : list RepoStatus)
    (repoVolumes : list Object) (hashes : list (string * string))
    (replicaCreateRepoName : string) : list RepoStatus :=
  let updatedRepoStatus :=
    map (volumeStatus repoStatus replicaCreateRepoName) repoVolumes in
  let updatedRepoStatus :=
    updatedRepoStatus
      ++ map (extStatus repoStatus replicaCreateRepoName) hashes in
  sortByName updatedRepoStatus.

Definition getRepoVolumeStatus (repoStatus : list RepoStatus)
    (repoVolumes : list Object) (configHashes : gmap string string)
    (replicaCreateRepoName : string) : list RepoStatus :=
  getRepoVolumeStatusIn repoStatus repoVolumes (map_to_list configHashes)
    replicaCreateRepoName.

End RepoVolumeStatus.

(** ** The condition ledger *)

Inductive ConditionStatus := ConditionTrue | ConditionFalse | ConditionUnknown.

Global Instance ConditionStatus_eq_dec : EqDecision ConditionStatus.
Proof. solve_decision. Defined.

(** [metav1.Condition].  [LastTransitionTime], a reading of the wall
    clock, is left out. *)
Record Condition := mkCondition {
  Type' : string;
  Status : ConditionStatus;
  ObservedGeneration : Z;
  Reason : string;
  Message : string;
}.

Definition ConditionReplicaCreate : string := "PGBackRestReplicaCreate".
Definition ConditionReplicaRepoReady : string := "PGBackRestReplicaRepoReady".
Definition ConditionRepoHostReady : string := "PGBackRestRepoHostReady".

Definition EventRepoHostCreated : string := "RepoHostCreated".
Definition EventUnableToCreateStanzas : string := "UnableToCreateStanzas".
Definition EventStanzasCreated : string := "StanzasCreated".
Definition EventUnableToCreatePGBackRestCronJob : string :=
  "UnableToCreatePGBackRestCronJob".

Definition full : string := "full".
Definition differential : string := "diff".
Definition incremental : string := "incr".

(** [meta.FindStatusCondition], [meta.SetStatusCondition] and
    [meta.RemoveStatusCondition] of k8s.io/apimachinery, on a ledger
    without transition times: the first condition of the type; an update
    in place of that condition, or an append when there is none; the
    ledger without the conditions of the type. *)
Definition FindStatusCondition (conditions : list Condition)
    (conditionType : string) : option Condition :=
  find (fun c => String.eqb (Type' c) conditionType) conditions.

Fixpoint SetStatusCondition (conditions : list Condition)
    (newCondition : Condition) : list Condition :=
  match conditions with
  | [] => [newCondition]
  | c :: rest =>
      if String.eqb (Type' c) (Type' newCondition)
      then mkCondition (Type' c) (Status newCondition)
             (ObservedGeneration newCondition) (Reason newCondition)
             (Message newCondition) :: rest
      else c :: SetStatusCondition rest newCondition
  end.

Definition RemoveStatusCondition (conditions : list Condition)
    (conditionType : string) : list Condition :=
  filter (fun c => Type' c ≠ conditionType) conditions.

(** ** The cluster object *)

Record PGBackRestBackupSchedules := mkSchedules {
  Full : option string;
  Differential : option string;
  Incremental : option string;
}.

(** [v1beta1.PGBackRestRepo]: the name, whether a volume is declared (its
    claim spec is opaque here) and the schedules. *)
Record PGBackRestRepo := mkRepo {
  repo_Name : string;
  repo_Volume : bool;
  repo_BackupSchedules : option PGBackRestBackupSchedules;
}.

(** [Spec.Archive.PGBackRest.RepoHost]: nil, or a host whose [Dedicated]
    field is nil or not. *)
Record PGBackRestRepoHost := mkRepoHost { Dedicated : bool }.

(** The part of the [v1beta1.PostgresCluster] that no function of this
    file writes. *)
Record PostgresCluster := mkCluster {
  cluster_Name : string;
  cluster_Namespace : string;
  cluster_UID : string;
  cluster_Generation : Z;
  Spec_Repos : list PGBackRestRepo;
  Spec_RepoHost : option PGBackRestRepoHost;
}.

Record RepoHostStatus := mkRepoHostStatus { Ready : bool }.

(** ** The world a reconcile runs in *)

Definition Error := string.

Record Event := mkEvent {
  eventtype : string;
  reason : string;
  message : string;
}.

Definition EventTypeNormal : string := "Normal".
Definition EventTypeWarning : string := "Warning".

Inductive DeletionPropagation :=
  DeletePropagationOrphan | DeletePropagationBackground | DeletePropagationForeground.

(** What [r.apply] is given.  The field values of a manifest are
    computed by packages outside these sources; an intent is identified
    here by the arguments this file passes to build it. *)
Inductive Intent :=
| RepoHostIntent (repoHostName : string)
| RepoVolumeIntent (repoName : string)
| PGBackRestConfigMapIntent (repoHostName configHash : string)
    (instanceNames : list string)
| SSHConfigMapIntent
| SSHSecretIntent (sshSecret : option Object)
| ServiceAccountIntent
| RoleIntent
| RoleBindingIntent
| CronJobIntent (repoName backupType schedule : string)
| BackupJobIntent (job : option Object)
    (selector containerName repoName serviceAccountName configName
     configHash : string).

(** The calls that leave the process. *)
Inductive Call :=
| List (kind namespace selector : string)
| Delete (obj : Object) (propagation : DeletionPropagation)
| Apply (intent : Intent)
| StanzaCreate (namespace pod container configHash : string).

(** The state one reconcile threads: the status of the cluster object,
    which the functions mutate in place, the events recorded and the
    calls made, oldest first.  [Status.PGBackRest] is a pointer that
    [reconcilePGBackRest] makes non-nil before it calls anything else
    (line 580), so the struct it points to is stored. *)
Record World := mkWorld {
  Status_RepoHost : option RepoHostStatus;
  Status_Repos : list RepoStatus;
  Status_Conditions : list Condition;
  events : list Event;
  calls : list Call;
}.

Definition setRepoHost (v : option RepoHostStatus) (w : World) : World :=
  mkWorld v (Status_Repos w) (Status_Conditions w) (events w) (calls w).
Definition setRepos (v : list RepoStatus) (w : World) : World :=
  mkWorld (Status_RepoHost w) v (Status_Conditions w) (events w) (calls w).
Definition setConditions (v : list Condition) (w : World) : World :=
  mkWorld (Status_RepoHost w) (Status_Repos w) v (events w) (calls w).
Definition addEvent (e : Event) (w : World) : World :=
  mkWorld (Status_RepoHost w) (Status_Repos w) (Status_Conditions w)
    (events w ++ [e]) (calls w).
Definition addCall (c : Call) (w : World) : World :=
  mkWorld (Status_RepoHost w) (Status_Repos w) (Status_Conditions w)
    (events w) (calls w ++ [c]).

(** A computation on the world; [None] is a Go run-time panic (a nil
    pointer dereference or an index out of range). *)
Definition M (A : Type) : Type := World -> option (A * World).

Global Instance M_ret : MRet M := fun A a w => Some (a, w).
Global Instance M_bind : MBind M := fun A B f m w =>
  match m w with
  | Some (a, w') => f a w'
  | None => None
  end.

Definition panic {A : Type} : M A := fun _ => None.
Definition get : M World := fun w => Some (w, w).
Definition modify (f : World -> World) : M unit := fun w => Some (tt, f w).

(** [defer]: the deferred function runs when the body returns, on the
    state the body left; neither function below names its results, so
    the returned values are the body's. *)
Definition defer {A : Type} (deferred : M unit) (body : M A) : M A :=
  a ← body; _ ← deferred; mret a.

Definition Event_ (eventtype reason message : string) : M unit :=
  modify (addEvent (mkEvent eventtype reason message)).

(** [reconcile.Result]; [RequeueAfter] in nanoseconds. *)
Record Result := mkResult {
  Requeue : bool;
  RequeueAfter : Z;
}.

Definition Second : Z := 1000000000.

(** [RepoResources] (lines 98-105). *)
Record RepoResources := mkRepoResources {
  cronjobs : list Object;
  replicaCreateBackupJobs : list Object;
  hosts : list Object;
  pvcs : list Object;
  sshConfig : option Object;
  sshSecret : option Object;
}.

(** ** What the file takes from elsewhere

    Constants and functions of the packages [naming], [pgbackrest],
    [patroni], of other files of package [postgrescluster] and of the
    Kubernetes libraries, none of which is part of these sources, and
    the outcome of each call to the store and to the exec channel.  An
    outcome may depend on the calls made so far. *)
Record Env := mkEnv {
  (* package naming *)
  LabelPGBackRestRepo : string;
  LabelPGBackRestBackup : string;
  LabelPGBackRestConfig : string;
  LabelPGBackRestDedicated : string;
  LabelPGBackRestRepoHost : string;
  LabelPGBackRestRepoVolume : string;
  LabelPGBackRestCronJob : string;
  LabelInstance : string;
  PGBackRestCurrentConfig : string;
  PGBackRestConfigHash : string;
  BackupReplicaCreate : string;
  PGBackRestRepoContainerName : string;
  ContainerDatabase : string;
  PGBackRestSelector : string -> string;
  PGBackRestDedicatedSelector : string -> string;
  ClusterPrimary : string -> gmap string string;
  PGBackRestSSHConfig : PostgresCluster -> string;
  PGBackRestSSHSecret : PostgresCluster -> string;
  (* package pgbackrest *)
  CMRepoKey : string;
  DedicatedRepoHostEnabled : PostgresCluster -> bool;
  RepoHostEnabled : PostgresCluster -> bool;
  CalculateConfigHashes :
    PostgresCluster -> gmap string string * string * option Error;
  (* package patroni *)
  ClusterBootstrapped : PostgresCluster -> bool;
  (* package postgrescluster, other files *)
  jobFailed : Object -> bool;
  jobCompleted : Object -> bool;
  updateReconcileResult : Result -> Result -> Result;
  handlePersistentVolumeClaimError :
    Error -> list Condition * list Event * option Error;
  (* Kubernetes libraries *)
  LabelSelectorAsSelector : gmap string string -> Error + string;
  NewAggregate : list Error -> Error;
  FromUnstructured : string -> list Object -> option Error;
  (* the error, if any, of building the manifest of an intent and of
     setting its controller reference *)
  intentError : Intent -> option Error;
  (* outcomes of the calls, given the calls made before *)
  ListResult : list Call -> string -> string -> string -> Error + list Object;
  DeleteResult : list Call -> Object -> DeletionPropagation -> option Error;
  ApplyResult : list Call -> Intent -> Error + Object;
  StanzaCreateResult :
    list Call -> string -> string -> string -> string -> bool * option Error;
}.

Section Reconciler.

Variable env : Env.

(** *** The calls *)

Definition Client_List (kind namespace selector : string)
    : M (Error + list Object) :=
  w ← get;
  _ ← modify (addCall (List kind namespace selector));
  mret (ListResult env (calls w) kind namespace selector).

Definition Client_Delete (obj : Object) (propagation : DeletionPropagation)
    : M (option Error) :=
  w ← get;
  _ ← modify (addCall (Delete obj propagation));
  mret (DeleteResult env (calls w) obj propagation).

Definition apply (intent : Intent) : M (Error + Object) :=
  w ← get;
  _ ← modify (addCall (Apply intent));
  mret (ApplyResult env (calls w) intent).

Definition Executor_StanzaCreate (namespace pod container configHash : string)
    : M (bool * option Error) :=
  w ← get;
  _ ← modify (addCall (StanzaCreate namespace pod container configHash));
  mret (StanzaCreateResult env (calls w) namespace pod container configHash).

(** *** Ownership clean-up *)

(** backupScheduleFound (lines 319-333). *)
Definition backupScheduleFound (repo : PGBackRestRepo) (backupType : string)
    : bool :=
  match repo_BackupSchedules repo with
  | Some schedules =>
      if String.eqb backupType full then bool_decide (is_Some (Full schedules))
      else if String.eqb backupType differential
      then bool_decide (is_Some (Differential schedules))
      else if String.eqb backupType incremental
      then bool_decide (is_Some (Incremental schedules))
      else false
  | None => false
  end.

Definition hasLabel (owned : Object) (label : string) : bool :=
  bool_decide (is_Some (GetLabels owned !! label)).

(** The [switch] of cleanupRepoResources (lines 244-302) for one owned
    resource: what it appends to [ownedNoDelete] (a resource is
    appended once for every repository of the spec that matches it),
    and the value of [delete] after it. *)
Definition retained (postgresCluster : PostgresCluster) (owned : Object)
    : list Object * bool :=
  let repoLabel := index (GetLabels owned) (LabelPGBackRestRepo env) in
  if hasLabel owned (LabelPGBackRestConfig env) then ([owned], false)
  else if hasLabel owned (LabelPGBackRestDedicated env) then
    if DedicatedRepoHostEnabled env postgresCluster
    then ([owned], false) else ([], true)
  else if hasLabel owned (LabelPGBackRestRepoHost env) then
    if RepoHostEnabled env postgresCluster
    then ([owned], false) else ([], true)
  else if hasLabel owned (LabelPGBackRestRepoVolume env) then
    let kept :=
      flat_map (fun repo =>
        if repo_Volume repo && String.eqb (repo_Name repo) repoLabel
        then [owned] else []) (Spec_Repos postgresCluster) in
    (kept, bool_decide (kept = []))
  else if hasLabel owned (LabelPGBackRestBackup env) then
    let kept :=
      flat_map (fun repo =>
        if String.eqb (repo_Name repo) repoLabel
        then [owned] else []) (Spec_Repos postgresCluster) in
    (kept, bool_decide (kept = []))
  else if hasLabel owned (LabelPGBackRestCronJob env) then
    match find (fun repo => String.eqb (repo_Name repo) repoLabel)
            (Spec_Repos postgresCluster) with
    | Some repo =>
        if backupScheduleFound repo
             (index (GetLabels owned) (LabelPGBackRestCronJob env))
        then ([owned], false) else ([], true)
    | None => ([], true)
    end
  else ([], true).

(** The loop of cleanupRepoResources (lines 235-311), from a given
    [ownedNoDelete]. *)
Fixpoint cleanupLoop (postgresCluster : PostgresCluster)
    (ownedResources ownedNoDelete : list Object)
    : M (list Object * option Error) :=
  match ownedResources with
  | [] => mret (ownedNoDelete, None)
  | owned :: rest =>
      let '(kept, delete) := retained postgresCluster owned in
      let ownedNoDelete := ownedNoDelete ++ kept in
      if delete then
        err ← Client_Delete owned DeletePropagationBackground;
        match err with
        | Some err => mret ([], Some err)
        | None => cleanupLoop postgresCluster rest ownedNoDelete
        end
      else cleanupLoop postgresCluster rest ownedNoDelete
  end.

Definition cleanupRepoResources (postgresCluster : PostgresCluster)
    (ownedResources : list Object) : M (list Object * option Error) :=
  cleanupLoop postgresCluster ownedResources [].

(** [metav1.IsControlledBy]. *)
Definition IsControlledBy (obj : Object) (owner : PostgresCluster) : bool :=
  match Controller obj with
  | Some uid => String.eqb uid (cluster_UID owner)
  | None => false
  end.

(** unstructuredToRepoResources (lines 337-413). *)
Definition unstructuredToRepoResources (postgresCluster : PostgresCluster)
    (kind : string) (repoResources : RepoResources) (items : list Object)
    : RepoResources * option Error :=
  let '(mkRepoResources cj jobs hs vols cm sec) := repoResources in
  let converted (r : RepoResources) :=
    match FromUnstructured env kind items with
    | Some err => (repoResources, Some err)
    | None => (r, None)
    end in
  if String.eqb kind "ConfigMapList" then
    converted
      (match find (fun o => String.eqb (GetName o)
                              (PGBackRestSSHConfig env postgresCluster)) items with
       | Some o => mkRepoResources cj jobs hs vols (Some o) sec
       | None => repoResources
       end)
  else if String.eqb kind "JobList" then
    converted
      (mkRepoResources cj
         (jobs ++ filter (fun job =>
            index (GetLabels job) (LabelPGBackRestBackup env)
            = BackupReplicaCreate env) items)
         hs vols cm sec)
  else if String.eqb kind "PersistentVolumeClaimList" then
    converted (mkRepoResources cj jobs hs (vols ++ items) cm sec)
  else if String.eqb kind "SecretList" then
    converted
      (match find (fun o => String.eqb (GetName o)
                              (PGBackRestSSHSecret env postgresCluster)) items with
       | Some o => mkRepoResources cj jobs hs vols cm (Some o)
       | None => repoResources
       end)
  else if String.eqb kind "StatefulSetList" then
    converted (mkRepoResources cj jobs (hs ++ items) vols cm sec)
  else if String.eqb kind "CronJob" then
    converted (mkRepoResources (cj ++ items) jobs hs vols cm sec)
  else (repoResources, Some ("unexpected kind " +:+ quoted kind)).

Definition gvks : list string :=
  ["ConfigMapList"; "JobList"; "PersistentVolumeClaimList"; "SecretList";
   "StatefulSetList"; "CronJob"].

(** The loop of getPGBackRestResources over the kinds (lines 188-216). *)
Fixpoint resourcesLoop (postgresCluster : PostgresCluster)
    (kinds : list string) (repoResources : RepoResources)
    : M (Error + RepoResources) :=
  match kinds with
  | [] => mret (inr repoResources)
  | kind :: rest =>
      uList ← Client_List kind (cluster_Namespace postgresCluster)
                (PGBackRestSelector env (cluster_Name postgresCluster));
      match uList with
      | inl err => mret (inl err)
      | inr [] => resourcesLoop postgresCluster rest repoResources
      | inr items =>
          let owned :=
            filter (fun u => IsControlledBy u postgresCluster = true) items in
          cleaned ← cleanupRepoResources postgresCluster owned;
          match cleaned with
          | (_, Some err) => mret (inl err)
          | (owned, None) =>
              match unstructuredToRepoResources postgresCluster kind
                      repoResources owned with
              | (_, Some err) => mret (inl err)
              | (repoResources, None) =>
                  resourcesLoop postgresCluster rest repoResources
              end
          end
      end
  end.

(** getPGBackRestResources (lines 156-219). *)
Definition getPGBackRestResources (postgresCluster : PostgresCluster)
    : M (Error + RepoResources) :=
  resourcesLoop postgresCluster gvks
    (mkRepoResources [] [] [] [] None None).

(** *** The dedicated repository host *)

Definition applyRepoHostIntent (postgresCluster : PostgresCluster)
    (repoHostName : string) : M (Error + Object) :=
  match intentError env (RepoHostIntent repoHostName) with
  | Some err => mret (inl err)
  | None => apply (RepoHostIntent repoHostName)
  end.

(** getRepoHostStatus (lines 1281-1294); [*repoHost.Spec.Replicas]
    panics on a nil pointer. *)
Definition getRepoHostStatus (repoHost : Object) : M RepoHostStatus :=
  match Spec_Replicas repoHost with
  | Some replicas =>
      mret (mkRepoHostStatus (Z.eqb (Status_ReadyReplicas repoHost) replicas))
  | None => panic
  end.

Definition repoHostReadyCondition (postgresCluster : PostgresCluster)
    (repoHost : option RepoHostStatus) : Condition :=
  let gen := cluster_Generation postgresCluster in
  match repoHost with
  | None =>
      mkCondition ConditionRepoHostReady ConditionUnknown gen
        "RepoHostStatusMissing"
        "pgBackRest dedicated repository host status is missing"
  | Some st =>
      if Ready st
      then mkCondition ConditionRepoHostReady ConditionTrue gen
             "RepoHostReady" "pgBackRest dedicated repository host is ready"
      else mkCondition ConditionRepoHostReady ConditionFalse gen
             "RepoHostNotReady"
             "pgBackRest dedicated repository host is not ready"
  end.

(** [sort.Slice] with [less] on the creation times: on a short slice
    the insertion sort of [sortByName], which keeps hosts of equal
    creation time in their order. *)
Fixpoint insertByCreation (x : Object) (l : list Object) : list Object :=
  match l with
  | [] => [x]
  | y :: l' =>
      if (CreationTimestamp y <=? CreationTimestamp x)%Z
      then y :: insertByCreation x l' else x :: l
  end.

(** reconcileDedicatedRepoHost (lines 815-872). *)
Definition reconcileDedicatedRepoHost (postgresCluster : PostgresCluster)
    (repoResources : RepoResources) : M (option Object * option Error) :=
  defer
    (w ← get;
     modify (setConditions
       (SetStatusCondition (Status_Conditions w)
          (repoHostReadyCondition postgresCluster (Status_RepoHost w)))))
    (let '(hosts, isCreate) :=
       match hosts repoResources with
       | [] =>
           ([mkObject "" (cluster_Name postgresCluster +:+ "-" +:+ "repo-host")
               "" ∅ ∅ None 0 "" "" None 0], true)
       | hs =>
           (foldl (fun sorted x => insertByCreation x sorted) [] hs, false)
       end in
     match hosts with
     | [] => panic
     | host :: _ =>
         let repoHostName := GetName host in
         applied ← applyRepoHostIntent postgresCluster repoHostName;
         match applied with
         | inl err => mret (None, Some err)
         | inr repoHost =>
             st ← getRepoHostStatus repoHost;
             _ ← modify (setRepoHost (Some st));
             _ ← (if isCreate : bool then
                    Event_ EventTypeNormal EventRepoHostCreated
                      ("created pgBackRest repository host "
                         +:+ Kind repoHost +:+ "/" +:+ repoHostName)
                  else mret tt);
             mret (Some repoHost, None)
         end
     end).

(** *** The repositories *)

(** applyRepoVolumeIntent (lines 134-149). *)
Definition applyRepoVolumeIntent (postgresCluster : PostgresCluster)
    (repoName : string) : M (option Object * option Error) :=
  match intentError env (RepoVolumeIntent repoName) with
  | Some err => mret (None, Some err)
  | None =>
      applied ← apply (RepoVolumeIntent repoName);
      match applied with
      | inl err =>
          let '(conds, evs, err) := handlePersistentVolumeClaimError env err in
          w ← get;
          _ ← modify (setConditions
                 (foldl SetStatusCondition (Status_Conditions w) conds));
          _ ← modify (fun w => foldl (fun w e => addEvent e w) w evs);
          mret (None, err)
      | inr repo => mret (Some repo, None)
      end
  end.

(** The loop of reconcileRepos (lines 1085-1102).  A volume for which
    applyRepoVolumeIntent gives neither a claim nor an error is the nil
    pointer the loop appends. *)
Fixpoint reposLoop (postgresCluster : PostgresCluster)
    (repos : list PGBackRestRepo) (errors : list Error)
    (repoVols : list (option Object))
    : M (list Error * list (option Object)) :=
  match repos with
  | [] => mret (errors, repoVols)
  | repo :: rest =>
      if negb (repo_Volume repo)
      then reposLoop postgresCluster rest errors repoVols
      else
        applied ← applyRepoVolumeIntent postgresCluster (repo_Name repo);
        match applied with
        | (_, Some err) =>
            reposLoop postgresCluster rest (errors ++ [err]) repoVols
        | (repo, None) =>
            reposLoop postgresCluster rest errors (repoVols ++ [repo])
        end
  end.

(** reconcileRepos (lines 1076-1113).  getRepoVolumeStatus reads
    [rv.Labels] of every volume and panics on a nil one. *)
Definition reconcileRepos (postgresCluster : PostgresCluster)
    (extConfigHashes : gmap string string) : M (string * option Error) :=
  let replicaCreateRepoName :=
    match Spec_Repos postgresCluster with
    | repo :: _ => repo_Name repo
    | [] => ""
    end in
  '(errors, repoVols) ←
    reposLoop postgresCluster (Spec_Repos postgresCluster) [] [];
  match mapM id repoVols with
  | None => panic
  | Some repoVols =>
      w ← get;
      _ ← modify (setRepos
             (getRepoVolumeStatus (LabelPGBackRestRepo env) (Status_Repos w)
                repoVols extConfigHashes replicaCreateRepoName));
      match errors with
      | [] => mret (replicaCreateRepoName, None)
      | _ => mret ("", Some (NewAggregate env errors))
      end
  end.

(** reconcilePGBackRestConfig (lines 692-743). *)
Definition applyOrError (intent : Intent) : M (option Error) :=
  match intentError env intent with
  | Some err => mret (Some err)
  | None =>
      applied ← apply intent;
      match applied with
      | inl err => mret (Some err)
      | inr _ => mret None
      end
  end.

Definition reconcilePGBackRestConfig (postgresCluster : PostgresCluster)
    (repoHostName configHash : string) (instanceNames : list string)
    (sshSecret : option Object) : M (option Error) :=
  err ← applyOrError
          (PGBackRestConfigMapIntent repoHostName configHash instanceNames);
  match err with
  | Some err => mret (Some err)
  | None =>
      match Spec_RepoHost postgresCluster with
      | None => mret None
      | Some _ =>
          err ← applyOrError SSHConfigMapIntent;
          match err with
          | Some err => mret (Some err)
          | None => applyOrError (SSHSecretIntent sshSecret)
          end
      end
  end.

(** reconcilePGBackRestRBAC (lines 751-811): the controller reference
    of the three objects is set first, then they are applied. *)
Definition reconcilePGBackRestRBAC (postgresCluster : PostgresCluster)
    : M (option Object * option Error) :=
  match intentError env ServiceAccountIntent,
        intentError env RoleBindingIntent,
        intentError env RoleIntent with
  | Some err, _, _ | None, Some err, _ | None, None, Some err =>
      mret (None, Some err)
  | None, None, None =>
      sa ← apply ServiceAccountIntent;
      match sa with
      | inl err => mret (None, Some err)
      | inr sa =>
          role ← apply RoleIntent;
          match role with
          | inl err => mret (None, Some err)
          | inr _ =>
              binding ← apply RoleBindingIntent;
              match binding with
              | inl err => mret (None, Some err)
              | inr _ => mret (Some sa, None)
              end
          end
      end
  end.

(** *** The stanza gate *)

(** getPGBackRestExecSelector (lines 1245-1277). *)
Definition getPGBackRestExecSelector (postgresCluster : PostgresCluster)
    : Error + (string * string) :=
  let clusterName := cluster_Name postgresCluster in
  let dedicatedEnabled := DedicatedRepoHostEnabled env postgresCluster in
  let repoHostEnabled := RepoHostEnabled env postgresCluster in
  if dedicatedEnabled
  then inr (PGBackRestDedicatedSelector env clusterName,
            PGBackRestRepoContainerName env)
  else
    match LabelSelectorAsSelector env (ClusterPrimary env clusterName) with
    | inl err => inl err
    | inr podSelector =>
        inr (podSelector,
             if repoHostEnabled then PGBackRestRepoContainerName env
             else ContainerDatabase env)
    end.

(** The readiness of the dedicated repository host as both
    reconcileStanzaCreate (lines 1166-1171) and
    reconcileReplicaCreateBackup (lines 957-962) compute it. *)
Definition dedicatedRepoReady (conditions : list Condition) : bool :=
  match FindStatusCondition conditions ConditionRepoHostReady with
  | Some condition => bool_decide (Status condition = ConditionTrue)
  | None => true
  end.

(** The condition the deferred function of reconcileStanzaCreate
    builds (lines 1141-1159). *)
Definition replicaRepoReadyCondition (postgresCluster : PostgresCluster)
    (replicaCreateRepoStatus : option RepoStatus) : Condition :=
  let gen := cluster_Generation postgresCluster in
  match replicaCreateRepoStatus with
  | None =>
      mkCondition ConditionReplicaRepoReady ConditionUnknown gen
        "RepoStatusMissing" "Status is missing for the replica creation repo"
  | Some rs =>
      if StanzaCreated rs
      then mkCondition ConditionReplicaRepoReady ConditionTrue gen
             "StanzaCreated"
             ("pgBackRest replica create repo is ready for " +:+ "backups")
      else mkCondition ConditionReplicaRepoReady ConditionFalse gen
             "StanzaNotCreated"
             ("pgBackRest replica create repo is not ready " +:+ "for backups")
  end.

(** The deferred function of reconcileStanzaCreate (lines 1128-1161). *)
Definition stanzaCreateDeferred (postgresCluster : PostgresCluster) : M unit :=
  match Spec_Repos postgresCluster with
  | [] => mret tt
  | repo :: _ =>
      let replicaCreateRepoName := repo_Name repo in
      w ← get;
      let replicaCreateRepoStatus :=
        find (fun r => String.eqb (Name r) replicaCreateRepoName)
          (Status_Repos w) in
      modify (setConditions
        (SetStatusCondition (Status_Conditions w)
           (replicaRepoReadyCondition postgresCluster replicaCreateRepoStatus)))
  end.

(** The body of reconcileStanzaCreate (lines 1163-1239). *)
Definition stanzaCreateBody (postgresCluster : PostgresCluster)
    (configHash : string) : M (bool * option Error) :=
  w ← get;
  let clusterBootstrapped := ClusterBootstrapped env postgresCluster in
  let dedicatedRepoReady := dedicatedRepoReady (Status_Conditions w) in
  let stanzasCreated := forallb StanzaCreated (Status_Repos w) in
  if negb clusterBootstrapped || negb dedicatedRepoReady || stanzasCreated
  then mret (false, None)
  else
    match getPGBackRestExecSelector postgresCluster with
    | inl err => mret (false, Some err)
    | inr (selector, containerName) =>
        pods ← Client_List "PodList" (cluster_Namespace postgresCluster)
                 selector;
        match pods with
        | inl err => mret (false, Some err)
        | inr [pod] =>
            '(configHashMismatch, err) ←
              Executor_StanzaCreate (cluster_Namespace postgresCluster)
                (GetName pod) containerName configHash;
            match err with
            | Some err =>
                _ ← Event_ EventTypeWarning EventUnableToCreateStanzas err;
                mret (false, Some err)
            | None =>
                if configHashMismatch : bool then mret (true, None)
                else
                  _ ← Event_ EventTypeNormal EventStanzasCreated
                        "pgBackRest stanza creation completed successfully";
                  _ ← modify (fun w =>
                        setRepos (map (setStanzaCreated true) (Status_Repos w)) w);
                  mret (false, None)
            end
        | inr _ =>
            mret (false,
                  Some "invalid number of Pods found when attempting to create stanzas")
        end
    end.

(** reconcileStanzaCreate (lines 1124-1240). *)
Definition reconcileStanzaCreate (postgresCluster : PostgresCluster)
    (configHash : string) : M (bool * option Error) :=
  defer (stanzaCreateDeferred postgresCluster)
    (stanzaCreateBody postgresCluster configHash).

(** *** The scheduled backups *)

(** createCronJob (lines 1427-1494). *)
Definition createCronJob (cluster : PostgresCluster)
    (repoName backupType schedule : string) : M (option Error) :=
  err ← applyOrError (CronJobIntent repoName backupType schedule);
  match err with
  | Some e =>
      _ ← Event_ EventTypeWarning EventUnableToCreatePGBackRestCronJob e;
      mret (Some e)
  | None => mret None
  end.

Definition createIfScheduled (cluster : PostgresCluster)
    (repoName backupType : string) (schedule : option string)
    (requeue : bool) : M bool :=
  match schedule with
  | Some schedule =>
      err ← createCronJob cluster repoName backupType schedule;
      mret (match err : option Error with
            | Some _ => true
            | None => requeue
            end)
  | None => mret requeue
  end.

(** reconcilePGBackRestCronJob (lines 1390-1422), from a given
    [requeue]. *)
Fixpoint cronJobLoop (cluster : PostgresCluster)
    (repos : list PGBackRestRepo) (requeue : bool) : M bool :=
  match repos with
  | [] => mret requeue
  | repo :: rest =>
      match repo_BackupSchedules repo with
      | Some schedules =>
          requeue ← createIfScheduled cluster (repo_Name repo) full
                      (Full schedules) requeue;
          requeue ← createIfScheduled cluster (repo_Name repo) differential
                      (Differential schedules) requeue;
          requeue ← createIfScheduled cluster (repo_Name repo) incremental
                      (Incremental schedules) requeue;
          cronJobLoop cluster rest requeue
      | None => cronJobLoop cluster rest requeue
      end
  end.

Definition reconcilePGBackRestCronJob (cluster : PostgresCluster) : M bool :=
  cronJobLoop cluster (Spec_Repos cluster) false.

(** *** The replica-create backup *)

(** The condition the deferred function of
    reconcileReplicaCreateBackup builds (lines 892-909). *)
Definition replicaCreateCondition (postgresCluster : PostgresCluster)
    (replicaCreateRepoStatus : option RepoStatus) : Condition :=
  let gen := cluster_Generation postgresCluster in
  match replicaCreateRepoStatus with
  | None =>
      mkCondition ConditionReplicaCreate ConditionUnknown gen
        "RepoStatusMissing" "Status is missing for the replica create repo"
  | Some rs =>
      if ReplicaCreateBackupComplete rs
      then mkCondition ConditionReplicaCreate ConditionTrue gen
             "RepoBackupComplete" "pgBackRest replica creation is now possible"
      else mkCondition ConditionReplicaCreate ConditionFalse gen
             "RepoBackupNotComplete"
             ("pgBackRest replica creation is not currently " +:+ "possible")
  end.

(** [replicaCreateRepoStatus] is a pointer to an element of
    [Status.PGBackRest.Repos]: the index of the first status of that
    name, or nil.  It is read and written through the list the world
    holds at that moment. *)
Definition replicaCreateRepoStatusPtr (repos : list RepoStatus)
    (replicaCreateRepoName : string) : option nat :=
  fst <$> list_find (fun r => Name r = replicaCreateRepoName) repos.

Definition deref (ptr : option nat) (w : World) : option RepoStatus :=
  match ptr with
  | Some i => Status_Repos w !! i
  | None => None
  end.

(** The deferred function of reconcileReplicaCreateBackup
    (lines 891-911). *)
Definition replicaCreateBackupDeferred (postgresCluster : PostgresCluster)
    (ptr : option nat) : M unit :=
  w ← get;
  modify (setConditions
    (SetStatusCondition (Status_Conditions w)
       (replicaCreateCondition postgresCluster (deref ptr w)))).

(** [replicaRepoReady] (lines 925-929). *)
Definition replicaRepoReady (conditions : list Condition) : bool :=
  match FindStatusCondition conditions ConditionReplicaRepoReady with
  | Some condition => bool_decide (Status condition = ConditionTrue)
  | None => false
  end.

(** The test on an existing Job (lines 985-1003): it failed, or the
    replica-create repository changed, or one of its two annotations
    differs from the current value. *)
Definition jobOutdated (job : Object)
    (replicaCreateRepoName configName configHash : string) : bool :=
  let failed := jobFailed env job in
  let replicaCreateRepoChanged :=
    negb (String.eqb replicaCreateRepoName
            (index (GetLabels job) (LabelPGBackRestRepo env))) in
  failed || replicaCreateRepoChanged
  || negb (String.eqb (index (GetAnnotations job) (PGBackRestCurrentConfig env))
             configName)
  || negb (String.eqb (index (GetAnnotations job) (PGBackRestConfigHash env))
             configHash).

(** Lines 1023-1071: the Job is built and applied.  Without an
    existing Job the labels read [Spec.Archive.PGBackRest.Repos[0]],
    and [serviceAccount.GetName()] reads through the pointer to the
    service account. *)
Definition applyBackupJob (postgresCluster : PostgresCluster)
    (job serviceAccount : option Object)
    (selector containerName configName configHash
     replicaCreateRepoName : string) : M (option Error) :=
  match job, Spec_Repos postgresCluster with
  | None, [] => panic
  | _, _ =>
      match serviceAccount with
      | None => panic
      | Some sa =>
          applyOrError
            (BackupJobIntent job selector containerName replicaCreateRepoName
               (GetName sa) configName configHash)
      end
  end.

(** The body of reconcileReplicaCreateBackup (lines 913-1071). *)
Definition replicaCreateBackupBody (postgresCluster : PostgresCluster)
    (replicaCreateBackupJobs : list Object) (serviceAccount : option Object)
    (configHash replicaCreateRepoName : string) (ptr : option nat)
    : M (option Error) :=
  w ← get;
  match negb (ClusterBootstrapped env postgresCluster), deref ptr w with
  | true, _ | _, None => mret None
  | false, Some replicaCreateRepoStatus =>
  if ReplicaCreateBackupComplete replicaCreateRepoStatus then mret None
  else
  let replicaRepoReady := replicaRepoReady (Status_Conditions w) in
  match getPGBackRestExecSelector postgresCluster with
  | inl err => mret (Some err)
  | inr (selector, containerName) =>
  pods ← Client_List "PodList" (cluster_Namespace postgresCluster) selector;
  match pods with
  | inl err => mret (Some err)
  | inr [pod] =>
      let primaryInstance := index (GetLabels pod) (LabelInstance env) in
      let configName :=
        if DedicatedRepoHostEnabled env postgresCluster
        then CMRepoKey env else primaryInstance +:+ ".conf" in
      let dedicatedRepoReady := dedicatedRepoReady (Status_Conditions w) in
      let create (job : option Object) : M (option Error) :=
        if negb dedicatedRepoReady || negb replicaRepoReady then mret None
        else applyBackupJob postgresCluster job serviceAccount selector
               containerName configName configHash replicaCreateRepoName in
      match replicaCreateBackupJobs with
      | job :: _ =>
          let failed := jobFailed env job in
          let completed := jobCompleted env job in
          err ← (if (negb completed && negb failed)
                    && (negb dedicatedRepoReady || negb replicaRepoReady)
                 then Client_Delete job DeletePropagationBackground
                 else mret None);
          match err with
          | Some err => mret (Some err)
          | None =>
              if jobOutdated job replicaCreateRepoName configName configHash
              then Client_Delete job DeletePropagationBackground
              else if completed then
                _ ← modify (fun w =>
                      setRepos
                        (match ptr with
                         | Some i =>
                             alter (setReplicaCreateBackupComplete true) i
                               (Status_Repos w)
                         | None => Status_Repos w
                         end) w);
                mret None
              else create (Some job)
          end
      | [] => create None
      end
  | inr _ =>
      mret (Some ("invalid number of Pods found when attempting to create replica create "
                    +:+ "backup"))
  end
  end
  end.

(** reconcileReplicaCreateBackup (lines 878-1072). *)
Definition reconcileReplicaCreateBackup (postgresCluster : PostgresCluster)
    (replicaCreateBackupJobs : list Object) (serviceAccount : option Object)
    (configHash replicaCreateRepoName : string) : M (option Error) :=
  w ← get;
  let ptr := replicaCreateRepoStatusPtr (Status_Repos w) replicaCreateRepoName in
  defer (replicaCreateBackupDeferred postgresCluster ptr)
    (replicaCreateBackupBody postgresCluster replicaCreateBackupJobs
       serviceAccount configHash replicaCreateRepoName ptr).

(** *** The cycle *)

Definition requeueOn {A : Type} (err : option A) (new result : Result)
    : Result :=
  match err with
  | Some _ => updateReconcileResult env result new
  | None => result
  end.

(** The sub-steps of reconcilePGBackRest that follow
    getPGBackRestResources (lines 596-688).  After a failed
    reconcileDedicatedRepoHost [repoHost] is nil, and
    [repoHost.GetName()] reads through it. *)
Definition reconcileOwned (postgresCluster : PostgresCluster)
    (instanceNames : list string) (repoResources : RepoResources)
    : M (Result * option Error) :=
  let result := mkResult false 0 in
  let dedicatedEnabled :=
    match Spec_RepoHost postgresCluster with
    | Some repoHost => Dedicated repoHost
    | None => false
    end in
  '(result, repoHostName) ←
    (if dedicatedEnabled then
       '(repoHost, err) ←
         reconcileDedicatedRepoHost postgresCluster repoResources;
       let result := requeueOn err (mkResult true 0) result in
       match repoHost with
       | Some repoHost => mret (result, GetName repoHost)
       | None => panic
       end
     else
       w ← get;
       _ ← (if (0 <? length (Status_Conditions w))%nat
            then modify (setConditions
                   (RemoveStatusCondition (Status_Conditions w)
                      ConditionRepoHostReady))
            else mret tt);
       mret (result, ""));
  let '(configHashes, configHash, err) :=
    CalculateConfigHashes env postgresCluster in
  let result := requeueOn err (mkResult true 0) result in
  '(replicaCreateRepo, err) ← reconcileRepos postgresCluster configHashes;
  let result := requeueOn err (mkResult true 0) result in
  err ← reconcilePGBackRestConfig postgresCluster repoHostName configHash
          instanceNames (sshSecret repoResources);
  let result := requeueOn err (mkResult true 0) result in
  '(sa, err) ← reconcilePGBackRestRBAC postgresCluster;
  let result := requeueOn err (mkResult true 0) result in
  '(configHashMismatch, err) ←
    reconcileStanzaCreate postgresCluster configHash;
  let result := requeueOn err (mkResult false (10 * Second)) result in
  let result :=
    if configHashMismatch : bool
    then updateReconcileResult env result (mkResult false (10 * Second))
    else result in
  requeue ← reconcilePGBackRestCronJob postgresCluster;
  let result :=
    if requeue : bool
    then updateReconcileResult env result (mkResult false (10 * Second))
    else result in
  err ← reconcileReplicaCreateBackup postgresCluster
          (replicaCreateBackupJobs repoResources) sa configHash
          replicaCreateRepo;
  let result := requeueOn err (mkResult true 0) result in
  mret (result, None).

(** reconcilePGBackRest (lines 572-689). *)
Definition reconcilePGBackRest (postgresCluster : PostgresCluster)
    (instanceNames : list string) : M (Result * option Error) :=
  repoResources ← getPGBackRestResources postgresCluster;
  match repoResources with
  | inl err => mret (mkResult false 0, Some err)
  | inr repoResources =>
      reconcileOwned postgresCluster instanceNames repoResources
  end.

End Reconciler.

(** ** Notions the theorems are stated with *)

(** What the deferred function of reconcileStanzaCreate leaves in the
    ledger, given the ledger and the repository statuses it finds. *)
Definition ledgerAfterStanzaCreate (postgresCluster : PostgresCluster)
    (conditions : list Condition) (repos : list RepoStatus) : list Condition :=
  match Spec_Repos postgresCluster with
  | [] => conditions
  | repo :: _ =>
      SetStatusCondition conditions
        (replicaRepoReadyCondition postgresCluster
           (find (fun r => String.eqb (Name r) (repo_Name repo)) repos))
  end.

(** The world the deferred function of reconcileReplicaCreateBackup
    leaves. *)
Definition afterReplicaCreateBackup (postgresCluster : PostgresCluster)
    (ptr : option nat) (w : World) : World :=
  setConditions
    (SetStatusCondition (Status_Conditions w)
       (replicaCreateCondition postgresCluster (deref ptr w))) w.


(** Whether one of the deletes among the calls [new], made after the
    calls [history], was answered with an error. *)
Fixpoint failedDelete (env : Env) (history new : list Call) : bool :=
  match new with
  | [] => false
  | call :: rest =>
      match call with
      | Delete obj propagation =>
          bool_decide (is_Some (DeleteResult env history obj propagation))
      | _ => false
      end
      || failedDelete env (history ++ [call]) rest
  end.

(** Nothing but the trace differs. *)
Definition sameButCalls (w w' : World) : Prop :=
  Status_RepoHost w' = Status_RepoHost w
  /\ Status_Repos w' = Status_Repos w
  /\ Status_Conditions w' = Status_Conditions w
  /\ events w' = events w.

(** The calls [new] end with a delete, with background propagation,
    that answers [err], and no delete before it failed. *)
Definition endsWithFailedDelete (env : Env) (history new : list Call)
    (err : Error) : Prop :=
  exists pre obj,
    new = pre ++ [Delete obj DeletePropagationBackground]
    /\ failedDelete env history pre = false
    /\ DeleteResult env (history ++ pre) obj DeletePropagationBackground
       = Some err.


(** The returned list is in the order of the names, as [sort.Slice]
    leaves it. *)
Definition nameLe (a b : RepoStatus) : Prop :=
  String.leb (Name a) (Name b) = true.


(** An object the cluster controls and the [switch] of
    cleanupRepoResources keeps. *)
Definition ownedAndKept (env : Env) (c : PostgresCluster) (o : Object) : Prop :=
  IsControlledBy o c = true /\ (retained env c o).2 = false.

(** A call the ownership step may make: a list, or the delete, with
    background propagation, of an object the cluster controls and the
    [switch] of cleanupRepoResources does not keep. *)
Definition ownershipCall (env : Env) (c : PostgresCluster) (call : Call) : Prop :=
  match call with
  | List _ _ _ => True
  | Delete o propagation =>
      propagation = DeletePropagationBackground
      /\ IsControlledBy o c = true
      /\ (retained env c o).2 = true
  | _ => False
  end.

(** Every resource of a [RepoResources] is controlled by the cluster
    and kept, and every Job in it bears the replica-create label. *)
Definition ownedResources (env : Env) (c : PostgresCluster)
    (res : RepoResources) : Prop :=
  Forall (ownedAndKept env c)
    (cronjobs res ++ replicaCreateBackupJobs res ++ hosts res ++ pvcs res)
  /\ (forall o, sshConfig res = Some o ->
        ownedAndKept env c o /\ GetName o = PGBackRestSSHConfig env c)
  /\ (forall o, sshSecret res = Some o ->
        ownedAndKept env c o /\ GetName o = PGBackRestSSHSecret env c)
  /\ Forall (fun job => index (GetLabels job) (LabelPGBackRestBackup env)
                        = BackupReplicaCreate env)
       (replicaCreateBackupJobs res).

(** The scheduled backups a repository declares, as (repository name,
    backup type, schedule), in the order reconcilePGBackRestCronJob
    creates them (lines 1399-1418). *)
Definition scheduledBackups (repo : PGBackRestRepo)
    : list (string * string * string) :=
  match repo_BackupSchedules repo with
  | Some schedules =>
      let one (backupType : string) (schedule : option string) :=
        match schedule with
        | Some schedule => [(repo_Name repo, backupType, schedule)]
        | None => []
        end in
      one full (Full schedules) ++ one differential (Differential schedules)
      ++ one incremental (Incremental schedules)
  | None => []
  end.

Definition cronJobIntent (job : string * string * string) : Intent :=
  CronJobIntent job.1.1 job.1.2 job.2.

(** The intents among [intents] whose manifest can be built: the ones
    that reach the store. *)
Definition buildable (env : Env) (intents : list Intent) : list Intent :=
  filter (fun intent => intentError env intent = None) intents.

(** What the attempt to apply [intent] after the calls [history] gives:
    the error of its manifest or of its controller reference, without
    a call, or the answer of the store. *)
Definition applyAttempt (env : Env) (history : list Call) (intent : Intent)
    : Error + Object :=
  match intentError env intent with
  | Some err => inl err
  | None => ApplyResult env history intent
  end.

(** The attempts to apply [intents] one after the other, none of them
    held back by the outcome of those before it: each intent with what
    it gives after the applies that reached the store before it. *)
Fixpoint attempts (env : Env) (history : list Call) (intents : list Intent)
    : list (Intent * (Error + Object)) :=
  match intents with
  | [] => []
  | intent :: rest =>
      (intent, applyAttempt env history intent)
      :: attempts env (history ++ (Apply <$> buildable env [intent])) rest
  end.

(** The error of an attempt that failed, and the object of one that
    did not. *)
Definition failure (attempt : Intent * (Error + Object)) : option Error :=
  match attempt.2 with
  | inl err => Some err
  | inr _ => None
  end.

Definition answer (attempt : Intent * (Error + Object)) : option Object :=
  match attempt.2 with
  | inl _ => None
  | inr o => Some o
  end.

(** Applying [intents] in order up to the first attempt that fails: the
    intents that reached the store, and the error of that attempt. *)
Fixpoint applyInOrder (env : Env) (history : list Call) (intents : list Intent)
    : list Intent * option Error :=
  match intents with
  | [] => ([], None)
  | intent :: rest =>
      match applyAttempt env history intent with
      | inl err => (buildable env [intent], Some err)
      | inr _ =>
          let '(applied, err) :=
            applyInOrder env (history ++ [Apply intent]) rest in
          (intent :: applied, err)
      end
  end.

(** Whether a slice has an element. *)
Definition nonEmpty {A : Type} (l : list A) : bool :=
  match l with
  | [] => false
  | _ :: _ => true
  end.

(** The event recorded for a CronJob that could not be created with
    the error [err]. *)
Definition cronJobWarning (err : Error) : Event :=
  mkEvent EventTypeWarning EventUnableToCreatePGBackRestCronJob err.

(** The schedule a repository declares for a backup type. *)
Definition declaredSchedule (repo : PGBackRestRepo) (backupType : string)
    : option string :=
  match repo_BackupSchedules repo with
  | Some schedules =>
      if String.eqb backupType full then Full schedules
      else if String.eqb backupType differential then Differential schedules
      else if String.eqb backupType incremental then Incremental schedules
      else None
  | None => None
  end.

(** An object that bears the labels of the CronJob of a repository and
    a backup type, and none of the labels that the [switch] of
    cleanupRepoResources looks for before the CronJob label. *)
Definition labelledCronJob (env : Env) (repoName backupType : string)
    (o : Object) : Prop :=
  hasLabel o (LabelPGBackRestConfig env) = false
  /\ hasLabel o (LabelPGBackRestDedicated env) = false
  /\ hasLabel o (LabelPGBackRestRepoHost env) = false
  /\ hasLabel o (LabelPGBackRestRepoVolume env) = false
  /\ hasLabel o (LabelPGBackRestBackup env) = false
  /\ GetLabels o !! LabelPGBackRestRepo env = Some repoName
  /\ GetLabels o !! LabelPGBackRestCronJob env = Some backupType.

(** The volume intents of the repositories of the spec that declare a
    volume, in order. *)
Definition volumeIntents (repos : list PGBackRestRepo) : list Intent :=
  RepoVolumeIntent <$> (repo_Name <$> filter (fun repo => repo_Volume repo = true) repos).

(** [handlePersistentVolumeClaimError] never turns an error into nil. *)
Definition neverHandled (env : Env) : Prop :=
  forall err, is_Some (handlePersistentVolumeClaimError env err).2.

(** The error that applyRepoVolumeIntent returns for an attempt: the
    error of the manifest as it is, the error of the store as
    [handlePersistentVolumeClaimError] returns it. *)
Definition volumeFailure (env : Env) (attempt : Intent * (Error + Object))
    : option Error :=
  match attempt.2 with
  | inr _ => None
  | inl err =>
      match intentError env attempt.1 with
      | Some _ => Some err
      | None => (handlePersistentVolumeClaimError env err).2
      end
  end.

(** What [handlePersistentVolumeClaimError] writes for an attempt: the
    conditions it sets and the events it records, for an error of the
    store only. *)
Definition volumeHandling (env : Env) (attempt : Intent * (Error + Object))
    : list Condition * list Event :=
  match attempt.2 with
  | inr _ => ([], [])
  | inl err =>
      match intentError env attempt.1 with
      | Some _ => ([], [])
      | None => (handlePersistentVolumeClaimError env err).1
      end
  end.

(** The apply of the volume of [repo] reaches the store, fails, and
    [handlePersistentVolumeClaimError] turns the failure into nil. *)
Definition handledFailure (env : Env) (repo : PGBackRestRepo) : Prop :=
  repo_Volume repo = true
  /\ intentError env (RepoVolumeIntent (repo_Name repo)) = None
  /\ forall history,
       exists err,
         ApplyResult env history (RepoVolumeIntent (repo_Name repo)) = inl err
         /\ (handlePersistentVolumeClaimError env err).2 = None.

(** [host] is the first of [hosts] that none of them was created
    before: the hosts in front of it are younger, the ones behind it
    are not older. *)
Definition firstOldest (host : Object) (hosts : list Object) : Prop :=
  exists front behind,
    hosts = front ++ host :: behind
    /\ Forall (fun other =>
                (CreationTimestamp host < CreationTimestamp other)%Z) front
    /\ Forall (fun other =>
                (CreationTimestamp host <= CreationTimestamp other)%Z) behind.

(** No repository host can be applied: its manifest cannot be built, or
    the store refuses it. *)
Definition hostRefused (env : Env) : Prop :=
  forall history repoHostName,
    is_Some (intentError env (RepoHostIntent repoHostName))
    \/ exists err,
         ApplyResult env history (RepoHostIntent repoHostName) = inl err.

(** [repoResources] with [hs] for its hosts. *)
Definition withHosts (hs : list Object) (repoResources : RepoResources)
    : RepoResources :=
  mkRepoResources (cronjobs repoResources)
    (replicaCreateBackupJobs repoResources) hs (pvcs repoResources)
    (sshConfig repoResources) (sshSecret repoResources).

(** *** The repository index of a backup Job

    [regexRepoIndex] (line 94) is the expression [\d+]; [FindString]
    gives its leftmost match, which is the longest one there, and the
    empty string when there is none.  A digit is one of the bytes 0
    to 9. *)
Definition isDigit (a : ascii) : bool :=
  (48 <=? nat_of_ascii a)%nat && (nat_of_ascii a <=? 57)%nat.

Fixpoint leadingDigits (s : string) : string :=
  match s with
  | String a s' => if isDigit a then String a (leadingDigits s') else ""
  | EmptyString => ""
  end.

Fixpoint regexRepoIndex_FindString (s : string) : string :=
  match s with
  | String a s' =>
      if isDigit a then leadingDigits s else regexRepoIndex_FindString s'
  | EmptyString => ""
  end.

(** [cmdOpts] of generateBackupJobSpecIntent joined with a space, the
    value of COMMAND_OPTS (lines 530-534, 544).
    [pgbackrest.DefaultStanzaName] is a constant of a package that is
    not part of these sources. *)
Definition backupCommandOpts (DefaultStanzaName repoName : string) : string :=
  let repoIndex := regexRepoIndex_FindString repoName in
  ("--stanza=" +:+ DefaultStanzaName) +:+ " " +:+ ("--repo=" +:+ repoIndex).

Fixpoint allChars (p : ascii -> bool) (s : string) : bool :=
  match s with
  | String a s' => p a && allChars p s'
  | EmptyString => true
  end.

(** [rest] is empty or starts with a byte that is no digit. *)
Definition startsWithoutDigit (rest : string) : bool :=
  match rest with
  | String a _ => negb (isDigit a)
  | EmptyString => true
  end.

(** ** Concrete inputs *)

Module Examples.

Definition labelRepo : string := "postgres-operator.crunchydata.com/pgbackrest-repo".

Definition meta (kind name : string) (labels annotations : gmap string string)
    : Object :=
  mkObject kind name "ns" labels annotations (Some "uid-1") 0 "" "" None 0.

(** A bound claim of the volume of repository repo1. *)
Definition pvc1 : Object :=
  mkObject "PersistentVolumeClaim" "hippo-repo1" "ns"
    {[ labelRepo := "repo1" ]} ∅ (Some "uid-1") 0 "Bound" "pv-1" None 0.

Definition status1 : RepoStatus :=
  mkRepoStatus true "repo1" "pv-1" "h" true true.

(** An external repository whose options were hashed to "old". *)
Definition status2 : RepoStatus :=
  mkRepoStatus false "repo2" "" "old" true true.

Definition pod1 : Object :=
  mkObject "Pod" "hippo-instance1-abcd-0" "ns"
    {[ "postgres-operator.crunchydata.com/instance" := "hippo-instance1-abcd" ]}
    ∅ None 0 "" "" None 0.

(** A running replica-create backup Job recorded for repo2. *)
Definition job2 : Object :=
  meta "Job" "hippo-backup-x7k2"
    {[ labelRepo := "repo2";
       "postgres-operator.crunchydata.com/pgbackrest-backup" := "replica-create" ]}
    {[ "postgres-operator.crunchydata.com/pgbackrest-config"
         := "hippo-instance1-abcd.conf";
       "postgres-operator.crunchydata.com/pgbackrest-hash" := "hash" ]}.

Definition sa : Object := meta "ServiceAccount" "hippo-pgbackrest" ∅ ∅.

(** What the store answers to an apply: a claim comes back bound,
    with the label of its repository. *)
Definition applied (intent : Intent) : Object :=
  match intent with
  | RepoVolumeIntent repoName =>
      mkObject "PersistentVolumeClaim" ("hippo-" +:+ repoName) "ns"
        {[ labelRepo := repoName ]} ∅ (Some "uid-1") 0 "Bound"
        ("pv-" +:+ repoName) None 0
  | ServiceAccountIntent => sa
  | _ => meta "" "applied" ∅ ∅
  end.

(** The intents a trace applied, in order. *)
Definition intents (trace : list Call) : list Intent :=
  flat_map (fun call => match call with
                        | Apply intent => [intent]
                        | _ => []
                        end) trace.

(** The environment of the examples: whether the cluster is
    bootstrapped, the Pods a list of Pods finds, what stanza-create
    reports and what a delete answers are given; a list of another
    kind finds [owned]; every apply succeeds. *)
Definition envWith (owned : string -> list Object) (bootstrapped : bool)
    (pods : list Object) (stanza : bool * option Error)
    (deleted : option Error) : Env :=
  mkEnv labelRepo
    "postgres-operator.crunchydata.com/pgbackrest-backup"
    "postgres-operator.crunchydata.com/pgbackrest-config"
    "postgres-operator.crunchydata.com/pgbackrest-dedicated"
    "postgres-operator.crunchydata.com/pgbackrest-host"
    "postgres-operator.crunchydata.com/pgbackrest-volume"
    "postgres-operator.crunchydata.com/pgbackrest-cronjob"
    "postgres-operator.crunchydata.com/instance"
    "postgres-operator.crunchydata.com/pgbackrest-config"
    "postgres-operator.crunchydata.com/pgbackrest-hash"
    "replica-create" "pgbackrest" "database"
    (fun name => "pgbackrest of " +:+ name)
    (fun name => "pgbackrest-dedicated of " +:+ name)
    (fun name => {[ "postgres-operator.crunchydata.com/cluster" := name;
                    "postgres-operator.crunchydata.com/role" := "master" ]})
    (fun c => cluster_Name c +:+ "-ssh-config")
    (fun c => cluster_Name c +:+ "-ssh")
    "pgbackrest_repo.conf"
    (fun c => match Spec_RepoHost c with
              | Some h => Dedicated h
              | None => false
              end)
    (fun c => bool_decide (is_Some (Spec_RepoHost c)))
    (fun _ => (∅, "hash", None))
    (fun _ => bootstrapped)
    (fun _ => false)
    (fun _ => false)
    (fun curr new =>
       mkResult (Requeue curr || Requeue new)
         (if Z.eqb (RequeueAfter new) 0 then RequeueAfter curr
          else if Z.eqb (RequeueAfter curr) 0 then RequeueAfter new
          else Z.min (RequeueAfter curr) (RequeueAfter new)))
    (fun err => ([], [], Some err))
    (fun _ => inr "primary")
    (fun errs => String.concat ", " errs)
    (fun _ _ => None)
    (fun _ => None)
    (fun _ kind _ _ => inr (if String.eqb kind "PodList" then pods else owned kind))
    (fun _ _ _ => deleted)
    (fun _ intent => inr (applied intent))
    (fun _ _ _ _ _ => stanza).

(** A claim the cluster owns, left from a repository, repo9, that
    the spec no longer declares. *)
Definition pvc9 : Object :=
  mkObject "PersistentVolumeClaim" "hippo-repo9" "ns"
    {[ labelRepo := "repo9";
       "postgres-operator.crunchydata.com/pgbackrest-volume" := "" ]}
    ∅ (Some "uid-1") 0 "Bound" "pv-9" None 0.

Definition ownedClaims (kind : string) : list Object :=
  if String.eqb kind "PersistentVolumeClaimList" then [pvc9] else [].

Definition hippo : PostgresCluster :=
  mkCluster "hippo" "ns" "uid-1" 1 [mkRepo "repo1" true None] None.

Definition env : bool -> list Object -> bool * option Error -> option Error -> Env :=
  envWith (fun _ => []).

End Examples.

(** ** More concrete inputs *)

Module Fixtures.

(** The claim of the volume of repo1, as the cluster labels it. *)
Definition claim1 : Object :=
mkObject "PersistentVolumeClaim" "hippo-repo1" "ns"
  {[ Examples.labelRepo := "repo1";
     "postgres-operator.crunchydata.com/pgbackrest-volume" := "" ]}
  ∅ (Some "uid-1") 0 "Bound" "pv-1" None 0.

(** The owned resources a list finds: for claims, the one left from
  repo9 and the one of repo1. *)
Definition twoClaims (kind : string) : list Object :=
if String.eqb kind "PersistentVolumeClaimList"
then [Examples.pvc9; claim1] else [].

(** An environment whose store accepts everything. *)
Definition accepting : Env :=
Examples.envWith twoClaims true [Examples.pod1] (false, None) None.

Definition empty : World := mkWorld None [] [] [] [].

(** The cluster with a weekly full and a daily incremental backup of
  repo1. *)
Definition scheduled : PostgresCluster :=
mkCluster "hippo" "ns" "uid-1" 1
  [mkRepo "repo1" true
     (Some (mkSchedules (Some "0 1 * * 0") None (Some "0 1 * * 1-6")))]
  None.

(** The replica-create backup Job of repo1, with the annotations of
  the current configuration. *)
Definition job1 : Object :=
Examples.meta "Job" "hippo-backup-b4xq"
  {[ Examples.labelRepo := "repo1";
     "postgres-operator.crunchydata.com/pgbackrest-backup" := "replica-create" ]}
  {[ "postgres-operator.crunchydata.com/pgbackrest-config"
       := "hippo-instance1-abcd.conf";
     "postgres-operator.crunchydata.com/pgbackrest-hash" := "hash" ]}.

(** The CronJob of the incremental backups of repo1, as the cluster
  labels it. *)
Definition cronJob1 : Object :=
Examples.meta "CronJob" "hippo-pgbackrest-repo1-incr"
  {[ Examples.labelRepo := "repo1";
     "postgres-operator.crunchydata.com/pgbackrest-cronjob" := incremental ]}
  ∅.

(** The cluster with a dedicated repository host. *)
Definition dedicated : PostgresCluster :=
mkCluster "hippo" "ns" "uid-1" 1 [mkRepo "repo1" true None]
  (Some (mkRepoHost true)).

(** Three repository hosts; hostA and hostC were created at the same
  time, before hostB. *)
Definition hostA : Object :=
mkObject "StatefulSet" "hippo-repo-host" "ns" ∅ ∅ (Some "uid-1") 100 "" ""
  (Some 1%Z) 1.
Definition hostB : Object :=
mkObject "StatefulSet" "hippo-repo-host-2" "ns" ∅ ∅ (Some "uid-1") 200 "" ""
  (Some 1%Z) 0.
Definition hostC : Object :=
mkObject "StatefulSet" "hippo-repo-host-3" "ns" ∅ ∅ (Some "uid-1") 100 "" ""
  (Some 1%Z) 0.

(** [e] with other outcomes of [jobCompleted],
  [handlePersistentVolumeClaimError] and the applies. *)
Definition withOutcomes (completed : Object -> bool)
  (handle : Error -> list Condition * list Event * option Error)
  (applied : list Call -> Intent -> Error + Object) (e : Env) : Env :=
mkEnv (LabelPGBackRestRepo e) (LabelPGBackRestBackup e)
  (LabelPGBackRestConfig e) (LabelPGBackRestDedicated e)
  (LabelPGBackRestRepoHost e) (LabelPGBackRestRepoVolume e)
  (LabelPGBackRestCronJob e) (LabelInstance e) (PGBackRestCurrentConfig e)
  (PGBackRestConfigHash e) (BackupReplicaCreate e)
  (PGBackRestRepoContainerName e) (ContainerDatabase e)
  (PGBackRestSelector e) (PGBackRestDedicatedSelector e) (ClusterPrimary e)
  (PGBackRestSSHConfig e) (PGBackRestSSHSecret e) (CMRepoKey e)
  (DedicatedRepoHostEnabled e) (RepoHostEnabled e) (CalculateConfigHashes e)
  (ClusterBootstrapped e) (jobFailed e) completed
  (updateReconcileResult e) handle
  (LabelSelectorAsSelector e) (NewAggregate e) (FromUnstructured e)
  (intentError e) (ListResult e) (DeleteResult e) applied
  (StanzaCreateResult e).

(** The accepting environment, in which every Job has completed. *)
Definition completing : Env :=
withOutcomes (fun _ => true) (handlePersistentVolumeClaimError accepting)
  (ApplyResult accepting) accepting.

(** The store answers the repository host with one ready replica of
  one. *)
Definition hosting : Env :=
withOutcomes (jobCompleted accepting)
  (handlePersistentVolumeClaimError accepting)
  (fun history intent =>
     match intent with
     | RepoHostIntent _ => inr hostA
     | _ => ApplyResult accepting history intent
     end) accepting.

(** The store refuses every apply. *)
Definition refusing : Env :=
withOutcomes (jobCompleted accepting)
  (handlePersistentVolumeClaimError accepting)
  (fun _ _ => inl "forbidden: exceeded quota") accepting.

(** The store refuses every apply, and the handler of claim errors
  takes the refusal as handled. *)
Definition handling : Env :=
withOutcomes (jobCompleted accepting)
  (fun err => ([], [mkEvent EventTypeWarning "PersistentVolumeError" err], None))
  (fun _ _ => inl "forbidden: exceeded quota") accepting.

End Fixtures.

(** * Theorems *)

(** ** The repository status fold *)

Section RepoVolumeStatusFacts.

Variable L : string.

Lemma insertByName_perm x l : insertByName x l ≡ₚ x :: l.
Proof.
  induction l as [|y l IH]; simpl; [done|].
  destruct (_ || _); [|done].
  rewrite IH. apply Permutation_swap.
Qed.

Lemma sortByName_perm l : sortByName l ≡ₚ l.
Proof.
  unfold sortByName. change l with ([] ++ l) at 2.
  generalize (@nil RepoStatus).
  induction l as [|x l IH]; intros sorted; simpl; [by rewrite app_nil_r|].
  rewrite IH, insertByName_perm. apply Permutation_middle.
Qed.

Lemma getRepoVolumeStatusIn_perm repoStatus repoVolumes hashes name :
  getRepoVolumeStatusIn L repoStatus repoVolumes hashes name
  ≡ₚ map (volumeStatus L repoStatus name) repoVolumes
       ++ map (extStatus repoStatus name) hashes.
Proof. apply sortByName_perm. Qed.

Lemma find_name_eq (repoStatus : list RepoStatus) repoName rs :
  find (fun r => String.eqb (Name r) repoName) repoStatus = Some rs ->
  Name rs = repoName.
Proof. intros H. apply find_some in H as [_ H]. by apply String.eqb_eq. Qed.

Lemma carryVolumeStatus_name rv name rs :
  Name (carryVolumeStatus rv name rs) = Name rs.
Proof.
  unfold carryVolumeStatus.
  destruct (ReplicaCreateBackupComplete rs && _); simpl;
    destruct (negb _); done.
Qed.

Lemma carryExtStatus_name hash name rs :
  Name (carryExtStatus hash name rs) = Name rs.
Proof.
  unfold carryExtStatus.
  destruct (ReplicaCreateBackupComplete rs && _); simpl;
    destruct (negb _); done.
Qed.

Lemma volumeStatus_name repoStatus name rv :
  Name (volumeStatus L repoStatus name rv) = index (GetLabels rv) L.
Proof.
  unfold volumeStatus.
  destruct (find _ repoStatus) as [rs|] eqn:E; [|done].
  rewrite carryVolumeStatus_name. by apply find_name_eq in E.
Qed.

Lemma extStatus_name repoStatus name kv :
  Name (extStatus repoStatus name kv) = kv.1.
Proof.
  destruct kv as [k h]. unfold extStatus.
  destruct (find _ repoStatus) as [rs|] eqn:E; [|done].
  rewrite carryExtStatus_name. by apply find_name_eq in E.
Qed.

(** A carried status keeps [ReplicaCreateBackupComplete] only under
    the name of the replica-create repository. *)
Lemma carryVolumeStatus_complete rv name rs :
  ReplicaCreateBackupComplete (carryVolumeStatus rv name rs) = true ->
  Name rs = name.
Proof.
  unfold carryVolumeStatus.
  destruct (ReplicaCreateBackupComplete rs) eqn:C; simpl.
  - destruct (String.eqb (Name rs) name) eqn:E; simpl.
    + intros _. by apply String.eqb_eq.
    + destruct (negb _); simpl; discriminate.
  - destruct (negb _); simpl; congruence.
Qed.

Lemma carryExtStatus_complete hash name rs :
  ReplicaCreateBackupComplete (carryExtStatus hash name rs) = true ->
  Name rs = name.
Proof.
  unfold carryExtStatus.
  destruct (ReplicaCreateBackupComplete rs) eqn:C; simpl.
  - destruct (String.eqb (Name rs) name) eqn:E; simpl.
    + intros _. by apply String.eqb_eq.
    + destruct (negb _); simpl; discriminate.
  - destruct (negb _); simpl; congruence.
Qed.

Lemma carryExtStatus_changed hash name rs :
  RepoOptionsHash rs ≠ hash ->
  carryExtStatus hash name rs
  = mkRepoStatus (Bound rs) (Name rs) (VolumeName rs) hash false false.
Proof.
  intros Hne. unfold carryExtStatus.
  destruct (ReplicaCreateBackupComplete rs && _); simpl;
    (destruct (String.eqb (RepoOptionsHash rs) hash) eqn:E;
     [apply String.eqb_eq in E; done | done]).
Qed.

Lemma complete_name repoStatus repoVolumes hashes name e :
  e ∈ getRepoVolumeStatusIn L repoStatus repoVolumes hashes name ->
  ReplicaCreateBackupComplete e = true -> Name e = name.
Proof.
  rewrite getRepoVolumeStatusIn_perm, elem_of_app, !list_elem_of_fmap.
  intros [[rv [-> _]]|[[k h] [-> _]]] Hc.
  - rewrite volumeStatus_name. revert Hc. unfold volumeStatus.
    destruct (find _ repoStatus) as [rs|] eqn:E; [|done].
    intros Hc%carryVolumeStatus_complete.
    apply find_name_eq in E. congruence.
  - rewrite extStatus_name. revert Hc. unfold extStatus.
    destruct (find _ repoStatus) as [rs|] eqn:E; [|done].
    intros Hc%carryExtStatus_complete.
    apply find_name_eq in E. simpl. congruence.
Qed.

Lemma names_of_status repoStatus repoVolumes hashes name :
  map Name (map (volumeStatus L repoStatus name) repoVolumes
              ++ map (extStatus repoStatus name) hashes)
  = map (fun rv => index (GetLabels rv) L) repoVolumes ++ map fst hashes.
Proof.
  rewrite map_app, !map_map. f_equal; apply map_ext; intros.
  - apply volumeStatus_name.
  - apply extStatus_name.
Qed.

Lemma same_name_at_most_one (l : list RepoStatus) name :
  NoDup (map Name l) -> Forall (fun e => Name e = name) l -> length l <= 1.
Proof.
  destruct l as [|a [|b l]]; simpl; [lia|lia|].
  intros Hnd Hall. exfalso.
  apply NoDup_cons in Hnd as [Hnotin _].
  apply Forall_cons in Hall as [Ha Hall]. apply Forall_cons in Hall as [Hb _].
  apply Hnotin. rewrite Ha, <- Hb. left.
Qed.

End RepoVolumeStatusFacts.

Lemma compare_same (s : string) : String.compare s s = Eq.
Proof.
  pose proof (String.compare_antisym s s) as H.
  destruct (String.compare s s); simpl in H; congruence.
Qed.

Lemma insertByName_test (x y : RepoStatus) :
  String.ltb (Name y) (Name x) || String.eqb (Name y) (Name x)
  = String.leb (Name y) (Name x).
Proof.
  unfold String.ltb, String.leb.
  destruct (String.eqb (Name y) (Name x)) eqn:E.
  - apply String.eqb_eq in E. rewrite E, compare_same. done.
  - apply String.eqb_neq in E.
    destruct (String.compare (Name y) (Name x)) eqn:C; try done.
    apply String.compare_eq_iff in C. done.
Qed.

Lemma insertByName_sorted (x : RepoStatus) (l : list RepoStatus) :
  Sorted nameLe l -> Sorted nameLe (insertByName x l).
Proof.
  induction 1 as [|y l Hl IH Hhd]; simpl; [by repeat constructor|].
  rewrite insertByName_test.
  destruct (String.leb (Name y) (Name x)) eqn:E.
  - constructor; [exact IH|].
    destruct Hhd as [|z l Hyz]; simpl; [by constructor|].
    destruct (_ || _); by constructor.
  - constructor; [by constructor|]. constructor.
    destruct (String.leb_total (Name x) (Name y)); [done|congruence].
Qed.

Lemma sortByName_sorted (l : list RepoStatus) : Sorted nameLe (sortByName l).
Proof.
  unfold sortByName.
  assert (H : Sorted nameLe (@nil RepoStatus)) by constructor.
  revert H. generalize (@nil RepoStatus).
  induction l as [|x l IH]; intros sorted H; simpl; [done|].
  by apply IH, insertByName_sorted.
Qed.

Example getRepoVolumeStatus_example :
  getRepoVolumeStatus Examples.labelRepo
    [Examples.status1; Examples.status2] [Examples.pvc1]
    {[ "repo2" := "new"; "repo0" := "h0" ]} "repo2"
  = [mkRepoStatus false "repo0" "" "h0" false false;
     mkRepoStatus true "repo1" "pv-1" "h" true false;
     mkRepoStatus false "repo2" "" "new" false false].
Proof. vm_compute. reflexivity. Qed.


(** C1, as stated, fails: a repository that has both a reconciled
    volume and a configuration hash is carried over by both loops, and
    the loop over the volumes does not look at the hash.  With a new
    hash for repo1, the returned list still holds the prior status of
    repo1 with its old hash and both flags true. *)
Lemma C1_counterexample :
  ~ (forall e,
       e ∈ getRepoVolumeStatus Examples.labelRepo [Examples.status1]
             [Examples.pvc1] {[ "repo1" := "new" ]} "repo1" ->
       Name e = "repo1" ->
       RepoOptionsHash e = "new"
       /\ StanzaCreated e = false
       /\ ReplicaCreateBackupComplete e = false).
Proof.
  intros H. destruct (H Examples.status1) as (Hhash & _).
  - apply list_elem_of_In. vm_compute. auto.
  - reflexivity.
  - discriminate Hhash.
Qed.

(** C1, amended. A status carried over by the loop on the configuration
    hashes whose stored [RepoOptionsHash] differs from the new hash is
    returned with the new hash, [StanzaCreated = false] and
    [ReplicaCreateBackupComplete = false], its other fields kept, in
    whatever order the map is ranged over.  When no reconciled volume
    bears that repository name, it is the only status of that name in
    the returned list.  For every reconciled volume that bears the
    name, the list also holds the status carried over by the loop on
    the volumes, with the old hash and the old [StanzaCreated]. *)
Theorem C1_hash_change_resets_flags (L : string) (repoStatus : list RepoStatus)
    (repoVolumes : list Object) (configHashes : gmap string string)
    (hashes : list (string * string)) (replicaCreateRepoName repoName hash : string)
    (rs : RepoStatus) :
  hashes ≡ₚ map_to_list configHashes ->
  configHashes !! repoName = Some hash ->
  find (fun r => String.eqb (Name r) repoName) repoStatus = Some rs ->
  RepoOptionsHash rs ≠ hash ->
  let carried :=
    mkRepoStatus (Bound rs) repoName (VolumeName rs) hash false false in
  let returned :=
    getRepoVolumeStatusIn L repoStatus repoVolumes hashes replicaCreateRepoName in
  carried ∈ returned
  /\ (Forall (fun rv => index (GetLabels rv) L ≠ repoName) repoVolumes ->
      forall e, e ∈ returned -> Name e = repoName -> e = carried)
  /\ (forall rv,
        rv ∈ repoVolumes -> index (GetLabels rv) L = repoName ->
        let stale := carryVolumeStatus rv replicaCreateRepoName rs in
        stale ∈ returned
        /\ Name stale = repoName
        /\ RepoOptionsHash stale = RepoOptionsHash rs
        /\ StanzaCreated stale = StanzaCreated rs).
Proof.
  intros Hperm Hlook Hfind Hne carried returned.
  assert (Hext : extStatus repoStatus replicaCreateRepoName (repoName, hash)
                 = carried).
  { unfold extStatus. rewrite Hfind, carryExtStatus_changed by done.
    unfold carried. by rewrite (find_name_eq _ _ _ Hfind). }
  assert (Hin : (repoName, hash) ∈ hashes).
  { rewrite Hperm. by apply elem_of_map_to_list. }
  split; [|split].
  - unfold returned. rewrite getRepoVolumeStatusIn_perm, elem_of_app.
    right. rewrite <- Hext. apply list_elem_of_fmap. eauto.
  - intros Hvols e. unfold returned.
    rewrite getRepoVolumeStatusIn_perm, elem_of_app, !list_elem_of_fmap.
    intros [[rv [-> Hrv]]|[[k h] [-> Hkh]]] Hname.
    + rewrite volumeStatus_name in Hname.
      rewrite Forall_forall in Hvols. by apply Hvols in Hrv.
    + rewrite extStatus_name in Hname. simpl in Hname. subst k.
      rewrite Hperm in Hkh. apply elem_of_map_to_list in Hkh.
      assert (h = hash) by congruence. subst h. done.
  - intros rv Hrv Hlabel stale. split_and!.
    + unfold returned. rewrite getRepoVolumeStatusIn_perm, elem_of_app.
      left. apply list_elem_of_fmap. exists rv. split; [|done].
      unfold volumeStatus. by rewrite Hlabel, Hfind.
    + unfold stale. rewrite carryVolumeStatus_name.
      by apply find_name_eq in Hfind.
    + unfold stale, carryVolumeStatus.
      destruct (ReplicaCreateBackupComplete rs && _); simpl;
        destruct (negb _); done.
    + unfold stale, carryVolumeStatus.
      destruct (ReplicaCreateBackupComplete rs && _); simpl;
        destruct (negb _); done.
Qed.

Lemma C1_witness :
  let m : gmap string string := {[ "repo2" := "new" ]} in
  let carried := mkRepoStatus false "repo2" "" "new" false false in
  let returned :=
    getRepoVolumeStatusIn Examples.labelRepo [Examples.status1; Examples.status2]
      [Examples.pvc1] (map_to_list m) "repo2" in
  carried ∈ returned
  /\ (Forall (fun rv => index (GetLabels rv) Examples.labelRepo ≠ "repo2")
        [Examples.pvc1] ->
      forall e, e ∈ returned -> Name e = "repo2" -> e = carried)
  /\ (forall rv,
        rv ∈ [Examples.pvc1] ->
        index (GetLabels rv) Examples.labelRepo = "repo2" ->
        let stale := carryVolumeStatus rv "repo2" Examples.status2 in
        stale ∈ returned
        /\ Name stale = "repo2"
        /\ RepoOptionsHash stale = RepoOptionsHash Examples.status2
        /\ StanzaCreated stale = StanzaCreated Examples.status2).
Proof.
  intros m.
  apply (C1_hash_change_resets_flags Examples.labelRepo
           [Examples.status1; Examples.status2] [Examples.pvc1] m
           (map_to_list m) "repo2" "repo2" "new" Examples.status2).
  - reflexivity.
  - reflexivity.
  - reflexivity.
  - discriminate.
Defined.

(** C2, as stated, fails: a repository that has both a reconciled volume
    and a configuration hash is carried over by both loops, and both
    copies keep [ReplicaCreateBackupComplete = true]. *)
Lemma C2_counterexample :
  ~ (length (filter (fun e => ReplicaCreateBackupComplete e = true)
       (getRepoVolumeStatus Examples.labelRepo [Examples.status1]
          [Examples.pvc1] {[ "repo1" := "h" ]} "repo1")) <= 1).
Proof. vm_compute. lia. Qed.

(** C2, amended. For every input, in whatever order the map is ranged
    over: a returned status with [ReplicaCreateBackupComplete = true]
    bears the replica-create repository name, and a status carried over
    under another name has the flag cleared.  When the repository names
    on the reconciled volumes are pairwise distinct and none of them is
    a key of the hash map, at most one returned status has the flag. *)
Theorem C2_complete_only_for_replica_create_repo (L : string)
    (repoStatus : list RepoStatus) (repoVolumes : list Object)
    (configHashes : gmap string string) (hashes : list (string * string))
    (replicaCreateRepoName : string) :
  hashes ≡ₚ map_to_list configHashes ->
  let returned :=
    getRepoVolumeStatusIn L repoStatus repoVolumes hashes replicaCreateRepoName in
  (forall e, e ∈ returned -> ReplicaCreateBackupComplete e = true ->
             Name e = replicaCreateRepoName)
  /\ (forall rv rs, Name rs ≠ replicaCreateRepoName ->
        ReplicaCreateBackupComplete
          (carryVolumeStatus rv replicaCreateRepoName rs) = false)
  /\ (forall hash rs, Name rs ≠ replicaCreateRepoName ->
        ReplicaCreateBackupComplete
          (carryExtStatus hash replicaCreateRepoName rs) = false)
  /\ (NoDup (map (fun rv => index (GetLabels rv) L) repoVolumes) ->
      Forall (fun rv => configHashes !! index (GetLabels rv) L = None)
        repoVolumes ->
      length (filter (fun e => ReplicaCreateBackupComplete e = true) returned)
      <= 1).
Proof.
  intros Hperm returned. split; [|split; [|split]].
  - intros e. apply complete_name.
  - intros rv rs Hne.
    destruct (ReplicaCreateBackupComplete _) eqn:E; [|done].
    by apply carryVolumeStatus_complete in E.
  - intros hash rs Hne.
    destruct (ReplicaCreateBackupComplete _) eqn:E; [|done].
    by apply carryExtStatus_complete in E.
  - intros Hnd Hdisj.
    apply (same_name_at_most_one _ replicaCreateRepoName).
    + assert (Hall : NoDup (Name <$> returned)); [|
        apply (sublist_NoDup _ _ Hall), (fmap_sublist Name), sublist_filter].
      unfold returned.
      rewrite (fmap_Permutation Name _ _ (getRepoVolumeStatusIn_perm _ _ _ _ _)).
      change (NoDup (map Name
        (map (volumeStatus L repoStatus replicaCreateRepoName) repoVolumes
         ++ map (extStatus repoStatus replicaCreateRepoName) hashes))).
      rewrite names_of_status. apply NoDup_app. split_and!; [done| |].
      * intros x [rv [-> Hrv]]%list_elem_of_fmap [[k h] [Hk Hkh]]%list_elem_of_fmap.
        rewrite Forall_forall in Hdisj. apply Hdisj in Hrv.
        rewrite Hperm in Hkh. apply elem_of_map_to_list in Hkh.
        simpl in Hk. congruence.
      * change (NoDup (hashes.*1)). rewrite Hperm.
        apply NoDup_fst_map_to_list.
    + apply Forall_forall. intros e [Hc He]%list_elem_of_filter.
      by apply (complete_name L repoStatus repoVolumes hashes).
Qed.

Lemma C2_witness :
  let m : gmap string string := {[ "repo2" := "new" ]} in
  length (filter (fun e => ReplicaCreateBackupComplete e = true)
    (getRepoVolumeStatusIn Examples.labelRepo
       [Examples.status1; Examples.status2] [Examples.pvc1]
       (map_to_list m) "repo1")) <= 1.
Proof.
  intros m.
  apply (C2_complete_only_for_replica_create_repo Examples.labelRepo
           [Examples.status1; Examples.status2] [Examples.pvc1] m
           (map_to_list m) "repo1").
  - reflexivity.
  - repeat constructor; set_solver.
  - repeat constructor.
Defined.

(** ** The condition ledger *)

Lemma FindStatusCondition_Set (conditions : list Condition) (c : Condition) :
  FindStatusCondition (SetStatusCondition conditions c) (Type' c) = Some c.
Proof.
  unfold FindStatusCondition.
  induction conditions as [|c0 l IH]; simpl.
  - rewrite String.eqb_refl. done.
  - destruct (String.eqb (Type' c0) (Type' c)) eqn:E; simpl.
    + rewrite E. apply String.eqb_eq in E. rewrite E. by destruct c.
    + rewrite E. done.
Qed.

Lemma FindStatusCondition_Set_other (conditions : list Condition)
    (c : Condition) (t : string) :
  t ≠ Type' c ->
  FindStatusCondition (SetStatusCondition conditions c) t
  = FindStatusCondition conditions t.
Proof.
  intros Hne. unfold FindStatusCondition.
  induction conditions as [|c0 l IH]; simpl.
  - destruct (String.eqb (Type' c) t) eqn:E; [|done].
    apply String.eqb_eq in E. congruence.
  - destruct (String.eqb (Type' c0) (Type' c)) eqn:E; simpl.
    + apply String.eqb_eq in E.
      destruct (String.eqb (Type' c0) t) eqn:E'; [|done].
      apply String.eqb_eq in E'. congruence.
    + by rewrite IH.
Qed.

(** ** The stanza gate *)

Ltac run :=
  unfold reconcileStanzaCreate, stanzaCreateBody,
    reconcileReplicaCreateBackup, replicaCreateBackupBody,
    applyBackupJob, applyOrError,
    defer, Client_List, Client_Delete, apply, Executor_StanzaCreate,
    Event_, panic, get, modify, mbind, M_bind, mret, M_ret;
  simpl.

Lemma stanzaCreateDeferred_run (c : PostgresCluster) (w : World) :
  stanzaCreateDeferred c w
  = Some (tt, setConditions
                (ledgerAfterStanzaCreate c (Status_Conditions w) (Status_Repos w)) w).
Proof.
  unfold stanzaCreateDeferred, ledgerAfterStanzaCreate.
  destruct (Spec_Repos c); [by destruct w|]. done.
Qed.

Lemma reconcileStanzaCreate_noop env c h w :
  ClusterBootstrapped env c = false
  \/ dedicatedRepoReady (Status_Conditions w) = false
  \/ forallb StanzaCreated (Status_Repos w) = true ->
  reconcileStanzaCreate env c h w
  = Some ((false, None),
          setConditions
            (ledgerAfterStanzaCreate c (Status_Conditions w) (Status_Repos w)) w).
Proof.
  intros H. unfold reconcileStanzaCreate, defer, stanzaCreateBody.
  unfold mbind at 1, M_bind. unfold mbind at 1, M_bind. unfold get at 1.
  assert (negb (ClusterBootstrapped env c)
          || negb (dedicatedRepoReady (Status_Conditions w))
          || forallb StanzaCreated (Status_Repos w) = true) as ->.
  { destruct H as [->| [->| ->]]; simpl; [done| |];
      repeat (destruct (negb _); simpl; try done). }
  unfold mret at 1, M_ret. unfold mbind, M_bind.
  rewrite stanzaCreateDeferred_run. done.
Qed.

Lemma stanzaCreateBody_total env c h w :
  exists r w1, stanzaCreateBody env c h w = Some (r, w1)
               /\ Status_Conditions w1 = Status_Conditions w
               /\ Status_RepoHost w1 = Status_RepoHost w.
Proof.
  run.
  destruct (negb _ || negb _ || _); [by eexists _, _|].
  destruct (getPGBackRestExecSelector env c) as [err|[selector containerName]];
    [by eexists _, _|].
  destruct (ListResult env _ _ _ _) as [err|[|pod [|pod' pods]]];
    try (by eexists _, _).
  simpl.
  destruct (StanzaCreateResult env _ _ _ _ _) as [[|] [err|]];
    by eexists _, _.
Qed.

(** C4, as stated, fails when the spec declares no repository: the
    deferred function returns before it builds the condition, and the
    ledger has no ReplicaRepoReady entry after the call. *)
Lemma C4_counterexample :
  let cluster := mkCluster "hippo" "ns" "uid-1" 1 [] None in
  let w := mkWorld None [] [] [] [] in
  (fun rw => FindStatusCondition (Status_Conditions rw.2) ConditionReplicaRepoReady)
    <$> reconcileStanzaCreate (Examples.env true [] (false, None) None) cluster "hash" w
  = Some None.
Proof. vm_compute. reflexivity. Qed.

(** C4, amended. When the spec declares at least one repository,
    every call of reconcileStanzaCreate returns, whatever path it takes,
    and the ledger it leaves is the ledger it was given with one upsert:
    the ReplicaRepoReady condition built from the status that the
    repository at index 0 of the spec has after the call (True or False
    as its [StanzaCreated] says, Unknown when it has no status). *)
Theorem C4_replica_repo_ready_upserted_once (env : Env) (c : PostgresCluster)
    (configHash : string) (w : World) (repo : PGBackRestRepo)
    (rest : list PGBackRestRepo) :
  Spec_Repos c = repo :: rest ->
  exists r w',
    reconcileStanzaCreate env c configHash w = Some (r, w')
    /\ Status_Conditions w'
       = SetStatusCondition (Status_Conditions w)
           (replicaRepoReadyCondition c
              (find (fun r => String.eqb (Name r) (repo_Name repo))
                 (Status_Repos w'))).
Proof.
  intros Hspec.
  destruct (stanzaCreateBody_total env c configHash w) as (r & w1 & Hbody & Hc & _).
  unfold reconcileStanzaCreate, defer, mbind, M_bind.
  rewrite Hbody, stanzaCreateDeferred_run.
  eexists _, _. split; [reflexivity|].
  unfold ledgerAfterStanzaCreate. rewrite Hspec, Hc. done.
Qed.

Lemma C4_witness :
  let cluster :=
    mkCluster "hippo" "ns" "uid-1" 1 [mkRepo "repo1" true None] None in
  let w := mkWorld None [Examples.status1] [] [] [] in
  exists r w',
    reconcileStanzaCreate (Examples.env true [] (false, None) None)
      cluster "hash" w = Some (r, w')
    /\ Status_Conditions w'
       = SetStatusCondition []
           (replicaRepoReadyCondition cluster
              (find (fun r => String.eqb (Name r) "repo1") (Status_Repos w'))).
Proof.
  intros cluster w.
  apply (C4_replica_repo_ready_upserted_once _ cluster "hash" w
           (mkRepo "repo1" true None) []).
  reflexivity.
Defined.

(** C5, as stated, fails: on the no-op return the deferred function
    still runs, and this call on a cluster that is not bootstrapped
    turns an empty ledger into one that holds ReplicaRepoReady. *)
Lemma C5_counterexample :
  let cluster :=
    mkCluster "hippo" "ns" "uid-1" 1 [mkRepo "repo1" true None] None in
  let w := mkWorld None [mkRepoStatus true "repo1" "pv-1" "" false false] [] [] [] in
  (fun rw => (rw.1, Status_Conditions rw.2))
    <$> reconcileStanzaCreate (Examples.env false [] (false, None) None)
          cluster "hash" w
  = Some ((false, None),
          [mkCondition ConditionReplicaRepoReady ConditionFalse 1
             "StanzaNotCreated"
             "pgBackRest replica create repo is not ready for backups"])
  /\ Status_Conditions w = []
  /\ ClusterBootstrapped (Examples.env false [] (false, None) None) cluster
     = false.
Proof. split_and!; vm_compute; reflexivity. Qed.

(** C5, amended. When the cluster is not bootstrapped, or a
    RepoHostReady condition is present and not True, or every repository
    status has [StanzaCreated = true], reconcileStanzaCreate returns
    (false, nil) with no call made (no list of Pods, no command), no
    event recorded and no repository status or repository host status
    changed; the one thing it writes is the ReplicaRepoReady condition
    that its deferred function upserts when the spec declares a
    repository. *)
Theorem C5_stanza_create_noop (env : Env) (c : PostgresCluster)
    (configHash : string) (w : World) :
  ClusterBootstrapped env c = false
  \/ dedicatedRepoReady (Status_Conditions w) = false
  \/ forallb StanzaCreated (Status_Repos w) = true ->
  exists w',
    reconcileStanzaCreate env c configHash w = Some ((false, None), w')
    /\ calls w' = calls w
    /\ events w' = events w
    /\ Status_Repos w' = Status_Repos w
    /\ Status_RepoHost w' = Status_RepoHost w
    /\ Status_Conditions w'
       = ledgerAfterStanzaCreate c (Status_Conditions w) (Status_Repos w).
Proof.
  intros H. rewrite (reconcileStanzaCreate_noop env c configHash w H).
  eexists. split; [reflexivity|]. done.
Qed.

Lemma C5_witness :
  let cluster :=
    mkCluster "hippo" "ns" "uid-1" 1 [mkRepo "repo1" true None] None in
  let w := mkWorld None [mkRepoStatus true "repo1" "pv-1" "" false false] [] [] [] in
  exists w',
    reconcileStanzaCreate (Examples.env false [] (false, None) None)
      cluster "hash" w = Some ((false, None), w')
    /\ calls w' = []
    /\ events w' = []
    /\ Status_Repos w' = Status_Repos w
    /\ Status_RepoHost w' = None
    /\ Status_Conditions w'
       = ledgerAfterStanzaCreate cluster [] (Status_Repos w).
Proof.
  intros cluster w.
  apply (C5_stanza_create_noop _ cluster "hash" w).
  left. reflexivity.
Defined.

(** The paths of reconcileStanzaCreate past the gates. *)
Section StanzaCreatePaths.

Variables (env : Env) (c : PostgresCluster) (configHash : string) (w : World).
Variables (selector containerName : string).

Hypothesis Hboot : ClusterBootstrapped env c = true.
Hypothesis Hhost : dedicatedRepoReady (Status_Conditions w) = true.
Hypothesis Hsome : forallb StanzaCreated (Status_Repos w) = false.
Hypothesis Hsel : getPGBackRestExecSelector env c = inr (selector, containerName).

Let listPods := List "PodList" (cluster_Namespace c) selector.

Lemma stanzaCreate_pod_count (pods : list Object) :
  ListResult env (calls w) "PodList" (cluster_Namespace c) selector = inr pods ->
  length pods ≠ 1 ->
  reconcileStanzaCreate env c configHash w
  = Some ((false,
           Some "invalid number of Pods found when attempting to create stanzas"),
          setConditions
            (ledgerAfterStanzaCreate c (Status_Conditions w) (Status_Repos w))
            (addCall listPods w)).
Proof.
  intros Hlist Hlen. run.
  rewrite Hboot, Hhost, Hsome, Hsel. simpl. rewrite Hlist.
  destruct pods as [|pod [|pod' pods]]; simpl in *; [|lia|];
    rewrite stanzaCreateDeferred_run; done.
Qed.

Lemma stanzaCreate_executed (pod : Object) (r : bool * option Error) :
  ListResult env (calls w) "PodList" (cluster_Namespace c) selector = inr [pod] ->
  StanzaCreateResult env (calls w ++ [listPods]) (cluster_Namespace c)
    (GetName pod) containerName configHash = r ->
  let w1 :=
    addCall (StanzaCreate (cluster_Namespace c) (GetName pod) containerName
               configHash) (addCall listPods w) in
  let finish (w2 : World) :=
    setConditions
      (ledgerAfterStanzaCreate c (Status_Conditions w2) (Status_Repos w2)) w2 in
  reconcileStanzaCreate env c configHash w
  = match r with
    | (_, Some err) =>
        Some ((false, Some err),
              finish (addEvent
                (mkEvent EventTypeWarning EventUnableToCreateStanzas err) w1))
    | (true, None) => Some ((true, None), finish w1)
    | (false, None) =>
        Some ((false, None),
              finish (setRepos (map (setStanzaCreated true) (Status_Repos w))
                (addEvent
                   (mkEvent EventTypeNormal EventStanzasCreated
                      "pgBackRest stanza creation completed successfully")
                   w1)))
    end.
Proof.
  intros Hlist Hr. run.
  rewrite Hboot, Hhost, Hsome, Hsel. simpl. rewrite Hlist. simpl.
  fold listPods. rewrite Hr.
  destruct r as [[|] [err|]]; simpl; rewrite stanzaCreateDeferred_run; done.
Qed.

End StanzaCreatePaths.

(** C6. When reconcileStanzaCreate executes the stanza-create command,
    that is, the cluster is bootstrapped, no RepoHostReady condition
    says otherwise, some repository status has [StanzaCreated = false],
    the selector is computed and the list finds exactly one Pod, and the
    command reports a configuration hash mismatch, the call returns
    (true, nil), leaves every repository status as it was and records
    no event. *)
Theorem C6_hash_mismatch_returns_true (env : Env) (c : PostgresCluster)
    (configHash : string) (w : World) (selector containerName : string)
    (pod : Object) :
  ClusterBootstrapped env c = true ->
  dedicatedRepoReady (Status_Conditions w) = true ->
  forallb StanzaCreated (Status_Repos w) = false ->
  getPGBackRestExecSelector env c = inr (selector, containerName) ->
  ListResult env (calls w) "PodList" (cluster_Namespace c) selector = inr [pod] ->
  StanzaCreateResult env
    (calls w ++ [List "PodList" (cluster_Namespace c) selector])
    (cluster_Namespace c) (GetName pod) containerName configHash = (true, None) ->
  exists w',
    reconcileStanzaCreate env c configHash w = Some ((true, None), w')
    /\ Status_Repos w' = Status_Repos w
    /\ events w' = events w
    /\ calls w'
       = calls w ++ [List "PodList" (cluster_Namespace c) selector;
                     StanzaCreate (cluster_Namespace c) (GetName pod)
                       containerName configHash].
Proof.
  intros Hboot Hhost Hsome Hsel Hlist Hr.
  rewrite (stanzaCreate_executed env c configHash w selector containerName
             Hboot Hhost Hsome Hsel pod _ Hlist Hr).
  eexists. split; [reflexivity|]. simpl. by rewrite <- app_assoc.
Qed.

Lemma C6_witness :
  let cluster :=
    mkCluster "hippo" "ns" "uid-1" 1 [mkRepo "repo1" true None] None in
  let w := mkWorld None [mkRepoStatus true "repo1" "pv-1" "" false false] [] [] [] in
  exists w',
    reconcileStanzaCreate (Examples.env true [Examples.pod1] (true, None) None)
      cluster "hash" w = Some ((true, None), w')
    /\ Status_Repos w' = Status_Repos w
    /\ events w' = []
    /\ calls w'
       = [List "PodList" "ns" "primary";
          StanzaCreate "ns" "hippo-instance1-abcd-0" "database" "hash"].
Proof.
  intros cluster w.
  apply (C6_hash_mismatch_returns_true
           (Examples.env true [Examples.pod1] (true, None) None)
           cluster "hash" w "primary" "database" Examples.pod1);
    reflexivity.
Defined.

Lemma find_setStanzaCreated (name : string) (repos : list RepoStatus) :
  find (fun r => String.eqb (Name r) name) (map (setStanzaCreated true) repos)
  = setStanzaCreated true
      <$> find (fun r => String.eqb (Name r) name) repos.
Proof.
  induction repos as [|r l IH]; simpl; [done|].
  destruct (String.eqb (Name r) name); done.
Qed.

(** C7, as stated, fails: the claim's conditions hold, the command
    succeeds and every status is marked, but the spec's first
    repository, repo1, has no status (its volume was not applied in
    this cycle), so ReplicaRepoReady becomes Unknown, not True. *)
Lemma C7_counterexample :
  let env := Examples.env true [Examples.pod1] (false, None) None in
  let cluster :=
    mkCluster "hippo" "ns" "uid-1" 1
      [mkRepo "repo1" true None; mkRepo "repo2" true None] None in
  let w := mkWorld None [mkRepoStatus true "repo2" "pv-2" "" false false] [] [] [] in
  ClusterBootstrapped env cluster = true
  /\ dedicatedRepoReady (Status_Conditions w) = true
  /\ forallb StanzaCreated (Status_Repos w) = false
  /\ ListResult env [] "PodList" "ns" "primary" = inr [Examples.pod1]
  /\ (fun rw =>
        (rw.1, Status_Repos rw.2,
         Status <$> FindStatusCondition (Status_Conditions rw.2)
                      ConditionReplicaRepoReady))
       <$> reconcileStanzaCreate env cluster "hash" w
     = Some ((false, None), [mkRepoStatus true "repo2" "pv-2" "" true false],
             Some ConditionUnknown).
Proof. split_and!; vm_compute; reflexivity. Qed.

(** C7, amended. When the cluster is bootstrapped, no RepoHostReady
    condition says otherwise, some repository status has
    [StanzaCreated = false], exactly one Pod matches the selector, the
    stanza-create command succeeds without a hash mismatch, and the
    repository at index 0 of the spec has a status: every status gets
    [StanzaCreated = true], one Normal StanzasCreated event is recorded,
    the call returns (false, nil) and ReplicaRepoReady becomes True. *)
Theorem C7_stanzas_created (env : Env) (c : PostgresCluster)
    (configHash : string) (w : World) (selector containerName : string)
    (pod : Object) (repo : PGBackRestRepo) (rest : list PGBackRestRepo)
    (rs : RepoStatus) :
  ClusterBootstrapped env c = true ->
  dedicatedRepoReady (Status_Conditions w) = true ->
  forallb StanzaCreated (Status_Repos w) = false ->
  getPGBackRestExecSelector env c = inr (selector, containerName) ->
  ListResult env (calls w) "PodList" (cluster_Namespace c) selector = inr [pod] ->
  StanzaCreateResult env
    (calls w ++ [List "PodList" (cluster_Namespace c) selector])
    (cluster_Namespace c) (GetName pod) containerName configHash = (false, None) ->
  Spec_Repos c = repo :: rest ->
  find (fun r => String.eqb (Name r) (repo_Name repo)) (Status_Repos w) = Some rs ->
  exists w',
    reconcileStanzaCreate env c configHash w = Some ((false, None), w')
    /\ Status_Repos w' = map (setStanzaCreated true) (Status_Repos w)
    /\ Forall (fun r => StanzaCreated r = true) (Status_Repos w')
    /\ events w'
       = events w ++ [mkEvent EventTypeNormal EventStanzasCreated
                        "pgBackRest stanza creation completed successfully"]
    /\ FindStatusCondition (Status_Conditions w') ConditionReplicaRepoReady
       = Some (mkCondition ConditionReplicaRepoReady ConditionTrue
                 (cluster_Generation c) "StanzaCreated"
                 "pgBackRest replica create repo is ready for backups").
Proof.
  intros Hboot Hhost Hsome Hsel Hlist Hr Hspec Hfind.
  rewrite (stanzaCreate_executed env c configHash w selector containerName
             Hboot Hhost Hsome Hsel pod _ Hlist Hr).
  eexists. split; [reflexivity|]. simpl. split_and!; [done| |done|].
  - apply Forall_forall. intros r [r0 [-> _]]%list_elem_of_fmap. done.
  - unfold ledgerAfterStanzaCreate. rewrite Hspec.
    rewrite find_setStanzaCreated, Hfind. simpl.
    apply (FindStatusCondition_Set (Status_Conditions w)
             (mkCondition ConditionReplicaRepoReady ConditionTrue
                (cluster_Generation c) "StanzaCreated"
                "pgBackRest replica create repo is ready for backups")).
Qed.

Lemma C7_witness :
  let env := Examples.env true [Examples.pod1] (false, None) None in
  let cluster :=
    mkCluster "hippo" "ns" "uid-1" 1
      [mkRepo "repo1" true None; mkRepo "repo2" true None] None in
  let w :=
    mkWorld None
      [mkRepoStatus true "repo1" "pv-1" "" false false;
       mkRepoStatus true "repo2" "pv-2" "" true false] [] [] [] in
  exists w',
    reconcileStanzaCreate env cluster "hash" w = Some ((false, None), w')
    /\ Status_Repos w' = map (setStanzaCreated true) (Status_Repos w)
    /\ Forall (fun r => StanzaCreated r = true) (Status_Repos w')
    /\ events w'
       = [mkEvent EventTypeNormal EventStanzasCreated
            "pgBackRest stanza creation completed successfully"]
    /\ FindStatusCondition (Status_Conditions w') ConditionReplicaRepoReady
       = Some (mkCondition ConditionReplicaRepoReady ConditionTrue 1
                 "StanzaCreated"
                 "pgBackRest replica create repo is ready for backups").
Proof.
  intros env cluster w.
  apply (C7_stanzas_created env cluster "hash" w "primary" "database"
           Examples.pod1 (mkRepo "repo1" true None) [mkRepo "repo2" true None]
           (mkRepoStatus true "repo1" "pv-1" "" false false));
    reflexivity.
Defined.

(** The conditions of C6 and C7 are the only ones under which the
    command is executed: when one of them fails, the call makes no
    StanzaCreate call. *)
Lemma stanzaCreate_not_executed (env : Env) (c : PostgresCluster)
    (configHash : string) (w : World) :
  (ClusterBootstrapped env c = false
   \/ dedicatedRepoReady (Status_Conditions w) = false
   \/ forallb StanzaCreated (Status_Repos w) = true
   \/ (exists err, getPGBackRestExecSelector env c = inl err)
   \/ (exists selector containerName,
         getPGBackRestExecSelector env c = inr (selector, containerName)
         /\ forall pod,
              ListResult env (calls w) "PodList" (cluster_Namespace c) selector
              ≠ inr [pod])) ->
  exists r w',
    reconcileStanzaCreate env c configHash w = Some (r, w')
    /\ (calls w' = calls w
        \/ exists selector,
             calls w' = calls w ++ [List "PodList" (cluster_Namespace c) selector]).
Proof.
  intros H.
  destruct (ClusterBootstrapped env c) eqn:Hboot;
    [|rewrite reconcileStanzaCreate_noop by auto; eexists _, _; split; [done|by left]].
  destruct (dedicatedRepoReady (Status_Conditions w)) eqn:Hhost;
    [|rewrite reconcileStanzaCreate_noop by auto; eexists _, _; split; [done|by left]].
  destruct (forallb StanzaCreated (Status_Repos w)) eqn:Hsome;
    [rewrite reconcileStanzaCreate_noop by auto; eexists _, _; split; [done|by left]|].
  destruct H as [?|[?|[?|[[err Hsel]|(selector & containerName & Hsel & Hlist)]]]];
    try done.
  - run. rewrite Hboot, Hhost, Hsome, Hsel. simpl.
    rewrite stanzaCreateDeferred_run. eexists _, _. split; [done|by left].
  - run. rewrite Hboot, Hhost, Hsome, Hsel. simpl.
    destruct (ListResult env _ _ _ _) as [err|[|pod [|pod' pods]]] eqn:E; simpl;
      try (rewrite stanzaCreateDeferred_run; eexists _, _;
           split; [done|right; by eexists]).
    by destruct (Hlist pod).
Qed.

(** ** The replica-create backup *)

Lemma replicaCreateBackupDeferred_run (c : PostgresCluster) (ptr : option nat)
    (w : World) :
  replicaCreateBackupDeferred c ptr w = Some (tt, afterReplicaCreateBackup c ptr w).
Proof. done. Qed.

Lemma replicaCreateRepoStatusPtr_Some (repos : list RepoStatus) (name : string)
    (i : nat) (rs : RepoStatus) :
  list_find (fun r => Name r = name) repos = Some (i, rs) ->
  replicaCreateRepoStatusPtr repos name = Some i /\ repos !! i = Some rs.
Proof.
  intros H. unfold replicaCreateRepoStatusPtr. rewrite H. split; [done|].
  by apply list_find_Some in H as [? _].
Qed.

(** The paths of reconcileReplicaCreateBackup past its first two
    returns. *)
Section ReplicaCreateBackupPaths.

Variables (env : Env) (c : PostgresCluster).
Variables (jobs : list Object) (serviceAccount : option Object).
Variables (configHash name : string) (w : World).
Variables (selector containerName : string) (i : nat) (rs : RepoStatus).

Hypothesis Hboot : ClusterBootstrapped env c = true.
Hypothesis Hptr :
  list_find (fun r => Name r = name) (Status_Repos w) = Some (i, rs).
Hypothesis Hincomplete : ReplicaCreateBackupComplete rs = false.
Hypothesis Hsel : getPGBackRestExecSelector env c = inr (selector, containerName).

Let listPods := List "PodList" (cluster_Namespace c) selector.
Let finish := afterReplicaCreateBackup c (Some i).

Lemma replicaCreateBackup_pod_count (pods : list Object) :
  ListResult env (calls w) "PodList" (cluster_Namespace c) selector = inr pods ->
  length pods ≠ 1 ->
  reconcileReplicaCreateBackup env c jobs serviceAccount configHash name w
  = Some (Some "invalid number of Pods found when attempting to create replica create backup",
          finish (addCall listPods w)).
Proof.
  intros Hlist Hlen.
  destruct (replicaCreateRepoStatusPtr_Some _ _ _ _ Hptr) as [Hp Hi].
  run. rewrite Hp, Hboot. simpl. rewrite Hi, Hincomplete, Hsel. simpl.
  rewrite Hlist.
  destruct pods as [|pod [|pod' pods]]; simpl in *; [|lia|]; done.
Qed.

Variable pod : Object.
Hypothesis Hlist :
  ListResult env (calls w) "PodList" (cluster_Namespace c) selector = inr [pod].

Let configName :=
  if DedicatedRepoHostEnabled env c then CMRepoKey env
  else index (GetLabels pod) (LabelInstance env) +:+ ".conf".
Let ready :=
  dedicatedRepoReady (Status_Conditions w) && replicaRepoReady (Status_Conditions w).
Let background (job : Object) := Delete job DeletePropagationBackground.

Lemma replicaCreateBackup_outdated_job (job : Object) (rest : list Object) :
  jobs = job :: rest ->
  jobOutdated env job name configName configHash = true ->
  let w1 := addCall listPods w in
  let w2 := addCall (background job) w1 in
  reconcileReplicaCreateBackup env c jobs serviceAccount configHash name w
  = if negb (jobCompleted env job) && negb (jobFailed env job) && negb ready
    then match DeleteResult env (calls w1) job DeletePropagationBackground with
         | Some err => Some (Some err, finish w2)
         | None =>
             Some (DeleteResult env (calls w2) job DeletePropagationBackground,
                   finish (addCall (background job) w2))
         end
    else Some (DeleteResult env (calls w1) job DeletePropagationBackground,
               finish w2).
Proof.
  intros -> Hout w1 w2.
  destruct (replicaCreateRepoStatusPtr_Some _ _ _ _ Hptr) as [Hp Hi].
  run. rewrite Hp, Hboot. simpl. rewrite Hi, Hincomplete, Hsel. simpl.
  rewrite Hlist. simpl. fold configName.
  unfold ready.
  destruct (negb (jobCompleted env job) && negb (jobFailed env job)) eqn:Erun;
    simpl.
  - destruct (dedicatedRepoReady (Status_Conditions w)); simpl.
    + destruct (replicaRepoReady (Status_Conditions w)); simpl.
      * rewrite Hout. done.
      * fold listPods.
        destruct (DeleteResult env (calls w ++ [listPods]) job _); [done|].
        simpl. rewrite Hout. done.
    + fold listPods.
      destruct (DeleteResult env (calls w ++ [listPods]) job _); [done|].
      simpl. rewrite Hout. done.
  - rewrite Hout. done.
Qed.

Lemma replicaCreateBackup_create (sa : Object) :
  jobs = [] ->
  ready = true ->
  serviceAccount = Some sa ->
  Spec_Repos c ≠ [] ->
  let intent :=
    BackupJobIntent None selector containerName name (GetName sa) configName
      configHash in
  intentError env intent = None ->
  exists err,
    reconcileReplicaCreateBackup env c jobs serviceAccount configHash name w
    = Some (err, finish (addCall (Apply intent) (addCall listPods w))).
Proof.
  intros -> Hready -> Hspec intent Hintent.
  destruct (replicaCreateRepoStatusPtr_Some _ _ _ _ Hptr) as [Hp Hi].
  run. rewrite Hp, Hboot. simpl. rewrite Hi, Hincomplete, Hsel. simpl.
  rewrite Hlist. simpl. fold configName.
  unfold ready in Hready.
  apply andb_true_iff in Hready as [-> ->]. simpl.
  destruct (Spec_Repos c); [done|].
  fold intent. rewrite Hintent. simpl.
  destruct (ApplyResult env _ intent); by eexists.
Qed.

End ReplicaCreateBackupPaths.

(** C8, as stated, fails: on a cluster that is not bootstrapped both
    functions return before they list any Pod, so with no Pod matching
    the selector both return a nil error. *)
Lemma C8_counterexample :
  let env := Examples.env false [] (false, None) None in
  let cluster :=
    mkCluster "hippo" "ns" "uid-1" 1 [mkRepo "repo1" true None] None in
  let w := mkWorld None [mkRepoStatus true "repo1" "pv-1" "" false false] [] [] [] in
  ListResult env [] "PodList" "ns" "primary" = inr []
  /\ fst <$> reconcileStanzaCreate env cluster "hash" w = Some (false, None)
  /\ fst <$> reconcileReplicaCreateBackup env cluster [] None "hash" "repo1" w
     = Some None.
Proof. split_and!; vm_compute; reflexivity. Qed.

(** C8, amended. On a bootstrapped cluster whose selector is computed:
    when reconcileStanzaCreate is past its gate (no RepoHostReady
    condition says otherwise, some status has [StanzaCreated = false]),
    and when reconcileReplicaCreateBackup is past its returns (the
    replica-create repository has a status whose backup is not
    complete), a list that finds a number of Pods other than one makes
    the function return a non-nil error; the list is the only call it
    made (nothing is deleted, applied or executed), no event is
    recorded and no repository status changes. *)
Theorem C8_pod_count_is_an_error (env : Env) (c : PostgresCluster)
    (selector containerName : string) :
  ClusterBootstrapped env c = true ->
  getPGBackRestExecSelector env c = inr (selector, containerName) ->
  (forall (configHash : string) (w : World) (pods : list Object),
     dedicatedRepoReady (Status_Conditions w) = true ->
     forallb StanzaCreated (Status_Repos w) = false ->
     ListResult env (calls w) "PodList" (cluster_Namespace c) selector = inr pods ->
     length pods ≠ 1 ->
     exists err w',
       reconcileStanzaCreate env c configHash w = Some ((false, Some err), w')
       /\ calls w' = calls w ++ [List "PodList" (cluster_Namespace c) selector]
       /\ events w' = events w
       /\ Status_Repos w' = Status_Repos w
       /\ Status_RepoHost w' = Status_RepoHost w)
  /\ (forall (jobs : list Object) (serviceAccount : option Object)
        (configHash name : string) (w : World) (pods : list Object)
        (i : nat) (rs : RepoStatus),
        list_find (fun r => Name r = name) (Status_Repos w) = Some (i, rs) ->
        ReplicaCreateBackupComplete rs = false ->
        ListResult env (calls w) "PodList" (cluster_Namespace c) selector = inr pods ->
        length pods ≠ 1 ->
        exists err w',
          reconcileReplicaCreateBackup env c jobs serviceAccount configHash name w
          = Some (Some err, w')
          /\ calls w' = calls w ++ [List "PodList" (cluster_Namespace c) selector]
          /\ events w' = events w
          /\ Status_Repos w' = Status_Repos w
          /\ Status_RepoHost w' = Status_RepoHost w).
Proof.
  intros Hboot Hsel. split.
  - intros configHash w pods Hhost Hsome Hlist Hlen.
    rewrite (stanzaCreate_pod_count env c configHash w selector containerName
               Hboot Hhost Hsome Hsel pods Hlist Hlen).
    eexists _, _. split; [reflexivity|]. done.
  - intros jobs sa configHash name w pods i rs Hptr Hinc Hlist Hlen.
    rewrite (replicaCreateBackup_pod_count env c jobs sa configHash name w
               selector containerName i rs Hboot Hptr Hinc Hsel pods Hlist Hlen).
    eexists _, _. split; [reflexivity|]. done.
Qed.

Lemma C8_witness :
  let env := Examples.env true [] (false, None) None in
  let cluster :=
    mkCluster "hippo" "ns" "uid-1" 1 [mkRepo "repo1" true None] None in
  let w := mkWorld None [mkRepoStatus true "repo1" "pv-1" "" false false] [] [] [] in
  (exists err w',
     reconcileStanzaCreate env cluster "hash" w = Some ((false, Some err), w')
     /\ calls w' = [List "PodList" "ns" "primary"]
     /\ events w' = []
     /\ Status_Repos w' = Status_Repos w
     /\ Status_RepoHost w' = None)
  /\ (exists err w',
        reconcileReplicaCreateBackup env cluster [] None "hash" "repo1" w
        = Some (Some err, w')
        /\ calls w' = [List "PodList" "ns" "primary"]
        /\ events w' = []
        /\ Status_Repos w' = Status_Repos w
        /\ Status_RepoHost w' = None).
Proof.
  intros env cluster w.
  destruct (C8_pod_count_is_an_error env cluster "primary" "database"
              eq_refl eq_refl) as [Hstanza Hbackup].
  split.
  - apply (Hstanza "hash" w []); [reflexivity|reflexivity|reflexivity|].
    simpl. lia.
  - apply (Hbackup [] None "hash" "repo1" w [] 0%nat
             (mkRepoStatus true "repo1" "pv-1" "" false false));
      [reflexivity|reflexivity|reflexivity|].
    simpl. lia.
Defined.

(** C9, as stated, fails: the backup of repo1 is already complete, so
    the function returns before it looks at the Job; the Job, recorded
    for repo2, is not deleted. *)
Lemma C9_counterexample :
  let env := Examples.env true [Examples.pod1] (false, None) None in
  let cluster :=
    mkCluster "hippo" "ns" "uid-1" 1 [mkRepo "repo1" true None] None in
  let w := mkWorld None [mkRepoStatus true "repo1" "pv-1" "" true true] [] [] [] in
  index (GetLabels Examples.job2) (LabelPGBackRestRepo env) = "repo2"
  /\ (fun rw => (rw.1, calls rw.2))
       <$> reconcileReplicaCreateBackup env cluster [Examples.job2]
             (Some Examples.sa) "hash" "repo1" w
     = Some (None, []).
Proof. split; vm_compute; reflexivity. Qed.

(** C9, amended. When reconcileReplicaCreateBackup is past its returns
    (the cluster is bootstrapped, the replica-create repository has a
    status whose backup is not complete, the selector is computed and
    the list finds exactly one Pod) and the first existing Job has
    failed, or bears another repository name than the current
    replica-create repository, or bears a config name or config hash
    annotation that differs from the current value: after the list of
    Pods the function only deletes that Job, with background
    propagation (once, or twice when the Job was running and a
    readiness condition did not hold), applies no Job, changes no
    repository status, records no event, and returns what its last
    delete answered: nil when the Job is deleted. *)
Theorem C9_outdated_job_deleted_not_recreated (env : Env) (c : PostgresCluster)
    (jobs : list Object) (serviceAccount : option Object)
    (configHash name : string) (w : World) (selector containerName : string)
    (i : nat) (rs : RepoStatus) (pod job : Object) (rest : list Object) :
  ClusterBootstrapped env c = true ->
  list_find (fun r => Name r = name) (Status_Repos w) = Some (i, rs) ->
  ReplicaCreateBackupComplete rs = false ->
  getPGBackRestExecSelector env c = inr (selector, containerName) ->
  ListResult env (calls w) "PodList" (cluster_Namespace c) selector = inr [pod] ->
  jobs = job :: rest ->
  jobOutdated env job name
    (if DedicatedRepoHostEnabled env c then CMRepoKey env
     else index (GetLabels pod) (LabelInstance env) +:+ ".conf")
    configHash = true ->
  let listPods := List "PodList" (cluster_Namespace c) selector in
  let delete := Delete job DeletePropagationBackground in
  exists err w' n,
    reconcileReplicaCreateBackup env c jobs serviceAccount configHash name w
    = Some (err, w')
    /\ (n = 0 \/ n = 1)
    /\ calls w' = calls w ++ listPods :: replicate n delete ++ [delete]
    /\ err = DeleteResult env (calls w ++ listPods :: replicate n delete) job
               DeletePropagationBackground
    /\ Status_Repos w' = Status_Repos w
    /\ events w' = events w.
Proof.
  intros Hboot Hptr Hinc Hsel Hlist Hjobs Hout listPods delete.
  rewrite (replicaCreateBackup_outdated_job env c jobs serviceAccount configHash
             name w selector containerName i rs Hboot Hptr Hinc Hsel pod Hlist
             job rest Hjobs Hout).
  fold listPods. fold delete.
  destruct (negb (jobCompleted env job) && negb (jobFailed env job) && _).
  - simpl.
    destruct (DeleteResult env (calls w ++ [listPods]) job _) as [e|] eqn:E.
    + eexists _, _, 0%nat. split; [reflexivity|]. simpl.
      rewrite <- app_assoc. simpl. rewrite E. auto 6.
    + eexists _, _, 1%nat. split; [reflexivity|]. simpl.
      rewrite <- !app_assoc. simpl. auto 6.
  - eexists _, _, 0%nat. split; [reflexivity|]. simpl.
    rewrite <- app_assoc. simpl. auto 6.
Qed.

Lemma C9_witness :
  let env := Examples.env true [Examples.pod1] (false, None) None in
  let cluster :=
    mkCluster "hippo" "ns" "uid-1" 1 [mkRepo "repo1" true None] None in
  let w := mkWorld None [mkRepoStatus true "repo1" "pv-1" "" true false] [] [] [] in
  let delete := Delete Examples.job2 DeletePropagationBackground in
  exists err w' n,
    reconcileReplicaCreateBackup env cluster [Examples.job2] (Some Examples.sa)
      "hash" "repo1" w = Some (err, w')
    /\ (n = 0 \/ n = 1)
    /\ calls w'
       = [] ++ List "PodList" "ns" "primary" :: replicate n delete ++ [delete]
    /\ err = DeleteResult env
               ([] ++ List "PodList" "ns" "primary" :: replicate n delete)
               Examples.job2 DeletePropagationBackground
    /\ Status_Repos w' = Status_Repos w
    /\ events w' = [].
Proof.
  intros env cluster w delete.
  apply (C9_outdated_job_deleted_not_recreated env cluster [Examples.job2]
           (Some Examples.sa) "hash" "repo1" w "primary" "database" 0%nat
           (mkRepoStatus true "repo1" "pv-1" "" true false) Examples.pod1
           Examples.job2 []);
    reflexivity.
Defined.

Lemma stanzaCreate_lists_pods env c configHash w selector containerName :
  ClusterBootstrapped env c = true ->
  dedicatedRepoReady (Status_Conditions w) = true ->
  forallb StanzaCreated (Status_Repos w) = false ->
  getPGBackRestExecSelector env c = inr (selector, containerName) ->
  exists r w' more,
    reconcileStanzaCreate env c configHash w = Some (r, w')
    /\ calls w'
       = calls w ++ List "PodList" (cluster_Namespace c) selector :: more.
Proof.
  intros Hboot Hhost Hsome Hsel. run.
  rewrite Hboot, Hhost, Hsome, Hsel. simpl.
  destruct (ListResult env _ _ _ _) as [err|[|pod [|pod' pods]]]; simpl;
    try (rewrite stanzaCreateDeferred_run; eexists _, _, [];
         split; [reflexivity|done]).
  destruct (StanzaCreateResult env _ _ _ _ _) as [[|] [err|]]; simpl;
    rewrite stanzaCreateDeferred_run; eexists _, _, [_];
    (split; [reflexivity|]); simpl; by rewrite <- app_assoc.
Qed.

(** C10. When the ledger holds no RepoHostReady condition, the
    readiness of the dedicated repository host that both functions
    compute is true.  So on a bootstrapped cluster reconcileStanzaCreate
    with a status that lacks its stanza goes on to list the Pods, and
    reconcileReplicaCreateBackup, past its returns, with one Pod, no
    existing Job and ReplicaRepoReady True, applies the backup Job. *)
Theorem C10_absent_repo_host_condition_is_ready (conditions : list Condition) :
  FindStatusCondition conditions ConditionRepoHostReady = None ->
  dedicatedRepoReady conditions = true
  /\ (forall (env : Env) (c : PostgresCluster) (configHash : string) (w : World)
        (selector containerName : string),
        Status_Conditions w = conditions ->
        ClusterBootstrapped env c = true ->
        forallb StanzaCreated (Status_Repos w) = false ->
        getPGBackRestExecSelector env c = inr (selector, containerName) ->
        exists r w' more,
          reconcileStanzaCreate env c configHash w = Some (r, w')
          /\ calls w'
             = calls w ++ List "PodList" (cluster_Namespace c) selector :: more)
  /\ (forall (env : Env) (c : PostgresCluster) (sa : Object)
        (configHash name : string) (w : World) (selector containerName : string)
        (i : nat) (rs : RepoStatus) (pod : Object),
        Status_Conditions w = conditions ->
        ClusterBootstrapped env c = true ->
        list_find (fun r => Name r = name) (Status_Repos w) = Some (i, rs) ->
        ReplicaCreateBackupComplete rs = false ->
        getPGBackRestExecSelector env c = inr (selector, containerName) ->
        ListResult env (calls w) "PodList" (cluster_Namespace c) selector
        = inr [pod] ->
        replicaRepoReady conditions = true ->
        Spec_Repos c ≠ [] ->
        let intent :=
          BackupJobIntent None selector containerName name (GetName sa)
            (if DedicatedRepoHostEnabled env c then CMRepoKey env
             else index (GetLabels pod) (LabelInstance env) +:+ ".conf")
            configHash in
        intentError env intent = None ->
        exists err w',
          reconcileReplicaCreateBackup env c [] (Some sa) configHash name w
          = Some (err, w')
          /\ calls w'
             = calls w ++ [List "PodList" (cluster_Namespace c) selector;
                           Apply intent]).
Proof.
  intros Habsent.
  assert (Hready : dedicatedRepoReady conditions = true).
  { unfold dedicatedRepoReady. by rewrite Habsent. }
  split_and!; [done| |].
  - intros env c configHash w selector containerName Hc Hboot Hsome Hsel.
    apply (stanzaCreate_lists_pods env c configHash w selector containerName);
      [done|by rewrite Hc|done|done].
  - intros env c sa configHash name w selector containerName i rs pod
      Hc Hboot Hptr Hinc Hsel Hlist Hrepo Hspec intent Hintent.
    destruct (replicaCreateBackup_create env c [] (Some sa) configHash name w
                selector containerName i rs Hboot Hptr Hinc Hsel pod Hlist sa
                eq_refl) as [err Hrun]; [|done|done|done|].
    { rewrite Hc, Hready, Hrepo. done. }
    exists err. eexists. split; [exact Hrun|]. simpl. by rewrite <- app_assoc.
Qed.

Lemma C10_witness :
  let env := Examples.env true [Examples.pod1] (false, None) None in
  let cluster :=
    mkCluster "hippo" "ns" "uid-1" 1 [mkRepo "repo1" true None] None in
  let conditions :=
    [mkCondition ConditionReplicaRepoReady ConditionTrue 1 "StanzaCreated"
       "pgBackRest replica create repo is ready for backups"] in
  let w :=
    mkWorld None [mkRepoStatus true "repo1" "pv-1" "" true false] conditions [] [] in
  dedicatedRepoReady conditions = true
  /\ exists err w',
       reconcileReplicaCreateBackup env cluster [] (Some Examples.sa) "hash"
         "repo1" w = Some (err, w')
       /\ calls w'
          = [List "PodList" "ns" "primary";
             Apply (BackupJobIntent None "primary" "database" "repo1"
                      "hippo-pgbackrest" "hippo-instance1-abcd.conf" "hash")].
Proof.
  intros env cluster conditions w.
  destruct (C10_absent_repo_host_condition_is_ready conditions eq_refl)
    as (Hready & _ & Hbackup).
  split; [exact Hready|].
  apply (Hbackup env cluster Examples.sa "hash" "repo1" w "primary" "database"
           0%nat (mkRepoStatus true "repo1" "pv-1" "" true false) Examples.pod1);
    try reflexivity.
  discriminate.
Defined.

(** ** The ownership step and the cycle *)

Lemma failedDelete_app env (history a b : list Call) :
  failedDelete env history (a ++ b)
  = failedDelete env history a || failedDelete env (history ++ a) b.
Proof.
  revert history. induction a as [|x a IH]; intros history; simpl.
  - by rewrite app_nil_r.
  - rewrite IH, <- app_assoc. simpl. by rewrite orb_assoc.
Qed.

Lemma endsWithFailedDelete_failed env history new err :
  endsWithFailedDelete env history new err ->
  failedDelete env history new = true.
Proof.
  intros (pre & obj & -> & Hpre & Herr).
  rewrite failedDelete_app, Hpre. simpl. rewrite Herr. done.
Qed.

Lemma endsWithFailedDelete_after env history a new err :
  failedDelete env history a = false ->
  endsWithFailedDelete env (history ++ a) new err ->
  endsWithFailedDelete env history (a ++ new) err.
Proof.
  intros Ha (pre & obj & -> & Hpre & Herr).
  exists (a ++ pre), obj. rewrite failedDelete_app, Ha, Hpre.
  rewrite !app_assoc in *. done.
Qed.

Lemma cleanupLoop_run env c (owned acc : list Object) (w : World) :
  exists r w' new,
    cleanupLoop env c owned acc w = Some (r, w')
    /\ calls w' = calls w ++ new
    /\ sameButCalls w w'
    /\ match r.2 with
       | None => failedDelete env (calls w) new = false
       | Some err => endsWithFailedDelete env (calls w) new err
       end.
Proof.
  revert acc w. induction owned as [|o owned IH]; intros acc w; simpl.
  - exists (acc, None), w, []. rewrite app_nil_r. by repeat split.
  - destruct (retained env c o) as [kept [|]].
    + unfold mbind, M_bind, Client_Delete, get, modify, mret, M_ret. simpl.
      destruct (DeleteResult env (calls w) o DeletePropagationBackground)
        as [err|] eqn:E.
      * eexists _, _, [_]. split; [reflexivity|]. simpl.
        split_and!; try done.
        exists [], o. rewrite app_nil_r. done.
      * destruct (IH (acc ++ kept)
                    (addCall (Delete o DeletePropagationBackground) w))
          as (r & w' & new & Hrun & Hcalls & Hsame & Hr).
        exists r, w', (Delete o DeletePropagationBackground :: new).
        split; [exact Hrun|]. simpl in Hcalls.
        rewrite <- app_assoc in Hcalls. split; [exact Hcalls|].
        split; [exact Hsame|].
        destruct r.2 as [err|].
        -- apply (endsWithFailedDelete_after env (calls w) [_] new err);
             [simpl; by rewrite E|done].
        -- simpl. rewrite E. done.
    + apply IH.
Qed.

Lemma resourcesLoop_run env c (kinds : list string) (res : RepoResources)
    (w : World) :
  exists r w' new,
    resourcesLoop env c kinds res w = Some (r, w')
    /\ calls w' = calls w ++ new
    /\ sameButCalls w w'
    /\ match r with
       | inr _ => failedDelete env (calls w) new = false
       | inl err =>
           failedDelete env (calls w) new = false
           \/ endsWithFailedDelete env (calls w) new err
       end.
Proof.
  revert res w. induction kinds as [|kind kinds IH]; intros res w; simpl.
  - exists (inr res), w, []. rewrite app_nil_r. by repeat split.
  - unfold mbind at 1, M_bind, Client_List, get, modify, mret, M_ret. simpl.
    set (listed := List kind (cluster_Namespace c)
                     (PGBackRestSelector env (cluster_Name c))).
    assert (Hnext : forall res',
      exists r w' new,
        resourcesLoop env c kinds res' (addCall listed w) = Some (r, w')
        /\ calls w' = calls w ++ new
        /\ sameButCalls w w'
        /\ match r with
           | inr _ => failedDelete env (calls w) new = false
           | inl err =>
               failedDelete env (calls w) new = false
               \/ endsWithFailedDelete env (calls w) new err
           end).
    { intros res'.
      destruct (IH res' (addCall listed w))
        as (r & w' & new & Hrun & Hcalls & Hsame & Hr).
      exists r, w', (listed :: new). split; [exact Hrun|]. simpl in Hcalls.
      rewrite <- app_assoc in Hcalls. split; [exact Hcalls|].
      split; [exact Hsame|]. simpl in Hr.
      destruct r as [err|]; [|done].
      destruct Hr as [Hr|Hr]; [by left|right].
      by apply (endsWithFailedDelete_after env (calls w) [listed] new err). }
    destruct (ListResult env (calls w) kind _ _) as [err|[|item items]].
    + eexists _, _, [_]. split; [reflexivity|]. simpl. split_and!; try done.
      by left.
    + apply Hnext.
    + set (owned := filter _ _).
      destruct (cleanupLoop_run env c owned [] (addCall listed w))
        as ([kept cerr] & w1 & new1 & Hrun1 & Hcalls1 & Hsame1 & Hr1).
      unfold mbind, M_bind, cleanupRepoResources. rewrite Hrun1.
      simpl in Hcalls1, Hr1. rewrite <- app_assoc in Hcalls1. simpl in Hcalls1.
      destruct cerr as [err|].
      * exists (inl err), w1, (listed :: new1).
        split; [reflexivity|]. split; [exact Hcalls1|]. split; [exact Hsame1|].
        right.
        by apply (endsWithFailedDelete_after env (calls w) [listed] new1 err).
      * destruct (unstructuredToRepoResources env c kind res kept)
          as [res' [err|]].
        -- exists (inl err), w1, (listed :: new1).
           split; [reflexivity|]. split; [exact Hcalls1|].
           split; [exact Hsame1|]. left. simpl. exact Hr1.
        -- destruct (IH res' w1) as (r & w' & new & Hrun & Hcalls & Hsame & Hr).
           exists r, w', (listed :: new1 ++ new).
           split; [exact Hrun|].
           rewrite Hcalls1 in Hcalls, Hr.
           rewrite <- app_assoc in Hcalls. split; [exact Hcalls|].
           split.
           { unfold sameButCalls in *. simpl in Hsame1.
             destruct Hsame1 as (?&?&?&?), Hsame as (?&?&?&?).
             repeat split; congruence. }
           assert (Hpre : failedDelete env (calls w) (listed :: new1) = false)
             by exact Hr1.
           change (listed :: new1 ++ new) with ((listed :: new1) ++ new).
           destruct r as [err|].
           ++ destruct Hr as [Hr|Hr].
              ** left. by rewrite failedDelete_app, Hpre.
              ** right. by apply endsWithFailedDelete_after.
           ++ by rewrite failedDelete_app, Hpre.
Qed.

(** C3, as stated, fails.  The delete of the claim left from repo9 is
    refused; reconcilePGBackRest returns that error with an empty
    result, and the trace ends at the refused delete: nothing is
    applied, no Pod is listed, no condition is written.  When the same
    delete is accepted, the later sub-steps run: the configuration is
    applied, then the roles, then the backup Job, and the ledger holds
    ReplicaRepoReady and ReplicaCreate. *)
Lemma C3_counterexample :
  let refused := Examples.envWith Examples.ownedClaims true [Examples.pod1]
                   (false, None) (Some "the server refused the request") in
  let accepted := Examples.envWith Examples.ownedClaims true [Examples.pod1]
                    (false, None) None in
  let w := mkWorld None [] [] [] [] in
  let selector := "pgbackrest of hippo" in
  reconcilePGBackRest refused Examples.hippo ["hippo-instance1-abcd"] w
  = Some ((mkResult false 0, Some "the server refused the request"),
          mkWorld None [] [] []
            [List "ConfigMapList" "ns" selector; List "JobList" "ns" selector;
             List "PersistentVolumeClaimList" "ns" selector;
             Delete Examples.pvc9 DeletePropagationBackground])
  /\ (fun rw =>
        (rw.1, Examples.intents (calls rw.2), Type' <$> Status_Conditions rw.2))
       <$> reconcilePGBackRest accepted Examples.hippo ["hippo-instance1-abcd"] w
     = Some ((mkResult false 0, None),
             [RepoVolumeIntent "repo1";
              PGBackRestConfigMapIntent "" "hash" ["hippo-instance1-abcd"];
              ServiceAccountIntent; RoleIntent; RoleBindingIntent;
              BackupJobIntent None "primary" "database" "repo1"
                "hippo-pgbackrest" "hippo-instance1-abcd.conf" "hash"],
             [ConditionReplicaRepoReady; ConditionReplicaCreate]).
Proof. split; vm_compute; reflexivity. Qed.

(** C3, amended. The ownership step always returns.  When a delete it
    issued was answered with an error, that delete, made with
    background propagation, is the last call of the step, the step
    changes nothing but the trace, and reconcilePGBackRest returns at
    once with the empty result and that error, in the world the
    ownership step left: no later sub-step runs in that cycle. *)
Theorem C3_failed_cleanup_ends_the_cycle (env : Env) (c : PostgresCluster)
    (instanceNames : list string) (w : World) :
  exists r w1,
    getPGBackRestResources env c w = Some (r, w1)
    /\ (failedDelete env (calls w) (drop (length (calls w)) (calls w1)) = true ->
        exists err pre obj,
          r = inl err
          /\ calls w1 = calls w ++ pre ++ [Delete obj DeletePropagationBackground]
          /\ DeleteResult env (calls w ++ pre) obj DeletePropagationBackground
             = Some err
          /\ sameButCalls w w1
          /\ reconcilePGBackRest env c instanceNames w
             = Some ((mkResult false 0, Some err), w1)).
Proof.
  destruct (resourcesLoop_run env c gvks (mkRepoResources [] [] [] [] None None) w)
    as (r & w1 & new & Hrun & Hcalls & Hsame & Hr).
  exists r, w1. split; [exact Hrun|].
  rewrite Hcalls, drop_app_length. intros Hfailed.
  destruct r as [err|res]; [|congruence].
  destruct Hr as [Hr|(pre & obj & -> & _ & Herr)]; [congruence|].
  exists err, pre, obj. split_and!; try done.
  change (getPGBackRestResources env c w = Some (inl err, w1)) in Hrun.
  unfold reconcilePGBackRest, mbind, M_bind. rewrite Hrun. done.
Qed.

Lemma C3_witness :
  let refused := Examples.envWith Examples.ownedClaims true [Examples.pod1]
                   (false, None) (Some "the server refused the request") in
  let w := mkWorld None [] [] [] [] in
  exists w1,
    reconcilePGBackRest refused Examples.hippo [] w
    = Some ((mkResult false 0, Some "the server refused the request"), w1).
Proof.
  intros refused w.
  destruct (C3_failed_cleanup_ends_the_cycle refused Examples.hippo [] w)
    as (r & w1 & Hrun & Hfailed).
  vm_compute in Hrun. injection Hrun as <- <-.
  destruct Hfailed as (err & pre & obj & Herr & _ & _ & _ & Hcycle);
    [vm_compute; reflexivity|].
  injection Herr as <-. eexists. exact Hcycle.
Defined.

(** * Further properties *)

(** ** getRepoVolumeStatus *)

(** X1. Whatever the order in which the hashes are ranged over, the
    returned statuses are in ascending order of their names, and their
    names are those on the reconciled volumes and the keys of the
    hashes, once each: a prior status of any other name is dropped. *)
Theorem X1_statuses_sorted_one_per_volume_and_hash (L : string)
    (repoStatus : list RepoStatus) (repoVolumes : list Object)
    (configHashes : gmap string string) (hashes : list (string * string))
    (replicaCreateRepoName : string) :
  let returned :=
    getRepoVolumeStatusIn L repoStatus repoVolumes hashes replicaCreateRepoName in
  Sorted nameLe returned
  /\ Name <$> returned
     ≡ₚ ((fun rv => index (GetLabels rv) L) <$> repoVolumes) ++ hashes.*1
  /\ length (getRepoVolumeStatus L repoStatus repoVolumes configHashes
               replicaCreateRepoName)
     = length repoVolumes + size configHashes.
Proof.
  intros returned. split_and!.
  - apply sortByName_sorted.
  - unfold returned.
    rewrite (fmap_Permutation Name _ _ (getRepoVolumeStatusIn_perm _ _ _ _ _)).
    change (map Name
      (map (volumeStatus L repoStatus replicaCreateRepoName) repoVolumes
       ++ map (extStatus repoStatus replicaCreateRepoName) hashes)
      ≡ₚ map (fun rv => index (GetLabels rv) L) repoVolumes ++ map fst hashes).
    by rewrite names_of_status.
  - unfold getRepoVolumeStatus.
    rewrite (Permutation_length (getRepoVolumeStatusIn_perm _ _ _ _ _)).
    rewrite length_app, !length_map. by rewrite length_map_to_list.
Qed.

Lemma carryVolumeStatus_closed (rv : Object) (name : string) (rs : RepoStatus) :
  carryVolumeStatus rv name rs
  = mkRepoStatus (String.eqb (Status_Phase rv) ClaimBound) (Name rs)
      (VolumeName rs) (RepoOptionsHash rs) (StanzaCreated rs)
      (ReplicaCreateBackupComplete rs && String.eqb (Name rs) name).
Proof.
  unfold carryVolumeStatus. destruct rs as [b n v h s c]; simpl.
  destruct c, (String.eqb n name), b, (String.eqb (Status_Phase rv) ClaimBound);
    reflexivity.
Qed.

Lemma carryExtStatus_same (hash name : string) (rs : RepoStatus) :
  RepoOptionsHash rs = hash ->
  carryExtStatus hash name rs
  = setReplicaCreateBackupComplete
      (ReplicaCreateBackupComplete rs && String.eqb (Name rs) name) rs.
Proof.
  intros <-. unfold carryExtStatus. destruct rs as [b n v h s c]; simpl.
  destruct c, (String.eqb n name); simpl; rewrite String.eqb_refl; reflexivity.
Qed.

(** X2. getRepoVolumeStatus never turns a flag on: a returned status
    with [StanzaCreated] (or [ReplicaCreateBackupComplete]) true comes
    from the first prior status of its name, which had that flag true. *)
Theorem X2_status_flags_are_never_set (L : string)
    (repoStatus : list RepoStatus) (repoVolumes : list Object)
    (hashes : list (string * string)) (replicaCreateRepoName : string)
    (e : RepoStatus) :
  e ∈ getRepoVolumeStatusIn L repoStatus repoVolumes hashes replicaCreateRepoName ->
  (StanzaCreated e = true ->
   exists rs, find (fun r => String.eqb (Name r) (Name e)) repoStatus = Some rs
              /\ StanzaCreated rs = true)
  /\ (ReplicaCreateBackupComplete e = true ->
      exists rs, find (fun r => String.eqb (Name r) (Name e)) repoStatus = Some rs
                 /\ ReplicaCreateBackupComplete rs = true).
Proof.
  rewrite getRepoVolumeStatusIn_perm, elem_of_app, !list_elem_of_fmap.
  intros [[rv [-> _]]|[[k h] [-> _]]].
  - rewrite volumeStatus_name. unfold volumeStatus.
    destruct (find _ repoStatus) as [rs|] eqn:E; [|split; discriminate].
    rewrite carryVolumeStatus_closed. simpl.
    split; intros H; exists rs; split; try done.
    by apply andb_true_iff in H as [? _].
  - rewrite extStatus_name. unfold extStatus. simpl.
    destruct (find _ repoStatus) as [rs|] eqn:E; [|split; discriminate].
    unfold carryExtStatus.
    destruct rs as [b n v h0 s c]; simpl.
    destruct c, (String.eqb n replicaCreateRepoName); simpl;
      destruct (String.eqb h0 h); simpl; split; intros H; try discriminate;
      (eexists; split; [reflexivity|exact H]).
Qed.

Lemma X2_witness :
  exists rs,
    find (fun r => String.eqb (Name r) "repo1")
      [Examples.status1; Examples.status2] = Some rs
    /\ StanzaCreated rs = true.
Proof.
  apply (X2_status_flags_are_never_set Examples.labelRepo
           [Examples.status1; Examples.status2] [Examples.pvc1] [] "repo1"
           (mkRepoStatus true "repo1" "pv-1" "h" true true)).
  - vm_compute. left.
  - reflexivity.
Defined.

(** X3. A repository whose hash has not changed keeps what it had: the
    first prior status of its name is returned with its hash, its
    bound and volume fields and [StanzaCreated] as they were, and with
    [ReplicaCreateBackupComplete] kept when it bears the replica-create
    repository name and cleared otherwise. *)
Theorem X3_unchanged_hash_keeps_status (L : string)
    (repoStatus : list RepoStatus) (repoVolumes : list Object)
    (hashes : list (string * string)) (replicaCreateRepoName repoName hash : string)
    (rs : RepoStatus) :
  (repoName, hash) ∈ hashes ->
  find (fun r => String.eqb (Name r) repoName) repoStatus = Some rs ->
  RepoOptionsHash rs = hash ->
  setReplicaCreateBackupComplete
    (ReplicaCreateBackupComplete rs && String.eqb repoName replicaCreateRepoName)
    rs
  ∈ getRepoVolumeStatusIn L repoStatus repoVolumes hashes replicaCreateRepoName.
Proof.
  intros Hin Hfind Hsame.
  rewrite getRepoVolumeStatusIn_perm, elem_of_app. right.
  apply list_elem_of_fmap. exists (repoName, hash). split; [|done].
  unfold extStatus. rewrite Hfind, carryExtStatus_same by done.
  by rewrite (find_name_eq _ _ _ Hfind).
Qed.

Lemma X3_witness :
  Examples.status2
  ∈ getRepoVolumeStatusIn Examples.labelRepo
      [Examples.status1; Examples.status2] [] [("repo2", "old")] "repo2".
Proof.
  apply (X3_unchanged_hash_keeps_status Examples.labelRepo
           [Examples.status1; Examples.status2] [] [("repo2", "old")]
           "repo2" "repo2" "old" Examples.status2).
  - left.
  - reflexivity.
  - reflexivity.
Defined.

(** X4. The status returned for a reconciled volume.  With a prior
    status of its repository name: [Bound] is whether the claim's phase
    is Bound, [VolumeName], the hash and [StanzaCreated] are the prior
    ones (the volume name of the claim is not read again), and
    [ReplicaCreateBackupComplete] is kept only under the replica-create
    repository name.  Without one: a new status with the claim's
    volume name and both flags false. *)
Theorem X4_volume_status (L : string) (repoStatus : list RepoStatus)
    (repoVolumes : list Object) (hashes : list (string * string))
    (replicaCreateRepoName : string) (rv : Object) :
  rv ∈ repoVolumes ->
  let repoName := index (GetLabels rv) L in
  let bound := String.eqb (Status_Phase rv) ClaimBound in
  match find (fun r => String.eqb (Name r) repoName) repoStatus with
  | Some rs =>
      mkRepoStatus bound repoName (VolumeName rs) (RepoOptionsHash rs)
        (StanzaCreated rs)
        (ReplicaCreateBackupComplete rs
         && String.eqb repoName replicaCreateRepoName)
  | None => mkRepoStatus bound repoName (Spec_VolumeName rv) "" false false
  end
  ∈ getRepoVolumeStatusIn L repoStatus repoVolumes hashes replicaCreateRepoName.
Proof.
  intros Hin repoName bound.
  rewrite getRepoVolumeStatusIn_perm, elem_of_app. left.
  apply list_elem_of_fmap. exists rv. split; [|done].
  unfold volumeStatus. fold repoName.
  destruct (find _ repoStatus) as [rs|] eqn:E; [|done].
  rewrite carryVolumeStatus_closed. by rewrite (find_name_eq _ _ _ E).
Qed.

Lemma X4_witness :
  mkRepoStatus true "repo1" "pv-1" "h" true false
  ∈ getRepoVolumeStatusIn Examples.labelRepo [Examples.status1]
      [Examples.pvc1] [] "repo2".
Proof.
  apply (X4_volume_status Examples.labelRepo [Examples.status1]
           [Examples.pvc1] [] "repo2" Examples.pvc1).
  left.
Defined.

(** ** The ownership step *)

Lemma retained_kept env c (o x : Object) :
  x ∈ (retained env c o).1 -> x = o /\ (retained env c o).2 = false.
Proof.
  unfold retained.
  repeat match goal with
         | |- context [if ?b then _ else _] => destruct b eqn:?; simpl
         | |- context [match find ?p ?l with _ => _ end] =>
             destruct (find p l) eqn:?; simpl
         end;
    try (intros ?%elem_of_nil; done);
    try (intros ->%list_elem_of_singleton; done).
  - intros Hx. split.
    + apply list_elem_of_In, in_flat_map in Hx as (repo & _ & Hx).
      destruct (_ && _); [|done]. by destruct Hx.
    + apply bool_decide_eq_false. intros Hnil. rewrite Hnil in Hx.
      by apply elem_of_nil in Hx.
  - intros Hx. split.
    + apply list_elem_of_In, in_flat_map in Hx as (repo & _ & Hx).
      destruct (String.eqb _ _); [|done]. by destruct Hx.
    + apply bool_decide_eq_false. intros Hnil. rewrite Hnil in Hx.
      by apply elem_of_nil in Hx.
Qed.

Lemma retained_config env c (o : Object) :
  hasLabel o (LabelPGBackRestConfig env) = true ->
  retained env c o = ([o], false).
Proof. intros H. unfold retained. by rewrite H. Qed.

Lemma cleanupLoop_deletes env c (owned acc : list Object) (w : World) :
  exists r w' deleted,
    cleanupLoop env c owned acc w = Some (r, w')
    /\ calls w' = calls w
                  ++ ((fun o => Delete o DeletePropagationBackground) <$> deleted)
    /\ deleted `prefix_of` filter (fun o => (retained env c o).2 = true) owned
    /\ (r.2 = None ->
        deleted = filter (fun o => (retained env c o).2 = true) owned
        /\ r.1 = acc ++ flat_map (fun o => (retained env c o).1) owned).
Proof.
  revert acc w. induction owned as [|o owned IH]; intros acc w; simpl.
  - exists (acc, None), w, []. rewrite !app_nil_r. by repeat split.
  - rewrite filter_cons.
    destruct (retained env c o) as [kept [|]] eqn:E; simpl.
    + unfold mbind, M_bind, Client_Delete, get, modify, mret, M_ret. simpl.
      destruct (DeleteResult env (calls w) o DeletePropagationBackground)
        as [err|] eqn:Ed.
      * exists ([], Some err), (addCall (Delete o DeletePropagationBackground) w), [o].
        split; [reflexivity|]. split; [done|].
        split; [by apply prefix_cons, prefix_nil|]. done.
      * destruct (IH (acc ++ kept)
                    (addCall (Delete o DeletePropagationBackground) w))
          as (r & w' & deleted & Hrun & Hcalls & Hpre & Hok).
        exists r, w', (o :: deleted). split; [exact Hrun|].
        simpl in Hcalls. rewrite <- app_assoc in Hcalls.
        split; [exact Hcalls|]. split; [by apply prefix_cons|].
        intros Hr. destruct (Hok Hr) as [-> ->].
        by rewrite <- app_assoc.
    + destruct (IH (acc ++ kept) w) as (r & w' & deleted & Hrun & Hcalls & Hpre & Hok).
      exists r, w', deleted. split; [exact Hrun|]. split; [exact Hcalls|].
      split; [exact Hpre|].
      intros Hr. destruct (Hok Hr) as [-> ->]. by rewrite <- app_assoc.
Qed.

(** X5. When the store accepts every delete, cleanupRepoResources
    deletes, in their order and with background propagation, exactly the
    resources that its [switch] does not keep, makes no other call,
    and returns the kept ones (a resource once for every repository of
    the spec that matches it). *)
Theorem X5_cleanup_deletes_what_is_not_kept (env : Env) (c : PostgresCluster)
    (owned : list Object) (w : World) :
  (forall history o propagation, DeleteResult env history o propagation = None) ->
  exists w',
    cleanupRepoResources env c owned w
    = Some ((flat_map (fun o => (retained env c o).1) owned, None), w')
    /\ calls w'
       = calls w
         ++ ((fun o => Delete o DeletePropagationBackground)
               <$> filter (fun o => (retained env c o).2 = true) owned).
Proof.
  intros Haccept.
  destruct (cleanupLoop_deletes env c owned [] w)
    as ([kept err] & w' & deleted & Hrun & Hcalls & Hpre & Hok).
  assert (err = None) as ->.
  { destruct err as [err|]; [|done]. exfalso.
    destruct (cleanupLoop_run env c owned [] w)
      as (r2 & w2 & new & Hrun2 & _ & _ & Hr2).
    rewrite Hrun in Hrun2. injection Hrun2 as <- <-. simpl in Hr2.
    destruct Hr2 as (pre & obj & _ & _ & Hfail).
    by rewrite Haccept in Hfail. }
  destruct (Hok eq_refl) as [-> Hkept]. simpl in Hkept. subst kept.
  exists w'. split; [exact Hrun|exact Hcalls].
Qed.

Lemma X5_witness :
  exists w',
    cleanupRepoResources Fixtures.accepting Examples.hippo
      [Examples.pvc9; Fixtures.claim1] Fixtures.empty
    = Some (([Fixtures.claim1], None), w')
    /\ calls w' = [Delete Examples.pvc9 DeletePropagationBackground].
Proof.
  apply (X5_cleanup_deletes_what_is_not_kept Fixtures.accepting Examples.hippo
           [Examples.pvc9; Fixtures.claim1] Fixtures.empty).
  intros history o propagation. reflexivity.
Defined.

Lemma unstructuredToRepoResources_owned env c (kind : string)
    (res res' : RepoResources) (items : list Object) :
  ownedResources env c res ->
  Forall (ownedAndKept env c) items ->
  unstructuredToRepoResources env c kind res items = (res', None) ->
  ownedResources env c res'.
Proof.
  intros (Hall & Hcm & Hsec & Hjobs) Hitems.
  unfold unstructuredToRepoResources.
  destruct res as [cj jobs hs vols cm sec]; simpl in *.
  assert (Hfind : forall p o, find p items = Some o -> ownedAndKept env c o).
  { intros p o [Ho _]%find_some. rewrite Forall_forall in Hitems.
    by apply Hitems, list_elem_of_In. }
  apply Forall_app in Hall as [Hcj Hall].
  apply Forall_app in Hall as [Hj Hall].
  apply Forall_app in Hall as [Hh Hv].
  repeat (destruct (String.eqb kind _); [
    destruct (FromUnstructured env kind items); [discriminate|];
    try destruct (find _ items) as [o|] eqn:Ef;
    injection 1 as <-;
    (split; [|split; [|split]]); simpl;
    rewrite ?Forall_app; rewrite ?Forall_app in *; try done |]);
    try discriminate.
  - intros o' [= <-]. split; [by eapply Hfind|].
    apply find_some in Ef as [_ Ef]. by apply String.eqb_eq.
  - split_and!; try done.
    apply Forall_forall. intros o [_ Ho]%list_elem_of_filter.
    rewrite Forall_forall in Hitems. by apply Hitems.
  - split; [done|]. apply Forall_forall. by intros o [Ho _]%list_elem_of_filter.
  - intros o' [= <-]. split; [by eapply Hfind|].
    apply find_some in Ef as [_ Ef]. by apply String.eqb_eq.
Qed.

Lemma resourcesLoop_owned env c (kinds : list string) (res : RepoResources)
    (w : World) :
  ownedResources env c res ->
  exists r w' new,
    resourcesLoop env c kinds res w = Some (r, w')
    /\ calls w' = calls w ++ new
    /\ Forall (ownershipCall env c) new
    /\ (forall res', r = inr res' -> ownedResources env c res').
Proof.
  revert res w. induction kinds as [|kind kinds IH]; intros res w Hres; simpl.
  - exists (inr res), w, []. rewrite app_nil_r.
    split_and!; [done|done|constructor|]. by intros res' [= <-].
  - unfold mbind at 1, M_bind, Client_List, get, modify, mret, M_ret. simpl.
    set (listed := List kind (cluster_Namespace c)
                     (PGBackRestSelector env (cluster_Name c))).
    destruct (ListResult env (calls w) kind _ _) as [err|[|item items]].
    + exists (inl err), (addCall listed w), [listed].
      split_and!; [done|done|by repeat constructor|done].
    + destruct (IH res (addCall listed w) Hres)
        as (r & w' & new & Hrun & Hcalls & Hnew & Hr).
      exists r, w', (listed :: new). split; [exact Hrun|].
      simpl in Hcalls. rewrite <- app_assoc in Hcalls.
      split; [exact Hcalls|]. split; [by constructor|exact Hr].
    + set (owned := filter _ _).
      assert (Howned : forall o, o ∈ owned -> IsControlledBy o c = true).
      { by intros o [Ho _]%list_elem_of_filter. }
      destruct (cleanupLoop_deletes env c owned [] (addCall listed w))
        as ([kept cerr] & w1 & deleted & Hrun1 & Hcalls1 & Hpre & Hok).
      unfold mbind, M_bind, cleanupRepoResources. rewrite Hrun1.
      simpl in Hcalls1. rewrite <- app_assoc in Hcalls1. simpl in Hcalls1.
      assert (Hdel : Forall (ownershipCall env c)
                       ((fun o => Delete o DeletePropagationBackground) <$> deleted)).
      { apply Forall_fmap, Forall_forall. intros o Ho. simpl.
        assert (Ho' : o ∈ filter (fun o => (retained env c o).2 = true) owned).
        { destruct Hpre as [k ->]. apply elem_of_app. by left. }
        apply list_elem_of_filter in Ho' as [Hret Ho'].
        split_and!; [done|by apply Howned|done]. }
      destruct cerr as [err|].
      * eexists (inl err), w1, (listed :: _).
        split_and!; [reflexivity|exact Hcalls1|by constructor|done].
      * destruct (Hok eq_refl) as [-> Hkept]. simpl in Hkept.
        assert (Hitems : Forall (ownedAndKept env c) kept).
        { subst kept. apply Forall_forall. intros x Hx.
          apply list_elem_of_In, in_flat_map in Hx as (o & Ho & Hx).
          apply list_elem_of_In in Ho, Hx.
          apply retained_kept in Hx as [-> Hx]. split; [by apply Howned|done]. }
        destruct (unstructuredToRepoResources env c kind res kept)
          as [res' [err|]] eqn:Eu.
        -- eexists (inl err), w1, (listed :: _).
           split_and!; [reflexivity|exact Hcalls1|by constructor|done].
        -- pose proof (unstructuredToRepoResources_owned env c kind res res'
                         kept Hres Hitems Eu) as Hres'.
           destruct (IH res' w1 Hres')
             as (r & w' & new & Hrun & Hcalls & Hnew & Hr).
           eexists r, w', (listed :: _ ++ new). split; [exact Hrun|].
           rewrite Hcalls1 in Hcalls. rewrite <- app_assoc in Hcalls.
           split; [exact Hcalls|].
           split; [constructor; [done|by apply Forall_app]|exact Hr].
Qed.

Lemma ownedResources_empty env c :
  ownedResources env c (mkRepoResources [] [] [] [] None None).
Proof. by repeat split. Qed.

(** X6. The ownership step makes only lists and deletes.  Every delete
    has background propagation and is of an object that the cluster
    controls and that the [switch] of cleanupRepoResources does not
    keep; in particular an object without the cluster's controller
    reference, or with the configuration label, is never deleted.
    Nothing but the trace changes. *)
Theorem X6_only_owned_outdated_resources_are_deleted (env : Env)
    (c : PostgresCluster) (w : World) :
  exists r w' new,
    getPGBackRestResources env c w = Some (r, w')
    /\ calls w' = calls w ++ new
    /\ sameButCalls w w'
    /\ Forall (ownershipCall env c) new
    /\ (forall o propagation,
          Delete o propagation ∈ new ->
          propagation = DeletePropagationBackground
          /\ Controller o = Some (cluster_UID c)
          /\ hasLabel o (LabelPGBackRestConfig env) = false).
Proof.
  destruct (resourcesLoop_owned env c gvks _ w (ownedResources_empty env c))
    as (r & w' & new & Hrun & Hcalls & Hnew & _).
  exists r, w', new. split; [exact Hrun|]. split; [exact Hcalls|].
  split.
  { destruct (resourcesLoop_run env c gvks
                (mkRepoResources [] [] [] [] None None) w)
      as (r2 & w2 & new2 & Hrun2 & _ & Hsame & _).
    unfold getPGBackRestResources in Hrun. rewrite Hrun in Hrun2.
    by injection Hrun2 as <- <-. }
  split; [exact Hnew|].
  intros o propagation Ho. rewrite Forall_forall in Hnew.
  apply Hnew in Ho as (-> & Hctl & Hret). split; [done|]. split.
  - unfold IsControlledBy in Hctl. destruct (Controller o) as [uid|]; [|done].
    apply String.eqb_eq in Hctl. by subst.
  - destruct (hasLabel o (LabelPGBackRestConfig env)) eqn:E; [|done].
    by rewrite retained_config in Hret.
Qed.

Lemma X6_witness :
  exists r w' new,
    getPGBackRestResources Fixtures.accepting Examples.hippo Fixtures.empty
    = Some (r, w')
    /\ calls w' = calls Fixtures.empty ++ new
    /\ sameButCalls Fixtures.empty w'
    /\ Forall (ownershipCall Fixtures.accepting Examples.hippo) new
    /\ (forall o propagation,
          Delete o propagation ∈ new ->
          propagation = DeletePropagationBackground
          /\ Controller o = Some (cluster_UID Examples.hippo)
          /\ hasLabel o (LabelPGBackRestConfig Fixtures.accepting) = false).
Proof.
  exact (X6_only_owned_outdated_resources_are_deleted Fixtures.accepting
           Examples.hippo Fixtures.empty).
Defined.

(** X7. When the ownership step succeeds, every resource it returns is
    controlled by the cluster and kept by the [switch] of
    cleanupRepoResources, the SSH ConfigMap and Secret bear the names
    the cluster gives them, and every Job bears the replica-create
    value of the backup label. *)
Theorem X7_returned_resources_are_owned_and_kept (env : Env)
    (c : PostgresCluster) (w : World) (res : RepoResources) (w' : World) :
  getPGBackRestResources env c w = Some (inr res, w') ->
  ownedResources env c res.
Proof.
  intros Hrun.
  destruct (resourcesLoop_owned env c gvks _ w (ownedResources_empty env c))
    as (r & w2 & new & Hrun2 & _ & _ & Hres).
  unfold getPGBackRestResources in Hrun. rewrite Hrun in Hrun2.
  injection Hrun2 as <- <-. by apply Hres.
Qed.

Lemma X7_witness :
  ownedResources Fixtures.accepting Examples.hippo
    (mkRepoResources [] [] [] [Fixtures.claim1] None None).
Proof.
  eapply (X7_returned_resources_are_owned_and_kept Fixtures.accepting
            Examples.hippo Fixtures.empty).
  vm_compute. reflexivity.
Defined.
(** ** The scheduled backups *)

Lemma buildable_app env (a b : list Intent) :
  buildable env (a ++ b) = buildable env a ++ buildable env b.
Proof. apply filter_app. Qed.

Lemma attempts_app env (history : list Call) (a b : list Intent) :
  attempts env history (a ++ b)
  = attempts env history a
    ++ attempts env (history ++ (Apply <$> buildable env a)) b.
Proof.
  revert history. induction a as [|x a IH]; intros history; simpl.
  - unfold buildable. simpl. by rewrite app_nil_r.
  - f_equal. rewrite IH. do 2 f_equal.
    change (x :: a) with ([x] ++ a).
    by rewrite buildable_app, fmap_app, app_assoc.
Qed.

(** The k-th attempt is made after the applies of the buildable
    intents before it. *)
Lemma attempts_lookup env (history : list Call) (intents : list Intent)
    (k : nat) (intent : Intent) :
  intents !! k = Some intent ->
  attempts env history intents !! k
  = Some (intent,
          applyAttempt env
            (history ++ (Apply <$> buildable env (take k intents))) intent).
Proof.
  revert history k. induction intents as [|x intents IH]; intros history k;
    [done|].
  destruct k as [|k]; simpl.
  - intros [= ->]. by rewrite app_nil_r.
  - intros Hk. rewrite (IH _ _ Hk). do 3 f_equal.
    change (x :: take k intents) with ([x] ++ take k intents).
    by rewrite buildable_app, fmap_app, app_assoc.
Qed.

Lemma nonEmpty_app {A : Type} (a b : list A) :
  nonEmpty (a ++ b) = nonEmpty a || nonEmpty b.
Proof. destruct a, b; done. Qed.

Lemma createIfScheduled_run env c (repoName backupType : string)
    (schedule : option string) (requeue : bool) (w : World) :
  let intents :=
    cronJobIntent <$> match schedule with
                      | Some schedule => [(repoName, backupType, schedule)]
                      | None => []
                      end in
  let failures := omap failure (attempts env (calls w) intents) in
  exists w',
    createIfScheduled env c repoName backupType schedule requeue w
    = Some (requeue || nonEmpty failures, w')
    /\ calls w' = calls w ++ (Apply <$> buildable env intents)
    /\ events w' = events w ++ (cronJobWarning <$> failures)
    /\ Status_Repos w' = Status_Repos w
    /\ Status_Conditions w' = Status_Conditions w
    /\ Status_RepoHost w' = Status_RepoHost w.
Proof.
  destruct schedule as [schedule|]; simpl.
  - unfold createIfScheduled, createCronJob, applyOrError, apply, Event_,
      get, modify, mbind, M_bind, mret, M_ret, buildable, cronJobIntent,
      failure, applyAttempt.
    simpl. rewrite filter_cons, filter_nil. simpl.
    destruct (intentError env _) as [err|] eqn:E; simpl;
      [|destruct (ApplyResult env _ _) as [err|o]; simpl];
      rewrite ?orb_true_r, ?orb_false_r, ?app_nil_r;
      (eexists; split; [reflexivity|]); simpl;
      rewrite ?app_nil_r; by split_and!.
  - exists w. unfold buildable. simpl.
    rewrite !app_nil_r, orb_false_r. by split_and!.
Qed.

Lemma cronJobLoop_run env c (repos : list PGBackRestRepo) (requeue : bool)
    (w : World) :
  let intents := cronJobIntent <$> flat_map scheduledBackups repos in
  let failures := omap failure (attempts env (calls w) intents) in
  exists w',
    cronJobLoop env c repos requeue w
    = Some (requeue || nonEmpty failures, w')
    /\ calls w' = calls w ++ (Apply <$> buildable env intents)
    /\ events w' = events w ++ (cronJobWarning <$> failures)
    /\ Status_Repos w' = Status_Repos w
    /\ Status_Conditions w' = Status_Conditions w
    /\ Status_RepoHost w' = Status_RepoHost w.
Proof.
  revert requeue w. induction repos as [|repo repos IH]; intros requeue w.
  { exists w. unfold buildable. simpl.
    rewrite !app_nil_r, orb_false_r. by split_and!. }
  cbv zeta. cbn [cronJobLoop flat_map].
  destruct (repo_BackupSchedules repo) as [schedules|] eqn:Es.
  2:{ assert (scheduledBackups repo = []) as ->
        by (unfold scheduledBackups; by rewrite Es).
      exact (IH requeue w). }
  assert (scheduledBackups repo
          = match Full schedules with
            | Some schedule => [(repo_Name repo, full, schedule)]
            | None => []
            end
            ++ match Differential schedules with
               | Some schedule => [(repo_Name repo, differential, schedule)]
               | None => []
               end
            ++ match Incremental schedules with
               | Some schedule => [(repo_Name repo, incremental, schedule)]
               | None => []
               end) as ->
    by (unfold scheduledBackups; by rewrite Es).
  unfold mbind, M_bind.
  destruct (createIfScheduled_run env c (repo_Name repo) full
              (Full schedules) requeue w)
    as (w1 & -> & Hc1 & He1 & Hr1 & Hd1 & Hh1).
  match goal with
  | |- context [createIfScheduled env c _ differential _ ?r w1] =>
      destruct (createIfScheduled_run env c (repo_Name repo) differential
                  (Differential schedules) r w1)
        as (w2 & -> & Hc2 & He2 & Hr2 & Hd2 & Hh2)
  end.
  match goal with
  | |- context [createIfScheduled env c _ incremental _ ?r w2] =>
      destruct (createIfScheduled_run env c (repo_Name repo) incremental
                  (Incremental schedules) r w2)
        as (w3 & -> & Hc3 & He3 & Hr3 & Hd3 & Hh3)
  end.
  match goal with
  | |- context [cronJobLoop env c repos ?r w3] =>
      destruct (IH r w3) as (w4 & -> & Hc4 & He4 & Hr4 & Hd4 & Hh4)
  end.
  exists w4.
  rewrite !fmap_app, !attempts_app, !omap_app, !nonEmpty_app,
    !buildable_app, !fmap_app.
  rewrite He4, He3, He2, He1, Hc4, Hc3, Hc2, Hc1.
  rewrite <- !app_assoc, <- !orb_assoc.
  split_and!; try congruence; reflexivity.
Qed.

(** X8. reconcilePGBackRestCronJob attempts every schedule the spec
    declares, in order, none held back by the outcome of the ones
    before.  Its calls are the applies of the CronJobs whose manifest
    can be built; it records one Warning
    UnableToCreatePGBackRestCronJob event for each attempt that failed,
    with the error of that attempt as its message, in order, and
    nothing else; and it asks for a requeue exactly when an attempt
    failed.  The status of the cluster is left as it was. *)
Theorem X8_cron_jobs_created_despite_failures (env : Env)
    (cluster : PostgresCluster) (w : World) :
  let intents :=
    cronJobIntent <$> flat_map scheduledBackups (Spec_Repos cluster) in
  let failures := omap failure (attempts env (calls w) intents) in
  exists w',
    reconcilePGBackRestCronJob env cluster w
    = Some (bool_decide (failures ≠ []), w')
    /\ calls w' = calls w ++ (Apply <$> buildable env intents)
    /\ events w' = events w ++ (cronJobWarning <$> failures)
    /\ Status_Repos w' = Status_Repos w
    /\ Status_Conditions w' = Status_Conditions w
    /\ Status_RepoHost w' = Status_RepoHost w.
Proof.
  intros intents failures.
  destruct (cronJobLoop_run env cluster (Spec_Repos cluster) false w)
    as (w' & Hrun & H).
  exists w'. split; [|exact H].
  unfold reconcilePGBackRestCronJob. rewrite Hrun. fold intents failures.
  by destruct failures.
Qed.

Lemma X8_witness :
  exists w',
    reconcilePGBackRestCronJob Fixtures.refusing Fixtures.scheduled
      Fixtures.empty = Some (true, w')
    /\ calls w'
       = [Apply (CronJobIntent "repo1" full "0 1 * * 0");
          Apply (CronJobIntent "repo1" incremental "0 1 * * 1-6")]
    /\ events w'
       = [cronJobWarning "forbidden: exceeded quota";
          cronJobWarning "forbidden: exceeded quota"]
    /\ Status_Repos w' = []
    /\ Status_Conditions w' = []
    /\ Status_RepoHost w' = None.
Proof.
  exact (X8_cron_jobs_created_despite_failures Fixtures.refusing
           Fixtures.scheduled Fixtures.empty).
Defined.

Lemma scheduledBackups_found (repo : PGBackRestRepo) (job : string * string * string) :
  job ∈ scheduledBackups repo ->
  job.1.1 = repo_Name repo
  /\ backupScheduleFound repo job.1.2 = true
  /\ declaredSchedule repo job.1.2 = Some job.2.
Proof.
  unfold scheduledBackups, backupScheduleFound, declaredSchedule.
  destruct (repo_BackupSchedules repo) as [[f d i]|]; simpl;
    [|by intros ?%elem_of_nil].
  rewrite !elem_of_app.
  intros [H|[H|H]]; [destruct f|destruct d|destruct i];
    try (by apply elem_of_nil in H);
    apply list_elem_of_singleton in H as ->; done.
Qed.

Lemma find_first_of_name (repos : list PGBackRestRepo) (repo : PGBackRestRepo) :
  NoDup (repo_Name <$> repos) ->
  repo ∈ repos ->
  find (fun r => String.eqb (repo_Name r) (repo_Name repo)) repos = Some repo.
Proof.
  induction repos as [|r repos IH]; simpl; [by intros _ ?%elem_of_nil|].
  intros [Hnotin Hnd]%NoDup_cons [->|Hin]%elem_of_cons.
  - by rewrite String.eqb_refl.
  - destruct (String.eqb (repo_Name r) (repo_Name repo)) eqn:E; [|by apply IH].
    apply String.eqb_eq in E. exfalso. apply Hnotin. rewrite E.
    by apply list_elem_of_fmap_2.
Qed.

(** X9. Every CronJob that reconcilePGBackRestCronJob applies is for a
    repository of the spec, a backup type for which backupScheduleFound
    holds on that repository, and the schedule that repository declares
    for the type.  When the names of the repositories of the spec are
    pairwise distinct, the [switch] of cleanupRepoResources keeps an
    object that bears the labels of that CronJob. *)
Theorem X9_cron_jobs_only_for_declared_schedules (env : Env)
    (cluster : PostgresCluster) (w : World) (requeue : bool) (w' : World)
    (repoName backupType schedule : string) :
  reconcilePGBackRestCronJob env cluster w = Some (requeue, w') ->
  Apply (CronJobIntent repoName backupType schedule)
    ∈ drop (length (calls w)) (calls w') ->
  (exists repo,
     repo ∈ Spec_Repos cluster
     /\ repo_Name repo = repoName
     /\ backupScheduleFound repo backupType = true
     /\ declaredSchedule repo backupType = Some schedule)
  /\ (NoDup (repo_Name <$> Spec_Repos cluster) ->
      forall o,
        labelledCronJob env repoName backupType o ->
        retained env cluster o = ([o], false)).
Proof.
  intros Hrun.
  destruct (cronJobLoop_run env cluster (Spec_Repos cluster) false w)
    as (w2 & Hrun2 & Hcalls & _).
  unfold reconcilePGBackRestCronJob in Hrun. rewrite Hrun in Hrun2.
  injection Hrun2 as _ <-. rewrite Hcalls, drop_app_length.
  intros (i & [= <-] & Hi)%list_elem_of_fmap.
  apply list_elem_of_filter in Hi as [_ Hi].
  apply list_elem_of_fmap in Hi as ([[n t] s] & [= -> -> ->] & Hjob).
  apply list_elem_of_In, in_flat_map in Hjob as (repo & Hrepo & Hjob).
  apply list_elem_of_In in Hrepo, Hjob.
  apply scheduledBackups_found in Hjob as (Hn & Hf & Hs). simpl in *.
  split; [by exists repo|].
  intros Hnd o (H1 & H2 & H3 & H4 & H5 & Hr & Hc).
  unfold retained. rewrite H1, H2, H3, H4, H5.
  unfold hasLabel at 1. rewrite Hc. simpl.
  unfold index. rewrite Hr, Hc. simpl. subst n.
  by rewrite (find_first_of_name _ _ Hnd Hrepo), Hf.
Qed.

Lemma X9_witness :
  (exists repo,
     repo ∈ Spec_Repos Fixtures.scheduled
     /\ repo_Name repo = "repo1"
     /\ backupScheduleFound repo incremental = true
     /\ declaredSchedule repo incremental = Some "0 1 * * 1-6")
  /\ retained Fixtures.accepting Fixtures.scheduled Fixtures.cronJob1
     = ([Fixtures.cronJob1], false).
Proof.
  destruct (X9_cron_jobs_only_for_declared_schedules Fixtures.accepting
              Fixtures.scheduled Fixtures.empty false
              (mkWorld None [] [] []
                 [Apply (CronJobIntent "repo1" full "0 1 * * 0");
                  Apply (CronJobIntent "repo1" incremental "0 1 * * 1-6")])
              "repo1" incremental "0 1 * * 1-6") as [Hrepo Hkept].
  - reflexivity.
  - simpl. right. left.
  - split; [exact Hrepo|]. apply Hkept.
    + repeat constructor. apply not_elem_of_nil.
    + repeat split; reflexivity.
Defined.

(** ** The repository volumes *)

Lemma volumeIntents_cons (repo : PGBackRestRepo) (repos : list PGBackRestRepo) :
  volumeIntents (repo :: repos)
  = (if repo_Volume repo then [RepoVolumeIntent (repo_Name repo)] else [])
    ++ volumeIntents repos.
Proof.
  unfold volumeIntents. rewrite filter_cons.
  destruct (repo_Volume repo); simpl; done.
Qed.

Lemma reposLoop_run env c (repos : list PGBackRestRepo) (errors : list Error)
    (vols : list (option Object)) (w : World) :
  exists errs vols' w',
    reposLoop env c repos errors vols w
    = Some ((errors ++ errs, vols ++ vols'), w')
    /\ calls w' = calls w ++ (Apply <$> buildable env (volumeIntents repos))
    /\ Status_Repos w' = Status_Repos w
    /\ Status_RepoHost w' = Status_RepoHost w
    /\ length vols' + length errs = length (volumeIntents repos)
    /\ (neverHandled env -> Forall is_Some vols')
    /\ (forall repo, repo ∈ repos -> handledFailure env repo -> None ∈ vols').
Proof.
  revert errors vols w.
  induction repos as [|repo repos IH]; intros errors vols w; simpl.
  - exists [], [], w. unfold buildable. simpl. rewrite !app_nil_r.
    split_and!; try done. intros repo H. by apply elem_of_nil in H.
  - rewrite volumeIntents_cons.
    destruct (repo_Volume repo) eqn:Hv; simpl.
    2:{ destruct (IH errors vols w)
          as (errs & vols' & w' & Hrun & Hc & Hr & Hh & Hlen & Hnever & Hbad).
        exists errs, vols', w'. split_and!; try done.
        intros repo' [->|Hin]%elem_of_cons Hf; [|by eapply Hbad].
        destruct Hf as [Hf _]. congruence. }
    unfold mbind at 1, M_bind, applyRepoVolumeIntent.
    unfold buildable. rewrite filter_cons. fold (buildable env (volumeIntents repos)).
    destruct (intentError env (RepoVolumeIntent (repo_Name repo)))
      as [ierr|] eqn:Ei; simpl.
    + destruct (IH (errors ++ [ierr]) vols w)
        as (errs & vols' & w' & Hrun & Hc & Hr & Hh & Hlen & Hnever & Hbad).
      exists (ierr :: errs), vols', w'. unfold mret, M_ret. simpl.
      rewrite Hrun, <- app_assoc. split; [done|].
      split_and!; try done.
      * simpl. lia.
      * intros repo' [->|Hin]%elem_of_cons Hf; [|by eapply Hbad].
        destruct Hf as (_ & Hf & _). congruence.
    + unfold apply, get, modify, mbind, M_bind, mret, M_ret. simpl.
      set (call := Apply (RepoVolumeIntent (repo_Name repo))).
      destruct (ApplyResult env (calls w) (RepoVolumeIntent (repo_Name repo)))
        as [aerr|vol] eqn:Ea; simpl.
      * destruct (handlePersistentVolumeClaimError env aerr)
          as [[conds evs] [herr|]] eqn:Eh; simpl.
        -- match goal with
           | |- context [reposLoop env c repos _ _ ?w1] =>
               destruct (IH (errors ++ [herr]) vols w1)
                 as (errs & vols' & w' & Hrun & Hc & Hr & Hh & Hlen & Hnever & Hbad)
           end.
           exists (herr :: errs), vols', w'.
           rewrite Hrun, <- app_assoc. split; [done|].
           split_and!; try done.
           ++ rewrite Hc. simpl.
              clear. induction evs as [|e evs IHe] using rev_ind; simpl.
              { by rewrite <- app_assoc. }
              rewrite foldl_app. simpl. exact IHe.
           ++ rewrite Hr. simpl.
              clear. induction evs as [|e evs IHe] using rev_ind; simpl; [done|].
              rewrite foldl_app. simpl. exact IHe.
           ++ rewrite Hh. simpl.
              clear. induction evs as [|e evs IHe] using rev_ind; simpl; [done|].
              rewrite foldl_app. simpl. exact IHe.
           ++ simpl. lia.
           ++ intros repo' [->|Hin]%elem_of_cons Hf; [|by eapply Hbad].
              destruct Hf as (_ & _ & Hf). destruct (Hf (calls w)) as (e' & He' & Hn).
              rewrite Ea in He'. injection He' as <-. rewrite Eh in Hn. done.
        -- match goal with
           | |- context [reposLoop env c repos _ _ ?w1] =>
               destruct (IH errors (vols ++ [None]) w1)
                 as (errs & vols' & w' & Hrun & Hc & Hr & Hh & Hlen & Hnever & Hbad)
           end.
           exists errs, (None :: vols'), w'.
           rewrite Hrun, <- app_assoc. split; [done|].
           split_and!.
           ++ rewrite Hc. simpl.
              clear. induction evs as [|e evs IHe] using rev_ind; simpl.
              { by rewrite <- app_assoc. }
              rewrite foldl_app. simpl. exact IHe.
           ++ rewrite Hr. simpl.
              clear. induction evs as [|e evs IHe] using rev_ind; simpl; [done|].
              rewrite foldl_app. simpl. exact IHe.
           ++ rewrite Hh. simpl.
              clear. induction evs as [|e evs IHe] using rev_ind; simpl; [done|].
              rewrite foldl_app. simpl. exact IHe.
           ++ simpl. lia.
           ++ intros Hn. specialize (Hn aerr). rewrite Eh in Hn.
              by destruct Hn.
           ++ intros repo' _ _. left.
      * destruct (IH errors (vols ++ [Some vol]) (addCall call w))
          as (errs & vols' & w' & Hrun & Hc & Hr & Hh & Hlen & Hnever & Hbad).
        exists errs, (Some vol :: vols'), w'.
        rewrite Hrun, <- app_assoc. split; [done|].
        simpl in Hc. rewrite <- app_assoc in Hc.
        split_and!; try done.
        -- simpl. lia.
        -- intros Hn. constructor; [done|by apply Hnever].
        -- intros repo' [->|Hin]%elem_of_cons Hf; [|right; by eapply Hbad].
           destruct Hf as (_ & _ & Hf). destruct (Hf (calls w)) as (e' & He' & _).
           congruence.
Qed.

Lemma foldl_addEvent (evs : list Event) (w : World) :
  foldl (fun w e => addEvent e w) w evs
  = mkWorld (Status_RepoHost w) (Status_Repos w) (Status_Conditions w)
      (events w ++ evs) (calls w).
Proof.
  revert w. induction evs as [|e evs IH]; intros w; simpl.
  - rewrite app_nil_r. by destruct w.
  - rewrite IH. simpl. by rewrite <- app_assoc.
Qed.

Lemma mapM_id_Some {A : Type} (l : list A) : mapM id (Some <$> l) = Some l.
Proof. apply mapM_Some. induction l; by constructor. Qed.

Lemma buildable_one env (intent : Intent) :
  buildable env [intent]
  = match intentError env intent with
    | Some _ => []
    | None => [intent]
    end.
Proof.
  unfold buildable. rewrite filter_cons, filter_nil.
  destruct (intentError env intent); by destruct (decide _).
Qed.

Lemma reposLoop_attempts env c (repos : list PGBackRestRepo)
    (errors : list Error) (vols : list (option Object)) (w : World) :
  neverHandled env ->
  let volumes := attempts env (calls w) (volumeIntents repos) in
  exists w',
    reposLoop env c repos errors vols w
    = Some ((errors ++ omap (volumeFailure env) volumes,
             vols ++ (Some <$> omap answer volumes)), w')
    /\ calls w' = calls w ++ (Apply <$> buildable env (volumeIntents repos))
    /\ Status_Repos w' = Status_Repos w
    /\ Status_RepoHost w' = Status_RepoHost w
    /\ Status_Conditions w'
       = foldl SetStatusCondition (Status_Conditions w)
           (flat_map (fun a => (volumeHandling env a).1) volumes)
    /\ events w'
       = events w ++ flat_map (fun a => (volumeHandling env a).2) volumes.
Proof.
  intros Hnever. cbv zeta. revert errors vols w.
  induction repos as [|repo repos IH]; intros errors vols w.
  { exists w. unfold buildable. simpl. rewrite !app_nil_r. by split_and!. }
  rewrite volumeIntents_cons. cbn [reposLoop].
  destruct (repo_Volume repo) eqn:Hv; cbn [negb app].
  2:{ exact (IH errors vols w). }
  set (intent := RepoVolumeIntent (repo_Name repo)).
  change (intent :: volumeIntents repos) with ([intent] ++ volumeIntents repos).
  rewrite buildable_app, fmap_app, app_assoc.
  cbn [app attempts omap list_omap flat_map fmap list_fmap].
  unfold mbind at 1, M_bind, applyRepoVolumeIntent. fold intent.
  rewrite buildable_one.
  destruct (intentError env intent) as [ierr|] eqn:Ei.
  - assert (Ha : forall history, applyAttempt env history intent = inl ierr)
      by (intros; unfold applyAttempt; by rewrite Ei).
    rewrite !Ha.
    assert (Hf : volumeFailure env (intent, inl ierr) = Some ierr)
      by (unfold volumeFailure; simpl; by rewrite Ei).
    assert (Hg : volumeHandling env (intent, inl ierr) = ([], []))
      by (unfold volumeHandling; simpl; by rewrite Ei).
    rewrite Hf, !Hg. unfold answer at 1.
    cbn [fst snd fmap list_fmap app]. rewrite !app_nil_r.
    unfold mret, M_ret.
    destruct (IH (errors ++ [ierr]) vols w)
      as (w' & -> & Hc & Hr & Hh & Hd & He).
    exists w'. rewrite <- app_assoc. by split_and!.
  - assert (Ha : forall history,
               applyAttempt env history intent = ApplyResult env history intent)
      by (intros; unfold applyAttempt; by rewrite Ei).
    rewrite !Ha.
    unfold apply, get, modify, mbind, M_bind, mret, M_ret. cbn [fmap list_fmap].
    destruct (ApplyResult env (calls w) intent) as [aerr|vol] eqn:Ea.
    + assert (Hf : volumeFailure env (intent, inl aerr)
                   = (handlePersistentVolumeClaimError env aerr).2)
        by (unfold volumeFailure; simpl; by rewrite Ei).
      assert (Hg : volumeHandling env (intent, inl aerr)
                   = (handlePersistentVolumeClaimError env aerr).1)
        by (unfold volumeHandling; simpl; by rewrite Ei).
      rewrite Hf, !Hg. unfold answer at 1.
      destruct (Hnever aerr) as [herr Hh0].
      destruct (handlePersistentVolumeClaimError env aerr)
        as [[conds evs] oerr] eqn:Eh.
      simpl in Hh0. subst oerr. cbn [fst snd].
      rewrite foldl_addEvent.
      match goal with
      | |- context [reposLoop env c repos _ _ ?w1] =>
          destruct (IH (errors ++ [herr]) vols w1)
            as (w' & -> & Hc & Hr & Hh & Hd & He)
      end.
      cbn [Status_RepoHost Status_Repos Status_Conditions events calls
             setConditions addCall] in *.
      exists w'.
      split_and!; rewrite ?Hc, ?Hd, ?He, ?foldl_app, <- ?app_assoc; done.
    + assert (Hf : volumeFailure env (intent, inr vol) = None) by done.
      assert (Hg : volumeHandling env (intent, inr vol) = ([], [])) by done.
      rewrite Hf, !Hg. unfold answer at 1. cbn [fst snd].
      destruct (IH errors (vols ++ [Some vol]) (addCall (Apply intent) w))
        as (w' & -> & Hc & Hr & Hh & Hd & He).
      cbn [Status_RepoHost Status_Repos Status_Conditions events calls
             addCall] in *.
      exists w'. cbn [fmap list_fmap app].
      split_and!; rewrite ?Hc, ?Hd, ?He, <- ?app_assoc; done.
Qed.
Lemma attempts_length env (history : list Call) (intents : list Intent) :
  length (attempts env history intents) = length intents.
Proof.
  revert history. induction intents as [|x intents IH]; intros history; simpl;
    [done|]. by rewrite IH.
Qed.

Lemma volume_or_error env (volumes : list (Intent * (Error + Object))) :
  neverHandled env ->
  length (omap answer volumes) + length (omap (volumeFailure env) volumes)
  = length volumes.
Proof.
  intros Hnever. induction volumes as [|[intent [err|o]] volumes IH];
    [done| |].
  - cbn [omap list_omap]. unfold answer at 1, volumeFailure at 1. cbn [fst snd].
    destruct (intentError env intent); [simpl in *; lia|].
    destruct (Hnever err) as [e ->]. simpl in *. lia.
  - cbn [omap list_omap]. unfold answer at 1, volumeFailure at 1.
    simpl in *. lia.
Qed.

(** X10. When [handlePersistentVolumeClaimError] never turns an error
    into nil, reconcileRepos returns, having attempted the volume of
    every repository of the spec that declares one, in order, none
    held back by the outcome of the ones before; its calls are the
    applies of the volumes whose manifest can be built.  The statuses
    are rebuilt by getRepoVolumeStatus from the claims the store
    answered, in order; the errors are those of the attempts that
    failed, in order (an error of the store as
    [handlePersistentVolumeClaimError] returns it), and each attempt
    gave a claim or an error.  Without an error the name of the first
    repository of the spec is returned; with one, the empty name and
    the aggregate of the errors.  The conditions and the events are
    those [handlePersistentVolumeClaimError] wrote. *)
Theorem X10_every_volume_is_attempted (env : Env) (c : PostgresCluster)
    (extConfigHashes : gmap string string) (w : World) :
  neverHandled env ->
  let replicaCreateRepoName :=
    match Spec_Repos c with
    | repo :: _ => repo_Name repo
    | [] => ""
    end in
  let volumes := attempts env (calls w) (volumeIntents (Spec_Repos c)) in
  let repoVols := omap answer volumes in
  let errors := omap (volumeFailure env) volumes in
  exists w',
    reconcileRepos env c extConfigHashes w
    = Some (match errors with
            | [] => (replicaCreateRepoName, None)
            | _ => ("", Some (NewAggregate env errors))
            end, w')
    /\ calls w'
       = calls w ++ (Apply <$> buildable env (volumeIntents (Spec_Repos c)))
    /\ Status_Repos w'
       = getRepoVolumeStatus (LabelPGBackRestRepo env) (Status_Repos w)
           repoVols extConfigHashes replicaCreateRepoName
    /\ length repoVols + length errors = length (volumeIntents (Spec_Repos c))
    /\ Status_RepoHost w' = Status_RepoHost w
    /\ Status_Conditions w'
       = foldl SetStatusCondition (Status_Conditions w)
           (flat_map (fun a => (volumeHandling env a).1) volumes)
    /\ events w'
       = events w ++ flat_map (fun a => (volumeHandling env a).2) volumes.
Proof.
  intros Hnever name0 volumes repoVols errors.
  destruct (reposLoop_attempts env c (Spec_Repos c) [] [] w Hnever)
    as (w1 & Hrun & Hc & Hr & Hh & Hd & He).
  fold volumes in Hrun, Hd, He. fold repoVols errors in Hrun.
  simpl in Hrun.
  exists (setRepos (getRepoVolumeStatus (LabelPGBackRestRepo env)
                      (Status_Repos w1) repoVols extConfigHashes name0) w1).
  split.
  { unfold reconcileRepos. fold name0. unfold mbind at 1, M_bind.
    rewrite Hrun. simpl. rewrite mapM_id_Some.
    unfold mbind, M_bind, get, modify, mret, M_ret. by destruct errors. }
  simpl. rewrite Hr. split_and!; try done.
  unfold repoVols, errors. rewrite volume_or_error by done.
  apply attempts_length.
Qed.

Lemma X10_witness :
  exists w',
    reconcileRepos Fixtures.refusing Examples.hippo ∅ Fixtures.empty
    = Some (("", Some "forbidden: exceeded quota"), w')
    /\ calls w' = [Apply (RepoVolumeIntent "repo1")]
    /\ Status_Repos w' = getRepoVolumeStatus Examples.labelRepo [] [] ∅ "repo1"
    /\ 0 + 1 = 1
    /\ Status_RepoHost w' = None
    /\ Status_Conditions w' = []
    /\ events w' = [].
Proof.
  apply (X10_every_volume_is_attempted Fixtures.refusing Examples.hippo ∅
           Fixtures.empty).
  intros err. simpl. eauto.
Defined.

(** X11. When the apply of the volume of some repository of the spec
    fails and [handlePersistentVolumeClaimError] turns the failure into
    nil, applyRepoVolumeIntent returns a nil claim with a nil error,
    reconcileRepos appends it, and getRepoVolumeStatus reads its labels:
    reconcileRepos panics. *)
Theorem X11_handled_volume_error_panics (env : Env) (c : PostgresCluster)
    (extConfigHashes : gmap string string) (w : World) (repo : PGBackRestRepo) :
  repo ∈ Spec_Repos c ->
  handledFailure env repo ->
  reconcileRepos env c extConfigHashes w = None.
Proof.
  intros Hin Hbad.
  destruct (reposLoop_run env c (Spec_Repos c) [] [] w)
    as (errs & vols' & w1 & Hrun & _ & _ & _ & _ & _ & Hnone).
  simpl in Hrun. specialize (Hnone repo Hin Hbad).
  unfold reconcileRepos, mbind at 1, M_bind. rewrite Hrun. simpl.
  destruct (mapM id vols') as [vs|] eqn:Hvs; [|done].
  exfalso. assert (His : is_Some (mapM id vols')) by eauto.
  apply mapM_is_Some in His. rewrite Forall_forall in His.
  apply His in Hnone. by destruct Hnone.
Qed.

Lemma X11_witness :
  reconcileRepos Fixtures.handling Examples.hippo ∅ Fixtures.empty = None.
Proof.
  apply (X11_handled_volume_error_panics Fixtures.handling Examples.hippo ∅
           Fixtures.empty (mkRepo "repo1" true None)).
  - left.
  - split_and!; [reflexivity|reflexivity|].
    intros history. eexists. split; reflexivity.
Defined.
(** ** The configuration and the roles *)

Lemma applyInOrder_prefix env (history : list Call) (intents : list Intent) :
  (applyInOrder env history intents).1 `prefix_of` intents.
Proof.
  revert history. induction intents as [|x intents IH]; intros history;
    [done|].
  cbn [applyInOrder]. unfold applyAttempt. rewrite buildable_one.
  destruct (intentError env x); [apply prefix_nil|].
  destruct (ApplyResult env history x); [by apply prefix_cons, prefix_nil|].
  specialize (IH (history ++ [Apply x])).
  destruct (applyInOrder env (history ++ [Apply x]) intents).
  by apply prefix_cons.
Qed.

Lemma applyInOrder_all env (history : list Call) (intents : list Intent) :
  (applyInOrder env history intents).2 = None ->
  (applyInOrder env history intents).1 = intents.
Proof.
  revert history. induction intents as [|x intents IH]; intros history;
    [done|].
  cbn [applyInOrder]. unfold applyAttempt.
  destruct (intentError env x); [done|].
  destruct (ApplyResult env history x); [done|].
  specialize (IH (history ++ [Apply x])).
  destruct (applyInOrder env (history ++ [Apply x]) intents).
  simpl in *. intros H. by rewrite IH.
Qed.

Ltac applies :=
  repeat match goal with
    | |- context [intentError ?env ?i] =>
        destruct (intentError env i) eqn:?; simpl
    | |- context [ApplyResult ?env ?h ?i] =>
        destruct (ApplyResult env h i) eqn:?; simpl
    end.

Ltac applied_in_order :=
  eexists; split_and!;
  [ reflexivity
  | simpl; rewrite ?app_nil_r, <- ?app_assoc; reflexivity
  | by repeat split ].

(** X12. reconcilePGBackRestConfig always returns, and does what
    applying in order up to the first failure does on the pgBackRest
    ConfigMap followed, only when the spec has a repository host, by
    the SSH ConfigMap and the SSH Secret: its calls are the applies of
    the intents that reached the store, its error is that of the first
    attempt that failed, nothing but the trace changes.  What it
    applied is a prefix of that list, and the whole of it when the
    error is nil. *)
Theorem X12_config_applied_in_order (env : Env) (c : PostgresCluster)
    (repoHostName configHash : string) (instanceNames : list string)
    (sshSecret : option Object) (w : World) :
  let config := PGBackRestConfigMapIntent repoHostName configHash instanceNames in
  let wanted :=
    match Spec_RepoHost c with
    | Some _ => [config; SSHConfigMapIntent; SSHSecretIntent sshSecret]
    | None => [config]
    end in
  let outcome := applyInOrder env (calls w) wanted in
  exists w',
    reconcilePGBackRestConfig env c repoHostName configHash instanceNames
      sshSecret w = Some (outcome.2, w')
    /\ calls w' = calls w ++ (Apply <$> outcome.1)
    /\ sameButCalls w w'
    /\ outcome.1 `prefix_of` wanted
    /\ (outcome.2 = None -> outcome.1 = wanted).
Proof.
  intros config wanted outcome.
  assert (exists w',
    reconcilePGBackRestConfig env c repoHostName configHash instanceNames
      sshSecret w = Some (outcome.2, w')
    /\ calls w' = calls w ++ (Apply <$> outcome.1)
    /\ sameButCalls w w') as (w' & H1 & H2 & H3).
  2:{ exists w'. split_and!; try done;
        [apply applyInOrder_prefix|apply applyInOrder_all]. }
  clear. unfold outcome, wanted, reconcilePGBackRestConfig, applyOrError,
    apply, get, modify, mbind, M_bind, mret, M_ret.
  fold config. clearbody config.
  destruct (Spec_RepoHost c); cbn [applyInOrder]; unfold applyAttempt;
    rewrite ?buildable_one; applies; applied_in_order.
Qed.

Lemma X12_witness :
  exists w',
    reconcilePGBackRestConfig Fixtures.accepting Fixtures.dedicated
      "hippo-repo-host" "hash" ["hippo-instance1-abcd"] None Fixtures.empty
    = Some (None, w')
    /\ calls w'
       = [Apply (PGBackRestConfigMapIntent "hippo-repo-host" "hash"
                   ["hippo-instance1-abcd"]);
          Apply SSHConfigMapIntent; Apply (SSHSecretIntent None)]
    /\ sameButCalls Fixtures.empty w'
    /\ [PGBackRestConfigMapIntent "hippo-repo-host" "hash" ["hippo-instance1-abcd"];
        SSHConfigMapIntent; SSHSecretIntent None]
       `prefix_of`
       [PGBackRestConfigMapIntent "hippo-repo-host" "hash" ["hippo-instance1-abcd"];
        SSHConfigMapIntent; SSHSecretIntent None]
    /\ (@None Error = None ->
        [PGBackRestConfigMapIntent "hippo-repo-host" "hash" ["hippo-instance1-abcd"];
         SSHConfigMapIntent; SSHSecretIntent None]
        = [PGBackRestConfigMapIntent "hippo-repo-host" "hash" ["hippo-instance1-abcd"];
           SSHConfigMapIntent; SSHSecretIntent None]).
Proof.
  exact (X12_config_applied_in_order Fixtures.accepting Fixtures.dedicated
           "hippo-repo-host" "hash" ["hippo-instance1-abcd"] None
           Fixtures.empty).
Defined.

(** X13. reconcilePGBackRestRBAC always returns.  When the controller
    reference of the service account, the role binding or the role
    cannot be set, it returns the first of these errors, in that
    order, with a nil service account and without a call.  Otherwise
    it does what applying in order up to the first failure does on the
    service account, the role and the role binding: its calls are the
    applies that reached the store, its error is that of the first
    apply that failed, and it returns a service account, the one the
    store answered, exactly when that error is nil.  Nothing but the
    trace changes. *)
Theorem X13_rbac_all_or_error (env : Env) (c : PostgresCluster) (w : World) :
  let references :=
    omap (intentError env)
      [ServiceAccountIntent; RoleBindingIntent; RoleIntent] in
  let outcome :=
    applyInOrder env (calls w)
      [ServiceAccountIntent; RoleIntent; RoleBindingIntent] in
  match references with
  | err :: _ => reconcilePGBackRestRBAC env c w = Some ((None, Some err), w)
  | [] =>
      exists w',
        reconcilePGBackRestRBAC env c w
        = Some ((match outcome.2 with
                 | Some _ => None
                 | None =>
                     answer (ServiceAccountIntent,
                             ApplyResult env (calls w) ServiceAccountIntent)
                 end, outcome.2), w')
        /\ calls w' = calls w ++ (Apply <$> outcome.1)
        /\ sameButCalls w w'
  end.
Proof.
  cbv zeta. cbn [omap list_omap applyInOrder].
  unfold reconcilePGBackRestRBAC, applyAttempt, answer,
    apply, get, modify, mbind, M_bind, mret, M_ret.
  rewrite ?buildable_one.
  destruct (intentError env ServiceAccountIntent) eqn:E1; [done|].
  destruct (intentError env RoleBindingIntent) eqn:E2; [done|].
  destruct (intentError env RoleIntent) eqn:E3; [done|].
  simpl. applies; applied_in_order.
Qed.

Lemma X13_witness :
  exists w',
    reconcilePGBackRestRBAC Fixtures.refusing Examples.hippo Fixtures.empty
    = Some ((None, Some "forbidden: exceeded quota"), w')
    /\ calls w' = [Apply ServiceAccountIntent]
    /\ sameButCalls Fixtures.empty w'.
Proof.
  exact (X13_rbac_all_or_error Fixtures.refusing Examples.hippo Fixtures.empty).
Defined.

(** ** The replica-create backup, other paths *)

Lemma replicaCreateRepoStatusPtr_deref (repos : list RepoStatus) (name : string)
    (w : World) :
  Status_Repos w = repos ->
  deref (replicaCreateRepoStatusPtr repos name) w
  = snd <$> list_find (fun r => Name r = name) repos.
Proof.
  intros <-. unfold replicaCreateRepoStatusPtr, deref.
  destruct (list_find _ _) as [[i rs]|] eqn:E; simpl; [|done].
  by apply list_find_Some in E as [? _].
Qed.

Lemma replicaCreateBackup_noop (env : Env) (c : PostgresCluster)
    (jobs : list Object) (serviceAccount : option Object)
    (configHash name : string) (w : World) :
  let status := snd <$> list_find (fun r => Name r = name) (Status_Repos w) in
  ClusterBootstrapped env c = false
  \/ status = None
  \/ ReplicaCreateBackupComplete <$> status = Some true ->
  exists w',
    reconcileReplicaCreateBackup env c jobs serviceAccount configHash name w
    = Some (None, w')
    /\ calls w' = calls w
    /\ events w' = events w
    /\ Status_Repos w' = Status_Repos w
    /\ Status_RepoHost w' = Status_RepoHost w
    /\ Status_Conditions w'
       = SetStatusCondition (Status_Conditions w) (replicaCreateCondition c status).
Proof.
  intros status H.
  unfold reconcileReplicaCreateBackup, defer, replicaCreateBackupBody,
    get, mbind, M_bind, mret, M_ret.
  pose proof (replicaCreateRepoStatusPtr_deref (Status_Repos w) name w eq_refl)
    as Hd. fold status in Hd. rewrite Hd.
  assert (Hbody :
    match negb (ClusterBootstrapped env c), status with
    | true, _ | _, None => true
    | false, Some rs => ReplicaCreateBackupComplete rs
    end = true).
  { destruct H as [->|[->|H]]; simpl; [done|by destruct (negb _)|].
    destruct status as [rs|]; [|by destruct (negb _)].
    injection H as ->. by destruct (negb _). }
  destruct (negb (ClusterBootstrapped env c)), status as [rs|];
    try (rewrite Hbody); rewrite replicaCreateBackupDeferred_run;
    (eexists; split; [reflexivity|]);
    unfold afterReplicaCreateBackup; simpl; rewrite ?Hd; done.
Qed.

(** X14. reconcileReplicaCreateBackup does nothing but write its
    condition when the cluster is not bootstrapped, or the
    replica-create repository has no status, or its backup is already
    complete: it returns nil, makes no call, records no event, leaves
    the repository statuses as they are, and upserts ReplicaCreate as
    Unknown without a status, True with a complete backup and False
    otherwise. *)
Theorem X14_replica_create_backup_noop (env : Env) (c : PostgresCluster)
    (jobs : list Object) (serviceAccount : option Object)
    (configHash name : string) (w : World) :
  let status := snd <$> list_find (fun r => Name r = name) (Status_Repos w) in
  ClusterBootstrapped env c = false
  \/ status = None
  \/ ReplicaCreateBackupComplete <$> status = Some true ->
  exists w',
    reconcileReplicaCreateBackup env c jobs serviceAccount configHash name w
    = Some (None, w')
    /\ calls w' = calls w
    /\ events w' = events w
    /\ Status_Repos w' = Status_Repos w
    /\ Status_RepoHost w' = Status_RepoHost w
    /\ Status_Conditions w'
       = SetStatusCondition (Status_Conditions w) (replicaCreateCondition c status).
Proof. exact (replicaCreateBackup_noop env c jobs serviceAccount configHash name w). Qed.

Lemma X14_witness :
  exists w',
    reconcileReplicaCreateBackup Fixtures.accepting Examples.hippo
      [Examples.job2] None "hash" "repo7" Fixtures.empty = Some (None, w')
    /\ calls w' = []
    /\ events w' = []
    /\ Status_Repos w' = []
    /\ Status_RepoHost w' = None
    /\ Status_Conditions w'
       = SetStatusCondition [] (replicaCreateCondition Examples.hippo None).
Proof.
  apply (X14_replica_create_backup_noop Fixtures.accepting Examples.hippo
           [Examples.job2] None "hash" "repo7" Fixtures.empty).
  right. left. reflexivity.
Defined.

Section ReplicaCreateBackupMore.

Variables (env : Env) (c : PostgresCluster).
Variables (jobs : list Object) (serviceAccount : option Object).
Variables (configHash name : string) (w : World).
Variables (selector containerName : string) (i : nat) (rs : RepoStatus).
Variable pod : Object.

Hypothesis Hboot : ClusterBootstrapped env c = true.
Hypothesis Hptr :
list_find (fun r => Name r = name) (Status_Repos w) = Some (i, rs).
Hypothesis Hincomplete : ReplicaCreateBackupComplete rs = false.
Hypothesis Hsel : getPGBackRestExecSelector env c = inr (selector, containerName).
Hypothesis Hlist :
ListResult env (calls w) "PodList" (cluster_Namespace c) selector = inr [pod].

Let listPods := List "PodList" (cluster_Namespace c) selector.
Let configName :=
if DedicatedRepoHostEnabled env c then CMRepoKey env
else index (GetLabels pod) (LabelInstance env) +:+ ".conf".
Let ready :=
dedicatedRepoReady (Status_Conditions w) && replicaRepoReady (Status_Conditions w).

Lemma replicaCreateBackup_completed_job (job : Object) (rest : list Object) :
jobs = job :: rest ->
jobOutdated env job name configName configHash = false ->
jobCompleted env job = true ->
reconcileReplicaCreateBackup env c jobs serviceAccount configHash name w
= Some (None,
        afterReplicaCreateBackup c (Some i)
          (setRepos (alter (setReplicaCreateBackupComplete true) i
                       (Status_Repos w))
             (addCall listPods w))).
Proof.
intros -> Hout Hdone.
destruct (replicaCreateRepoStatusPtr_Some _ _ _ _ Hptr) as [Hp Hi].
run. rewrite Hp, Hboot. simpl. rewrite Hi, Hincomplete, Hsel. simpl.
rewrite Hlist. simpl. fold configName. rewrite Hdone, Hout. simpl. done.
Qed.

Lemma replicaCreateBackup_current_job (job : option Object) :
match job with
| None => jobs = []
| Some job =>
    exists rest, jobs = job :: rest
                 /\ jobOutdated env job name configName configHash = false
                 /\ jobCompleted env job = false
end ->
ready = true ->
reconcileReplicaCreateBackup env c jobs serviceAccount configHash name w
= defer (replicaCreateBackupDeferred c (Some i))
    (applyBackupJob env c job serviceAccount selector containerName
       configName configHash name)
    (addCall listPods w).
Proof.
intros Hjob Hready.
destruct (replicaCreateRepoStatusPtr_Some _ _ _ _ Hptr) as [Hp Hi].
unfold ready in Hready. apply andb_true_iff in Hready as [Hd Hr].
unfold reconcileReplicaCreateBackup, replicaCreateBackupBody, defer,
  Client_List, Client_Delete, get, modify, mbind, M_bind, mret, M_ret.
simpl. rewrite Hp, Hboot. simpl. rewrite Hi, Hincomplete, Hsel. simpl.
rewrite Hlist. simpl. fold configName. rewrite Hd, Hr. simpl.
destruct job as [job|].
- destruct Hjob as (rest & -> & Hout & Hdone). rewrite Hdone, Hout.
  unfold jobOutdated in Hout. apply orb_false_iff in Hout as [Hout _].
  apply orb_false_iff in Hout as [Hout _].
  apply orb_false_iff in Hout as [Hfail _]. rewrite Hfail. simpl. done.
- rewrite Hjob. done.
Qed.

Lemma replicaCreateBackup_not_ready :
ready = false ->
exists r w',
  reconcileReplicaCreateBackup env c jobs serviceAccount configHash name w
  = Some (r, w')
  /\ forall intent, Apply intent ∉ drop (length (calls w)) (calls w').
Proof.
intros Hready.
destruct (replicaCreateRepoStatusPtr_Some _ _ _ _ Hptr) as [Hp Hi].
assert (Hnr : negb (dedicatedRepoReady (Status_Conditions w))
              || negb (replicaRepoReady (Status_Conditions w)) = true).
{ unfold ready in Hready. by destruct (dedicatedRepoReady _), (replicaRepoReady _). }
assert (Hno : forall (l : list Call) intent,
          Forall (fun call => match call with Apply _ => False | _ => True end) l ->
          Apply intent ∉ l).
{ intros l intent Hl Hin. rewrite Forall_forall in Hl. by apply Hl in Hin. }
unfold reconcileReplicaCreateBackup, replicaCreateBackupBody, defer,
  Client_List, Client_Delete, get, modify, mbind, M_bind, mret, M_ret.
simpl. rewrite Hp, Hboot. simpl. rewrite Hi, Hincomplete, Hsel. simpl.
rewrite Hlist. simpl. fold configName. rewrite Hnr.
destruct jobs as [|job rest]; simpl.
{ rewrite ?replicaCreateBackupDeferred_run. eexists _, _.
  split; [reflexivity|]. simpl. rewrite drop_app_length.
  intros intent. apply Hno. by repeat constructor. }
rewrite andb_true_r.
destruct (negb (jobCompleted env job) && negb (jobFailed env job)) eqn:Erun;
  simpl.
- destruct (DeleteResult env _ job _) as [err|] eqn:Ed; simpl.
  { rewrite ?replicaCreateBackupDeferred_run. eexists _, _.
    split; [reflexivity|]. simpl. rewrite <- app_assoc, drop_app_length.
    intros intent. apply Hno. by repeat constructor. }
  destruct (jobOutdated env job name configName configHash); simpl.
  { rewrite ?replicaCreateBackupDeferred_run. eexists _, _.
    split; [reflexivity|]. simpl. rewrite <- !app_assoc, drop_app_length.
    intros intent. apply Hno. by repeat constructor. }
  destruct (jobCompleted env job); simpl;
    rewrite ?replicaCreateBackupDeferred_run; eexists _, _;
    (split; [reflexivity|]); simpl; rewrite <- !app_assoc, drop_app_length;
    intros intent; apply Hno; by repeat constructor.
- destruct (jobOutdated env job name configName configHash); simpl.
  { rewrite ?replicaCreateBackupDeferred_run. eexists _, _.
    split; [reflexivity|]. simpl. rewrite <- !app_assoc, drop_app_length.
    intros intent. apply Hno. by repeat constructor. }
  destruct (jobCompleted env job); simpl;
    rewrite ?replicaCreateBackupDeferred_run; eexists _, _;
    (split; [reflexivity|]); simpl; rewrite <- ?app_assoc, drop_app_length;
    intros intent; apply Hno; by repeat constructor.
Qed.

End ReplicaCreateBackupMore.

(** X15. When reconcileReplicaCreateBackup is past its returns and the
    first existing Job is completed and current (not failed, recorded
    for the replica-create repository, with the current config name and
    config hash): the status of the replica-create repository gets
    [ReplicaCreateBackupComplete = true] and no other status changes,
    the list of Pods is the only call (the Job is neither deleted nor
    applied again), the function returns nil and ReplicaCreate becomes
    True. *)
Theorem X15_completed_job_completes_the_backup (env : Env)
    (c : PostgresCluster) (jobs : list Object) (serviceAccount : option Object)
    (configHash name : string) (w : World) (selector containerName : string)
    (i : nat) (rs : RepoStatus) (pod job : Object) (rest : list Object) :
  ClusterBootstrapped env c = true ->
  list_find (fun r => Name r = name) (Status_Repos w) = Some (i, rs) ->
  ReplicaCreateBackupComplete rs = false ->
  getPGBackRestExecSelector env c = inr (selector, containerName) ->
  ListResult env (calls w) "PodList" (cluster_Namespace c) selector = inr [pod] ->
  jobs = job :: rest ->
  jobOutdated env job name
    (if DedicatedRepoHostEnabled env c then CMRepoKey env
     else index (GetLabels pod) (LabelInstance env) +:+ ".conf")
    configHash = false ->
  jobCompleted env job = true ->
  exists w',
    reconcileReplicaCreateBackup env c jobs serviceAccount configHash name w
    = Some (None, w')
    /\ calls w' = calls w ++ [List "PodList" (cluster_Namespace c) selector]
    /\ events w' = events w
    /\ Status_Repos w' !! i = Some (setReplicaCreateBackupComplete true rs)
    /\ (forall j, j ≠ i -> Status_Repos w' !! j = Status_Repos w !! j)
    /\ FindStatusCondition (Status_Conditions w') ConditionReplicaCreate
       = Some (mkCondition ConditionReplicaCreate ConditionTrue
                 (cluster_Generation c) "RepoBackupComplete"
                 "pgBackRest replica creation is now possible").
Proof.
  intros Hboot Hptr Hinc Hsel Hlist Hjobs Hout Hdone.
  rewrite (replicaCreateBackup_completed_job env c jobs serviceAccount
             configHash name w selector containerName i rs pod Hboot Hptr Hinc
             Hsel Hlist job rest Hjobs Hout Hdone).
  destruct (replicaCreateRepoStatusPtr_Some _ _ _ _ Hptr) as [_ Hi].
  eexists. split; [reflexivity|]. simpl.
  assert (Hnew : alter (setReplicaCreateBackupComplete true) i (Status_Repos w) !! i
                 = Some (setReplicaCreateBackupComplete true rs)).
  { by rewrite list_lookup_alter_eq, Hi. }
  split_and!; try done.
  - intros j Hj. by apply list_lookup_alter_ne.
  - rewrite Hnew. simpl.
    apply (FindStatusCondition_Set (Status_Conditions w)
             (mkCondition ConditionReplicaCreate ConditionTrue
                (cluster_Generation c) "RepoBackupComplete"
                "pgBackRest replica creation is now possible")).
Qed.

Lemma X15_witness :
  let w := mkWorld None [mkRepoStatus true "repo1" "pv-1" "" true false] [] [] [] in
  exists w',
    reconcileReplicaCreateBackup Fixtures.completing Examples.hippo
      [Fixtures.job1] (Some Examples.sa) "hash" "repo1" w = Some (None, w')
    /\ calls w' = [] ++ [List "PodList" "ns" "primary"]
    /\ events w' = []
    /\ Status_Repos w' !! 0%nat = Some (mkRepoStatus true "repo1" "pv-1" "" true true)
    /\ (forall j, j ≠ 0%nat -> Status_Repos w' !! j = Status_Repos w !! j)
    /\ FindStatusCondition (Status_Conditions w') ConditionReplicaCreate
       = Some (mkCondition ConditionReplicaCreate ConditionTrue 1
                 "RepoBackupComplete"
                 "pgBackRest replica creation is now possible").
Proof.
  intros w.
  apply (X15_completed_job_completes_the_backup Fixtures.completing
           Examples.hippo [Fixtures.job1] (Some Examples.sa) "hash" "repo1" w
           "primary" "database" 0%nat
           (mkRepoStatus true "repo1" "pv-1" "" true false) Examples.pod1
           Fixtures.job1 []);
    reflexivity.
Defined.

(** X16. reconcileReplicaCreateBackup never applies a Job unless both
    readiness conditions hold: when a RepoHostReady condition is present
    and not True, or ReplicaRepoReady is absent or not True, the
    function returns, on every path, without an apply among its calls. *)
Theorem X16_no_job_unless_ready (env : Env) (c : PostgresCluster)
    (jobs : list Object) (serviceAccount : option Object)
    (configHash name : string) (w : World) :
  dedicatedRepoReady (Status_Conditions w) = false
  \/ replicaRepoReady (Status_Conditions w) = false ->
  exists r w',
    reconcileReplicaCreateBackup env c jobs serviceAccount configHash name w
    = Some (r, w')
    /\ forall intent, Apply intent ∉ drop (length (calls w)) (calls w').
Proof.
  intros Hready.
  assert (Hsame : forall intent, Apply intent ∉ drop (length (calls w)) (calls w)).
  { intros intent. rewrite drop_all. apply not_elem_of_nil. }
  assert (Hone : forall call,
            match call with Apply _ => False | _ => True end ->
            forall intent,
              Apply intent ∉ drop (length (calls w)) (calls w ++ [call])).
  { intros call Hcall intent. rewrite drop_app_length.
    intros H%list_elem_of_singleton. by subst call. }
  destruct (ClusterBootstrapped env c) eqn:Hboot.
  2:{ destruct (replicaCreateBackup_noop env c jobs serviceAccount
                  configHash name w) as (w' & -> & Hc & _); [by left|].
      eexists _, _. split; [done|]. by rewrite Hc. }
  destruct (list_find (fun r => Name r = name) (Status_Repos w))
    as [[i rs]|] eqn:Hptr.
  2:{ destruct (replicaCreateBackup_noop env c jobs serviceAccount
                  configHash name w) as (w' & -> & Hc & _).
      { right. left. by rewrite Hptr. }
      eexists _, _. split; [done|]. by rewrite Hc. }
  destruct (ReplicaCreateBackupComplete rs) eqn:Hinc.
  { destruct (replicaCreateBackup_noop env c jobs serviceAccount
                configHash name w) as (w' & -> & Hc & _).
    { right. right. rewrite Hptr. simpl. by rewrite Hinc. }
    eexists _, _. split; [done|]. by rewrite Hc. }
  destruct (replicaCreateRepoStatusPtr_Some _ _ _ _ Hptr) as [Hp Hi].
  destruct (getPGBackRestExecSelector env c) as [err|[selector containerName]]
    eqn:Hsel.
  { run. rewrite Hp, Hboot. simpl. rewrite Hi, Hinc, Hsel. simpl.
    eexists _, _. split; [reflexivity|]. exact Hsame. }
  destruct (ListResult env (calls w) "PodList" (cluster_Namespace c) selector)
    as [err|pods] eqn:Hlist.
  { run. rewrite Hp, Hboot. simpl. rewrite Hi, Hinc, Hsel. simpl. rewrite Hlist.
    eexists _, _. split; [reflexivity|]. simpl. by apply Hone. }
  destruct (decide (length pods = 1)) as [Hlen|Hlen].
  - destruct pods as [|pod [|pod' pods]]; try done.
    apply (replicaCreateBackup_not_ready env c jobs serviceAccount configHash
             name w selector containerName i rs pod Hboot Hptr Hinc Hsel Hlist).
    by destruct Hready as [->| ->]; [|rewrite andb_false_r].
  - rewrite (replicaCreateBackup_pod_count env c jobs serviceAccount configHash
               name w selector containerName i rs Hboot Hptr Hinc Hsel pods
               Hlist Hlen).
    eexists _, _. split; [reflexivity|]. simpl. by apply Hone.
Qed.

Lemma X16_witness :
  let w := mkWorld None [mkRepoStatus true "repo1" "pv-1" "" false false] [] [] [] in
  exists r w',
    reconcileReplicaCreateBackup Fixtures.accepting Examples.hippo []
      (Some Examples.sa) "hash" "repo1" w = Some (r, w')
    /\ forall intent, Apply intent ∉ drop (length (calls w)) (calls w').
Proof.
  intros w.
  apply (X16_no_job_unless_ready Fixtures.accepting Examples.hippo []
           (Some Examples.sa) "hash" "repo1" w).
  right. reflexivity.
Defined.

(** X17. The two nil reads of the Job creation.  When
    reconcileReplicaCreateBackup is past its returns, both readiness
    conditions hold and there is no Job, or the first Job is running
    and current, the function builds the Job; it panics when the
    service account pointer is nil (as it is after a failed
    reconcilePGBackRestRBAC), and, without a Job, when the spec has no
    repository. *)
Theorem X17_job_creation_panics_on_nil (env : Env) (c : PostgresCluster)
    (jobs : list Object) (serviceAccount : option Object)
    (configHash name : string) (w : World) (selector containerName : string)
    (i : nat) (rs : RepoStatus) (pod : Object) (job : option Object) :
  ClusterBootstrapped env c = true ->
  list_find (fun r => Name r = name) (Status_Repos w) = Some (i, rs) ->
  ReplicaCreateBackupComplete rs = false ->
  getPGBackRestExecSelector env c = inr (selector, containerName) ->
  ListResult env (calls w) "PodList" (cluster_Namespace c) selector = inr [pod] ->
  dedicatedRepoReady (Status_Conditions w) = true ->
  replicaRepoReady (Status_Conditions w) = true ->
  match job with
  | None => jobs = []
  | Some job =>
      exists rest,
        jobs = job :: rest
        /\ jobOutdated env job name
             (if DedicatedRepoHostEnabled env c then CMRepoKey env
              else index (GetLabels pod) (LabelInstance env) +:+ ".conf")
             configHash = false
        /\ jobCompleted env job = false
  end ->
  serviceAccount = None \/ (job = None /\ Spec_Repos c = []) ->
  reconcileReplicaCreateBackup env c jobs serviceAccount configHash name w = None.
Proof.
  intros Hboot Hptr Hinc Hsel Hlist Hd Hr Hjob Hnil.
  rewrite (replicaCreateBackup_current_job env c jobs serviceAccount configHash
             name w selector containerName i rs pod Hboot Hptr Hinc Hsel Hlist
             job Hjob); [|by rewrite Hd, Hr].
  unfold defer, applyBackupJob, mbind, M_bind, panic.
  destruct Hnil as [->|[-> ->]]; [|done].
  by destruct job, (Spec_Repos c).
Qed.

Lemma X17_witness :
  let w :=
    mkWorld None [mkRepoStatus true "repo1" "pv-1" "" true false]
      [mkCondition ConditionReplicaRepoReady ConditionTrue 1 "StanzaCreated"
         "pgBackRest replica create repo is ready for backups"] [] [] in
  reconcileReplicaCreateBackup Fixtures.accepting Examples.hippo [] None
    "hash" "repo1" w = None.
Proof.
  intros w.
  apply (X17_job_creation_panics_on_nil Fixtures.accepting Examples.hippo []
           None "hash" "repo1" w "primary" "database" 0%nat
           (mkRepoStatus true "repo1" "pv-1" "" true false) Examples.pod1 None);
    try reflexivity.
  left. reflexivity.
Defined.

(** X18. A running, current Job is applied again under its own
    identity.  When reconcileReplicaCreateBackup is past its returns,
    both readiness conditions hold, the first Job is neither completed
    nor outdated, the service account is there and the manifest can be
    built: after the list of Pods the only call is the apply of the Job
    built from the existing one; nothing is deleted and no repository
    status changes. *)
Theorem X18_running_job_is_applied_again (env : Env) (c : PostgresCluster)
    (jobs : list Object) (sa : Object)
    (configHash name : string) (w : World) (selector containerName : string)
    (i : nat) (rs : RepoStatus) (pod job : Object) (rest : list Object) :
  ClusterBootstrapped env c = true ->
  list_find (fun r => Name r = name) (Status_Repos w) = Some (i, rs) ->
  ReplicaCreateBackupComplete rs = false ->
  getPGBackRestExecSelector env c = inr (selector, containerName) ->
  ListResult env (calls w) "PodList" (cluster_Namespace c) selector = inr [pod] ->
  dedicatedRepoReady (Status_Conditions w) = true ->
  replicaRepoReady (Status_Conditions w) = true ->
  jobs = job :: rest ->
  let configName :=
    if DedicatedRepoHostEnabled env c then CMRepoKey env
    else index (GetLabels pod) (LabelInstance env) +:+ ".conf" in
  jobOutdated env job name configName configHash = false ->
  jobCompleted env job = false ->
  let intent :=
    BackupJobIntent (Some job) selector containerName name (GetName sa)
      configName configHash in
  intentError env intent = None ->
  exists err w',
    reconcileReplicaCreateBackup env c jobs (Some sa) configHash name w
    = Some (err, w')
    /\ calls w'
       = calls w ++ [List "PodList" (cluster_Namespace c) selector; Apply intent]
    /\ Status_Repos w' = Status_Repos w
    /\ events w' = events w
    /\ (err = None <->
        exists o,
          ApplyResult env
            (calls w ++ [List "PodList" (cluster_Namespace c) selector]) intent
          = inr o).
Proof.
  intros Hboot Hptr Hinc Hsel Hlist Hd Hr Hjobs configName Hout Hdone intent Hi.
  rewrite (replicaCreateBackup_current_job env c jobs (Some sa) configHash
             name w selector containerName i rs pod Hboot Hptr Hinc Hsel Hlist
             (Some job)); [|by exists rest|by rewrite Hd, Hr].
  unfold defer, applyBackupJob, applyOrError, apply, get, modify,
    mbind, M_bind, mret, M_ret.
  fold configName. fold intent.
  simpl. rewrite Hi. simpl.
  destruct (ApplyResult env _ intent) as [e|o] eqn:Ea; simpl;
    eexists _, _; (split; [reflexivity|]); simpl; rewrite <- app_assoc;
    split_and!; try done.
  - split; [done|]. by intros [o [=]].
  - split; [by eexists|done].
Qed.

Lemma X18_witness :
  let w :=
    mkWorld None [mkRepoStatus true "repo1" "pv-1" "" true false]
      [mkCondition ConditionReplicaRepoReady ConditionTrue 1 "StanzaCreated"
         "pgBackRest replica create repo is ready for backups"] [] [] in
  let intent :=
    BackupJobIntent (Some Fixtures.job1) "primary" "database" "repo1"
      "hippo-pgbackrest" "hippo-instance1-abcd.conf" "hash" in
  exists err w',
    reconcileReplicaCreateBackup Fixtures.accepting Examples.hippo
      [Fixtures.job1] (Some Examples.sa) "hash" "repo1" w = Some (err, w')
    /\ calls w' = [] ++ [List "PodList" "ns" "primary"; Apply intent]
    /\ Status_Repos w' = Status_Repos w
    /\ events w' = []
    /\ (err = None <->
        exists o,
          ApplyResult Fixtures.accepting ([] ++ [List "PodList" "ns" "primary"])
            intent = inr o).
Proof.
  intros w intent.
  apply (X18_running_job_is_applied_again Fixtures.accepting Examples.hippo
           [Fixtures.job1] Examples.sa "hash" "repo1" w "primary" "database"
           0%nat (mkRepoStatus true "repo1" "pv-1" "" true false) Examples.pod1
           Fixtures.job1 []);
    reflexivity.
Defined.

(** ** The dedicated repository host *)

Lemma insertByCreation_firstOldest (x : Object) (l hs : list Object) :
  (l = [] /\ hs = []) \/ (exists h t, l = h :: t /\ firstOldest h hs) ->
  exists h t, insertByCreation x l = h :: t /\ firstOldest h (hs ++ [x]).
Proof.
  intros [[-> ->]|(h & t & -> & front & behind & -> & Hfront & Hbehind)]; simpl.
  - exists x, []. split; [done|]. by exists [], [].
  - destruct (CreationTimestamp h <=? CreationTimestamp x)%Z eqn:E.
    + eexists _, _. split; [reflexivity|].
      exists front, (behind ++ [x]). rewrite <- app_assoc. split; [done|].
      split; [done|]. apply Forall_app. split; [done|].
      repeat constructor. lia.
    + eexists _, _. split; [reflexivity|].
      exists (front ++ h :: behind), []. split; [done|]. split; [|done].
      apply Forall_app. split; [|constructor].
      * eapply Forall_impl; [exact Hfront|]. simpl. intros. lia.
      * lia.
      * eapply Forall_impl; [exact Hbehind|]. simpl. intros. lia.
Qed.

Lemma sorted_hosts_firstOldest (hs : list Object) :
  hs ≠ [] ->
  exists h t,
    foldl (fun sorted x => insertByCreation x sorted) [] hs = h :: t
    /\ firstOldest h hs.
Proof.
  assert (H : forall hs sorted seen,
            ((sorted = [] /\ seen = [])
             \/ (exists h t, sorted = h :: t /\ firstOldest h seen)) ->
            seen ++ hs ≠ [] ->
            exists h t,
              foldl (fun sorted x => insertByCreation x sorted) sorted hs = h :: t
              /\ firstOldest h (seen ++ hs)).
  { clear hs. induction hs as [|x hs IH]; intros sorted seen Hinv Hne; simpl.
    - rewrite app_nil_r in *. destruct Hinv as [[_ ->]|Hinv]; done.
    - replace (seen ++ x :: hs) with ((seen ++ [x]) ++ hs)
        by (by rewrite <- app_assoc).
      apply IH.
      + right. by apply insertByCreation_firstOldest.
      + by destruct seen. }
  intros Hne. apply (H hs [] []); [by left|done].
Qed.

Lemma firstOldest_unique (a b : Object) (hs : list Object) :
  firstOldest a hs -> firstOldest b hs -> a = b.
Proof.
  intros (f1 & b1 & -> & Hf1 & Hb1) (f2 & b2 & Heq & Hf2 & Hb2).
  revert f2 Heq Hf2. induction f1 as [|x f1 IH]; intros [|y f2] Heq Hf2;
    simpl in Heq.
  - congruence.
  - injection Heq as -> ->. exfalso.
    apply Forall_cons in Hf2 as [Hlt _].
    apply Forall_app in Hb1 as [_ Hb1]. apply Forall_cons in Hb1 as [Hle _].
    lia.
  - injection Heq as -> <-. exfalso.
    apply Forall_cons in Hf1 as [Hlt _].
    apply Forall_app in Hb2 as [_ Hb2]. apply Forall_cons in Hb2 as [Hle _].
    lia.
  - injection Heq as -> Heq.
    apply Forall_cons in Hf1 as [_ Hf1]. apply Forall_cons in Hf2 as [_ Hf2].
    by apply (IH Hf1 f2).
Qed.

(** X19. Of several existing repository hosts, at most 6 (a slice that
    every version of [sort.Slice] sorts by insertion), the one that
    counts is the first that no other was created before, also among
    hosts of equal creation time.  When the intent under the name of
    that host can be built and the store answers a StatefulSet whose
    [Spec.Replicas] is set, reconcileDedicatedRepoHost applies the
    intent under that name and nothing else, returns the answer,
    records no event, stores whether the ready replicas equal the
    wanted ones and publishes that as RepoHostReady; it behaves as it
    does when given that host alone. *)
Theorem X19_oldest_host_is_reconciled (env : Env) (c : PostgresCluster)
    (repoResources : RepoResources) (host : Object) (w : World)
    (repoHost : Object) (replicas : Z) :
  firstOldest host (hosts repoResources) ->
  length (hosts repoResources) <= 6 ->
  let intent := RepoHostIntent (GetName host) in
  intentError env intent = None ->
  ApplyResult env (calls w) intent = inr repoHost ->
  Spec_Replicas repoHost = Some replicas ->
  let status :=
    mkRepoHostStatus (Z.eqb (Status_ReadyReplicas repoHost) replicas) in
  reconcileDedicatedRepoHost env c repoResources w
  = Some ((Some repoHost, None),
          mkWorld (Some status) (Status_Repos w)
            (SetStatusCondition (Status_Conditions w)
               (repoHostReadyCondition c (Some status)))
            (events w) (calls w ++ [Apply intent]))
  /\ reconcileDedicatedRepoHost env c repoResources w
     = reconcileDedicatedRepoHost env c (withHosts [host] repoResources) w.
Proof.
  intros Hfirst _ intent Hi Ha Hr status.
  assert (Hne : hosts repoResources ≠ []).
  { destruct Hfirst as (front & behind & -> & _). by destruct front. }
  destruct (sorted_hosts_firstOldest _ Hne) as (h & t & Hsort & Hh).
  assert (h = host) as -> by (by eapply firstOldest_unique).
  assert (Hrun : reconcileDedicatedRepoHost env c repoResources w
                 = reconcileDedicatedRepoHost env c
                     (withHosts [host] repoResources) w).
  { unfold reconcileDedicatedRepoHost, withHosts. cbn [hosts].
    destruct (hosts repoResources) as [|h0 hs] eqn:Eh; [done|].
    cbv beta iota. rewrite Hsort. done. }
  split; [|exact Hrun]. rewrite Hrun.
  unfold reconcileDedicatedRepoHost, withHosts, defer, applyRepoHostIntent,
    getRepoHostStatus, apply, Event_, panic, get, modify, mbind, M_bind,
    mret, M_ret.
  simpl. fold intent. rewrite Hi. simpl. rewrite Ha. simpl. rewrite Hr.
  reflexivity.
Qed.

Lemma X19_witness :
  let intent := RepoHostIntent "hippo-repo-host" in
  let status := mkRepoHostStatus (Z.eqb 1 1) in
  reconcileDedicatedRepoHost Fixtures.hosting Fixtures.dedicated
    (mkRepoResources [] [] [Fixtures.hostB; Fixtures.hostA; Fixtures.hostC]
       [] None None) Fixtures.empty
  = Some ((Some Fixtures.hostA, None),
          mkWorld (Some status) []
            (SetStatusCondition []
               (repoHostReadyCondition Fixtures.dedicated (Some status)))
            [] ([] ++ [Apply intent]))
  /\ reconcileDedicatedRepoHost Fixtures.hosting Fixtures.dedicated
       (mkRepoResources [] [] [Fixtures.hostB; Fixtures.hostA; Fixtures.hostC]
          [] None None) Fixtures.empty
     = reconcileDedicatedRepoHost Fixtures.hosting Fixtures.dedicated
         (mkRepoResources [] [] [Fixtures.hostA] [] None None) Fixtures.empty.
Proof.
  apply (X19_oldest_host_is_reconciled Fixtures.hosting Fixtures.dedicated
           (mkRepoResources [] [] [Fixtures.hostB; Fixtures.hostA; Fixtures.hostC]
              [] None None) Fixtures.hostA Fixtures.empty Fixtures.hostA 1).
  - exists [Fixtures.hostB], [Fixtures.hostC].
    split; [reflexivity|]. split; repeat constructor; simpl; lia.
  - simpl. lia.
  - reflexivity.
  - reflexivity.
  - reflexivity.
Defined.

(** X20. Without an existing repository host, when the intent can be
    built and the store answers a StatefulSet whose [Spec.Replicas] is
    set: reconcileDedicatedRepoHost applies a host named after the
    cluster, with the suffix -repo-host, returns it, records one Normal
    RepoHostCreated event, stores whether the ready replicas equal the
    wanted ones, and publishes that as RepoHostReady, True or False. *)
Theorem X20_first_host_is_created (env : Env) (c : PostgresCluster)
    (repoResources : RepoResources) (w : World) (repoHost : Object)
    (replicas : Z) :
  hosts repoResources = [] ->
  let repoHostName := cluster_Name c +:+ "-repo-host" in
  intentError env (RepoHostIntent repoHostName) = None ->
  ApplyResult env (calls w) (RepoHostIntent repoHostName) = inr repoHost ->
  Spec_Replicas repoHost = Some replicas ->
  let ready := Z.eqb (Status_ReadyReplicas repoHost) replicas in
  exists w',
    reconcileDedicatedRepoHost env c repoResources w
    = Some ((Some repoHost, None), w')
    /\ calls w' = calls w ++ [Apply (RepoHostIntent repoHostName)]
    /\ events w'
       = events w
         ++ [mkEvent EventTypeNormal EventRepoHostCreated
               ("created pgBackRest repository host " +:+ Kind repoHost
                  +:+ "/" +:+ repoHostName)]
    /\ Status_RepoHost w' = Some (mkRepoHostStatus ready)
    /\ Status_Repos w' = Status_Repos w
    /\ Status <$> FindStatusCondition (Status_Conditions w') ConditionRepoHostReady
       = Some (if ready then ConditionTrue else ConditionFalse).
Proof.
  intros Hhosts repoHostName Hi Ha Hr ready.
  unfold reconcileDedicatedRepoHost, defer, applyRepoHostIntent,
    getRepoHostStatus, apply, Event_, panic, get, modify, mbind, M_bind,
    mret, M_ret.
  rewrite Hhosts. cbv beta iota. cbn [GetName].
  change (cluster_Name c +:+ "-" +:+ "repo-host") with repoHostName.
  clearbody repoHostName. rewrite Hi. simpl. rewrite Ha.
  simpl. rewrite Hr. simpl. fold ready.
  eexists. split; [reflexivity|]. simpl. split_and!; try done.
  unfold repoHostReadyCondition. simpl.
  destruct ready;
    match goal with
    | |- context [SetStatusCondition ?l ?cond] =>
        pose proof (FindStatusCondition_Set l cond) as Hf
    end; simpl in Hf; rewrite Hf; done.
Qed.

Lemma reconcileDedicatedRepoHost_refused env c (repoResources : RepoResources)
    (w : World) :
  hostRefused env ->
  exists err w',
    reconcileDedicatedRepoHost env c repoResources w
    = Some ((None, Some err), w')
    /\ events w' = events w
    /\ Status_RepoHost w' = Status_RepoHost w
    /\ Status_Repos w' = Status_Repos w
    /\ Status_Conditions w'
       = SetStatusCondition (Status_Conditions w)
           (repoHostReadyCondition c (Status_RepoHost w))
    /\ Forall (fun call => exists name, call = Apply (RepoHostIntent name))
         (drop (length (calls w)) (calls w')).
Proof.
  intros Hrefused.
  unfold reconcileDedicatedRepoHost.
  set (chosen := match hosts repoResources with
                 | [] => _
                 | _ :: _ => _
                 end).
  assert (Hhost : exists host rest isCreate, chosen = (host :: rest, isCreate)).
  { unfold chosen. destruct (hosts repoResources) as [|h0 hs] eqn:Eh.
    - by eexists _, _, _.
    - destruct (sorted_hosts_firstOldest (h0 :: hs)) as (h & t & Hs & _);
        [done|].
      rewrite Hs. by eexists _, _, _. }
  destruct Hhost as (host & rest & isCreate & ->).
  unfold defer, applyRepoHostIntent, apply, get, modify, mbind, M_bind,
    mret, M_ret.
  destruct (intentError env (RepoHostIntent (GetName host))) as [e|] eqn:Ei.
  { eexists _, _. split; [reflexivity|]. simpl. split_and!; try done.
    rewrite drop_all. constructor. }
  destruct (Hrefused (calls w) (GetName host)) as [[e He]|[e He]];
    [congruence|].
  simpl. rewrite He. eexists _, _. split; [reflexivity|]. simpl.
  split_and!; try done. rewrite drop_app_length. repeat constructor. by eexists.
Qed.

(** X21. When no repository host can be applied,
    reconcileDedicatedRepoHost returns a nil host with the error,
    records no event and leaves the stored host status as it was; the
    RepoHostReady condition it upserts is built from that earlier
    status: Unknown when there is none. *)
Theorem X21_refused_host_keeps_earlier_status (env : Env)
    (c : PostgresCluster) (repoResources : RepoResources) (w : World) :
  hostRefused env ->
  exists err w',
    reconcileDedicatedRepoHost env c repoResources w
    = Some ((None, Some err), w')
    /\ events w' = events w
    /\ Status_RepoHost w' = Status_RepoHost w
    /\ Status_Repos w' = Status_Repos w
    /\ Status_Conditions w'
       = SetStatusCondition (Status_Conditions w)
           (repoHostReadyCondition c (Status_RepoHost w))
    /\ (Status_RepoHost w = None ->
        Status <$> FindStatusCondition (Status_Conditions w') ConditionRepoHostReady
        = Some ConditionUnknown).
Proof.
  intros Hrefused.
  destruct (reconcileDedicatedRepoHost_refused env c repoResources w Hrefused)
    as (err & w' & Hrun & He & Hh & Hr & Hc & _).
  exists err, w'. split_and!; try done.
  intros Hnone. rewrite Hc, Hnone.
  pose proof (FindStatusCondition_Set (Status_Conditions w)
                (repoHostReadyCondition c None)) as Hf.
  change (Type' (repoHostReadyCondition c None))
    with ConditionRepoHostReady in Hf.
  rewrite Hf. done.
Qed.

(** X22. With a dedicated repository host in the spec, a successful
    ownership step and no repository host that can be applied,
    reconcilePGBackRest does not return: reconcileDedicatedRepoHost
    gives a nil host beside its error, and the name of the host is read
    through that pointer (line 607). *)
Theorem X22_refused_host_panics_the_cycle (env : Env) (c : PostgresCluster)
    (instanceNames : list string) (w : World) (repoResources : RepoResources)
    (w1 : World) :
  Spec_RepoHost c = Some (mkRepoHost true) ->
  getPGBackRestResources env c w = Some (inr repoResources, w1) ->
  hostRefused env ->
  reconcilePGBackRest env c instanceNames w = None.
Proof.
  intros Hspec Hres Hrefused.
  unfold reconcilePGBackRest, mbind at 1, M_bind. rewrite Hres.
  unfold reconcileOwned. rewrite Hspec. simpl.
  destruct (reconcileDedicatedRepoHost_refused env c repoResources w1 Hrefused)
    as (err & w' & Hrun & _).
  unfold mbind, M_bind. rewrite Hrun. done.
Qed.

Lemma X20_witness :
  exists w',
    reconcileDedicatedRepoHost Fixtures.hosting Fixtures.dedicated
      (mkRepoResources [] [] [] [] None None) Fixtures.empty
    = Some ((Some Fixtures.hostA, None), w')
    /\ calls w' = [] ++ [Apply (RepoHostIntent ("hippo" +:+ "-repo-host"))]
    /\ events w'
       = [] ++ [mkEvent EventTypeNormal EventRepoHostCreated
                  ("created pgBackRest repository host " +:+ "StatefulSet"
                     +:+ "/" +:+ ("hippo" +:+ "-repo-host"))]
    /\ Status_RepoHost w' = Some (mkRepoHostStatus (Z.eqb 1 1))
    /\ Status_Repos w' = []
    /\ Status <$> FindStatusCondition (Status_Conditions w') ConditionRepoHostReady
       = Some (if Z.eqb 1 1 then ConditionTrue else ConditionFalse).
Proof.
  apply (X20_first_host_is_created Fixtures.hosting Fixtures.dedicated
           (mkRepoResources [] [] [] [] None None) Fixtures.empty
           Fixtures.hostA 1);
    reflexivity.
Defined.

Lemma hostRefused_refusing : hostRefused Fixtures.refusing.
Proof. intros history name. right. by eexists. Defined.

Lemma X21_witness :
  exists err w',
    reconcileDedicatedRepoHost Fixtures.refusing Fixtures.dedicated
      (mkRepoResources [] [] [Fixtures.hostA] [] None None) Fixtures.empty
    = Some ((None, Some err), w')
    /\ events w' = []
    /\ Status_RepoHost w' = None
    /\ Status_Repos w' = []
    /\ Status_Conditions w'
       = SetStatusCondition [] (repoHostReadyCondition Fixtures.dedicated None)
    /\ (Status_RepoHost Fixtures.empty = None ->
        Status <$> FindStatusCondition (Status_Conditions w') ConditionRepoHostReady
        = Some ConditionUnknown).
Proof.
  apply (X21_refused_host_keeps_earlier_status Fixtures.refusing
           Fixtures.dedicated
           (mkRepoResources [] [] [Fixtures.hostA] [] None None) Fixtures.empty).
  exact hostRefused_refusing.
Defined.

Lemma X22_witness :
  reconcilePGBackRest Fixtures.refusing Fixtures.dedicated [] Fixtures.empty
  = None.
Proof.
  eapply (X22_refused_host_panics_the_cycle Fixtures.refusing
            Fixtures.dedicated [] Fixtures.empty).
  - reflexivity.
  - vm_compute. reflexivity.
  - exact hostRefused_refusing.
Defined.

(** ** The repository index of a backup Job *)

Lemma leadingDigits_run (digits rest : string) :
  allChars isDigit digits = true ->
  startsWithoutDigit rest = true ->
  leadingDigits (digits +:+ rest) = digits.
Proof.
  intros Hd Hr. induction digits as [|a digits IH]; simpl in *.
  - destruct rest as [|b rest]; simpl in *; [done|].
    by destruct (isDigit b).
  - apply andb_true_iff in Hd as [Ha Hd]. rewrite Ha, IH; done.
Qed.

Lemma FindString_no_digit (s : string) :
  allChars (fun a => negb (isDigit a)) s = true ->
  regexRepoIndex_FindString s = "".
Proof.
  induction s as [|a s IH]; simpl; [done|].
  intros [Ha Hs]%andb_true_iff. apply negb_true_iff in Ha. rewrite Ha. auto.
Qed.

Lemma FindString_run (prefix digits rest : string) :
  allChars (fun a => negb (isDigit a)) prefix = true ->
  digits ≠ "" ->
  allChars isDigit digits = true ->
  startsWithoutDigit rest = true ->
  regexRepoIndex_FindString (prefix +:+ digits +:+ rest) = digits.
Proof.
  intros Hp Hne Hd Hr. induction prefix as [|a prefix IH]; simpl in *.
  - destruct digits as [|d digits]; [done|]. simpl in *.
    apply andb_true_iff in Hd as [Ha Hd]. rewrite Ha.
    by rewrite leadingDigits_run.
  - apply andb_true_iff in Hp as [Ha Hp]. apply negb_true_iff in Ha.
    rewrite Ha. auto.
Qed.

(** X23. The repository index a backup Job is given is the first run
    of decimal digits of the repository name.  For a name made of a
    prefix without digits, a non-empty run of digits and a rest that
    does not start with a digit, COMMAND_OPTS is the stanza option, a
    space and [--repo=] followed by those digits, whatever the rest
    holds; for a name without any digit, as the prefix alone, [--repo=]
    has nothing after it. *)
Theorem X23_repo_index_is_first_digit_run (DefaultStanzaName : string)
    (prefix digits rest : string) :
  allChars (fun a => negb (isDigit a)) prefix = true ->
  digits ≠ "" ->
  allChars isDigit digits = true ->
  startsWithoutDigit rest = true ->
  regexRepoIndex_FindString (prefix +:+ digits +:+ rest) = digits
  /\ backupCommandOpts DefaultStanzaName (prefix +:+ digits +:+ rest)
     = ("--stanza=" +:+ DefaultStanzaName) +:+ " " +:+ ("--repo=" +:+ digits)
  /\ backupCommandOpts DefaultStanzaName prefix
     = ("--stanza=" +:+ DefaultStanzaName) +:+ " " +:+ "--repo=".
Proof.
  intros Hp Hne Hd Hr. unfold backupCommandOpts.
  rewrite FindString_run, FindString_no_digit by done. done.
Qed.

Lemma X23_witness :
  regexRepoIndex_FindString ("repo" +:+ "12" +:+ "-s3-4") = "12"
  /\ backupCommandOpts "db" ("repo" +:+ "12" +:+ "-s3-4")
     = ("--stanza=" +:+ "db") +:+ " " +:+ ("--repo=" +:+ "12")
  /\ backupCommandOpts "db" "repo"
     = ("--stanza=" +:+ "db") +:+ " " +:+ "--repo=".
Proof.
  apply (X23_repo_index_is_first_digit_run "db" "repo" "12" "-s3-4");
    [reflexivity|discriminate|reflexivity|reflexivity].
Defined.

(** ** The stanza gate and the cycle, error paths *)

(** X24. When reconcileStanzaCreate executes the stanza-create command
    and the command returns an error, whatever it says about the
    hash: the call returns (false, that error), records one Warning
    UnableToCreateStanzas event whose message is the error, and changes
    no repository status. *)
Theorem X24_failed_stanza_create_is_reported (env : Env) (c : PostgresCluster)
    (configHash : string) (w : World) (selector containerName : string)
    (pod : Object) (mismatch : bool) (err : Error) :
  ClusterBootstrapped env c = true ->
  dedicatedRepoReady (Status_Conditions w) = true ->
  forallb StanzaCreated (Status_Repos w) = false ->
  getPGBackRestExecSelector env c = inr (selector, containerName) ->
  ListResult env (calls w) "PodList" (cluster_Namespace c) selector = inr [pod] ->
  StanzaCreateResult env
    (calls w ++ [List "PodList" (cluster_Namespace c) selector])
    (cluster_Namespace c) (GetName pod) containerName configHash
  = (mismatch, Some err) ->
  exists w',
    reconcileStanzaCreate env c configHash w = Some ((false, Some err), w')
    /\ events w'
       = events w ++ [mkEvent EventTypeWarning EventUnableToCreateStanzas err]
    /\ Status_Repos w' = Status_Repos w
    /\ calls w'
       = calls w ++ [List "PodList" (cluster_Namespace c) selector;
                     StanzaCreate (cluster_Namespace c) (GetName pod)
                       containerName configHash].
Proof.
  intros Hboot Hhost Hsome Hsel Hlist Hr.
  rewrite (stanzaCreate_executed env c configHash w selector containerName
             Hboot Hhost Hsome Hsel pod _ Hlist Hr).
  destruct mismatch; eexists; (split; [reflexivity|]; simpl; by rewrite <- app_assoc).
Qed.

Lemma X24_witness :
  let env := Examples.env true [Examples.pod1]
               (true, Some "stanza-create: unable to find primary") None in
  let w := mkWorld None [mkRepoStatus true "repo1" "pv-1" "" false false] [] [] [] in
  exists w',
    reconcileStanzaCreate env Examples.hippo "hash" w
    = Some ((false, Some "stanza-create: unable to find primary"), w')
    /\ events w'
       = [] ++ [mkEvent EventTypeWarning EventUnableToCreateStanzas
                  "stanza-create: unable to find primary"]
    /\ Status_Repos w' = Status_Repos w
    /\ calls w'
       = [] ++ [List "PodList" "ns" "primary";
                StanzaCreate "ns" "hippo-instance1-abcd-0" "database" "hash"].
Proof.
  intros env w.
  apply (X24_failed_stanza_create_is_reported env Examples.hippo "hash" w
           "primary" "database" Examples.pod1 true
           "stanza-create: unable to find primary");
    reflexivity.
Defined.

Lemma bind_Some {A B : Type} (m : M A) (f : A -> M B) (w : World) (r : B)
    (w' : World) :
  (m ≫= f) w = Some (r, w') ->
  exists a w1, m w = Some (a, w1) /\ f a w1 = Some (r, w').
Proof.
  unfold mbind, M_bind. destruct (m w) as [[a w1]|]; [|done].
  intros H. by exists a, w1.
Qed.

(** X25. The only error reconcilePGBackRest returns is the one of the
    ownership step, with an empty result.  Once that step has
    succeeded, every return of the cycle has a nil error: a failure of
    the repository host, the repositories, the configuration, the
    roles, the stanza creation, a CronJob or the replica-create backup
    is not returned. *)
Theorem X25_only_ownership_errors_are_returned (env : Env)
    (c : PostgresCluster) (instanceNames : list string) (w : World)
    (result : Result) (err : option Error) (w' : World) :
  reconcilePGBackRest env c instanceNames w = Some ((result, err), w') ->
  match err with
  | Some e =>
      result = mkResult false 0
      /\ getPGBackRestResources env c w = Some (inl e, w')
  | None =>
      exists repoResources w1,
        getPGBackRestResources env c w = Some (inr repoResources, w1)
  end.
Proof.
  unfold reconcilePGBackRest.
  intros ([e|res] & w1 & Hres & Hrun)%bind_Some.
  { injection Hrun as <- <- <-. done. }
  assert (err = None) as ->; [|by eexists _, _].
  unfold reconcileOwned in Hrun.
  apply bind_Some in Hrun as ([result1 repoHostName] & w2 & _ & Hrun).
  destruct (CalculateConfigHashes env c) as [[configHashes configHash] herr].
  apply bind_Some in Hrun as ([replicaCreateRepo rerr] & w3 & _ & Hrun).
  apply bind_Some in Hrun as (cerr & w4 & _ & Hrun).
  apply bind_Some in Hrun as ([sa saerr] & w5 & _ & Hrun).
  apply bind_Some in Hrun as ([mismatch serr] & w6 & _ & Hrun).
  apply bind_Some in Hrun as (requeue & w7 & _ & Hrun).
  apply bind_Some in Hrun as (berr & w8 & _ & Hrun).
  by injection Hrun as _ <- _.
Qed.

Lemma X25_witness :
  exists repoResources w1,
    getPGBackRestResources Fixtures.accepting Examples.hippo Fixtures.empty
    = Some (inr repoResources, w1).
Proof.
  eapply (X25_only_ownership_errors_are_returned Fixtures.accepting
            Examples.hippo ["hippo-instance1-abcd"] Fixtures.empty _ None).
  vm_compute. reflexivity.
Defined.
